(** * Order routes of the e-commerce backend: a shallow embedding

    The development follows the order router (the file that declares
    [getUserByClerkId], [router.post('/')] and [router.patch('/:id/cancel')]).
    Handlers are functions on an explicit [world]: the relational store, the
    state of the checked-out connection, and the sources of nondeterminism the
    handlers consult ([Math.random], [Date.now], failing round trips).

    Conventions of the model
    - JSON numbers are integers ([Z]): identifiers, quantities and amounts in
      minor units.  [Math.floor(Math.random() * n)] is a draw in [0, n).
    - A request field is a [js] value: absent ([undefined]), [null], or a
      value of the expected type.  [quantity] is a number.
    - [connection.query] binds [undefined] and [null] as SQL [NULL]; an SQL
      comparison with [NULL] is never true.  Text comparison is exact.
    - Columns that no handler reads back in a decision (timestamps,
      [currency_id], [language_id], display columns) are left out.
    - A request is served alone: no other connection writes to the store
      while a handler runs, and no transaction is open when it starts. *)

From Stdlib Require Import ZArith Lia Ascii.
From stdpp Require Import gmap strings list fin_maps.

Local Open Scope string_scope.
Local Open Scope list_scope.
Local Open Scope Z_scope.

(** ** JavaScript values at the request boundary *)

Inductive js (A : Type) : Type :=
  | undefined
  | null
  | val (a : A).
Arguments undefined {A}.
Arguments null {A}.
Arguments val {A} a.

(** Truthiness of a numeric field: [undefined], [null] and [0] are falsy. *)
Definition truthy (v : js Z) : bool :=
  match v with
  | undefined | null => false
  | val n => negb (n =? 0)
  end.

(** [a || b] *)
Definition js_or (a b : js Z) : js Z := if truthy a then a else b.

(** The value the driver binds for a [?] placeholder. *)
Definition to_sql {A} (v : js A) : option A :=
  match v with
  | undefined | null => None
  | val a => Some a
  end.

(** ** Strings: decimal rendering, [slice(-8)], [padStart(2, '0')] *)

Definition digit_char (d : Z) : ascii := ascii_of_nat (48 + Z.to_nat d).

Definition is_digit (c : ascii) : bool :=
  let n := nat_of_ascii c in ((48 <=? n) && (n <=? 57))%nat.

Fixpoint all_digits (s : string) : bool :=
  match s with
  | EmptyString => true
  | String c s' => is_digit c && all_digits s'
  end.

(** Digits of a non-negative integer, most significant first, pushed in
    front of [acc].  [fuel] bounds the number of digits. *)
Fixpoint digits_go (fuel : nat) (n : Z) (acc : string) : string :=
  match fuel with
  | O => acc
  | S fuel' =>
      let acc' := String (digit_char (n mod 10)) acc in
      if n / 10 =? 0 then acc' else digits_go fuel' (n / 10) acc'
  end.

Definition digits (n : Z) : string :=
  digits_go (S (Z.to_nat (Z.log2 n))) n EmptyString.

(** [Number.prototype.toString] on an integer. *)
Definition toString (n : Z) : string :=
  if n <? 0 then String "-" (digits (- n)) else digits n.

Fixpoint string_skip (k : nat) (s : string) : string :=
  match k, s with
  | O, _ => s
  | S k', String _ s' => string_skip k' s'
  | S _, EmptyString => EmptyString
  end.

(** [s.slice(-k)]: the last [k] characters, the whole string when shorter. *)
Definition slice_last (k : nat) (s : string) : string :=
  string_skip (String.length s - k) s.

Fixpoint zeros (k : nat) : string :=
  match k with
  | O => EmptyString
  | S k' => String "0" (zeros k')
  end.

(** [s.padStart(k, '0')] *)
Definition padStart0 (k : nat) (s : string) : string :=
  zeros (k - String.length s) +:+ s.

(** The pattern [TRK\d{6,10}], anchored at both ends. *)
Definition is_tracking_number (s : string) : bool :=
  match s with
  | String "T" (String "R" (String "K" ds)) =>
      all_digits ds && (6 <=? String.length ds)%nat && (String.length ds <=? 10)%nat
  | _ => false
  end.

Example toString_epoch : toString 1723456789012 = "1723456789012".
Proof. reflexivity. Qed.

Example toString_neg : toString (-42) = "-42".
Proof. reflexivity. Qed.

Example slice_last_epoch : slice_last 8 (toString 1723456789012) = "56789012".
Proof. reflexivity. Qed.

Example padStart0_7 : padStart0 2 (toString 7) = "07".
Proof. reflexivity. Qed.

Example is_tracking_number_samples :
  is_tracking_number <$>
    ["TRK112345"; "TRK5678901245"; "TRK12345"; "TRK12345678901"; "TRK12345a"; "trk123456"]
  = [true; true; false; false; false; false].
Proof. reflexivity. Qed.

(** ** The relational store *)

Inductive order_status := pending | processing | shipped | delivered | cancelled.

Record user_row := {
  user_id : Z;
  clerk_id : string
}.

Record address_row := {
  address_id : Z;
  address_user_id : Z;
  address_street : option string;
  address_city : option string;
  address_state : option string;
  address_country : option string;
  address_postal_code : option string;
  is_shipping : bool;
  is_billing : bool
}.

Record order_row := {
  order_id : Z;
  order_user_id : Z;
  total_amount : option Z;
  status : order_status;
  shipping_address_id : Z;
  billing_address_id : Z;
  tracking_number : string
}.

Record order_item_row := {
  order_item_id : Z;
  item_order_id : Z;
  item_variant_id : option Z;
  item_quantity : Z;
  item_unit_price : option Z
}.

(** [product_variants] is keyed by its primary key [variant_id] and holds
    [stock_quantity].  The three counters are the AUTO_INCREMENT values
    that the next INSERT into each table returns as [insertId]. *)
Record database := {
  users : list user_row;
  addresses : list address_row;
  orders : list order_row;
  order_items : list order_item_row;
  product_variants : gmap Z Z;
  next_address_id : Z;
  next_order_id : Z;
  next_order_item_id : Z
}.

Global Instance order_status_eq_dec : EqDecision order_status.
Proof. solve_decision. Defined.
Global Instance user_row_eq_dec : EqDecision user_row.
Proof. solve_decision. Defined.
Global Instance address_row_eq_dec : EqDecision address_row.
Proof. solve_decision. Defined.
Global Instance order_row_eq_dec : EqDecision order_row.
Proof. solve_decision. Defined.
Global Instance order_item_row_eq_dec : EqDecision order_item_row.
Proof. solve_decision. Defined.
Global Instance database_eq_dec : EqDecision database.
Proof. solve_decision. Defined.

(** ** Request bodies *)

(** One element of [items]. *)
Record item := {
  variant_id : js Z;
  product_id : js Z;
  quantity : Z;
  unit_price : js Z;
  price : js Z
}.

(** [shipping_address] / [billing_address] when present. *)
Record address := {
  street : js string;
  city : js string;
  state : js string;
  country : js string;
  postal_code : js string
}.

(** What [req.body.items] can be, as far as the validation tells apart. *)
Inductive body_items :=
  | ItemsFalsy                       (* absent, null or another falsy value *)
  | ItemsNotArray                    (* a truthy value that is not an array *)
  | ItemsArray (l : list item).

(** A request as the handlers see it: past [verifyClerkAuth], which sets
    [req.clerkUser] without touching the store, and with [req.body] the
    object parsed by [express.json()].  [clerk_user_id] is [clerkUser.id];
    an address is [None] when absent or otherwise falsy.  [payment_method],
    [subtotal], [shipping] and [tax] are read and never used. *)
Record request := {
  clerk_user_id : string;
  items : body_items;
  shipping_address : option address;
  billing_address : option address;
  total : js Z
}.

(** ** Responses *)

Record order_view := {
  view_order : order_row;
  view_shipping : option address_row;
  view_billing : option address_row;
  view_items : list order_item_row
}.

Record response := {
  status_code : Z;
  success : bool;
  message : string;
  error : option string;
  data : option order_view
}.

(** ** The world a handler runs in *)

Inductive exn := Error (msg : string).

Definition err_message (e : exn) : string := let 'Error m := e in m.

(** - [committed]: what every other connection sees;
    - [txn]: the working copy of the transaction open on the checked-out
      connection, if any;
    - [random], [draws]: the sequence consulted by [Math.random] and how far
      it has been consumed;
    - [clock]: [Date.now()];
    - [console]: variant references reported by [console.warn]. *)
Record system := {
  committed : database;
  txn : option database;
  random : nat → Z;
  draws : nat;
  clock : Z;
  console : list (js Z)
}.

(** [fault] lists the round trips to the store that fail: with
    [(k, m) :: rest], the next [k] round trips go through and the one after
    them throws an error with message [m], after which [rest] applies; the
    empty list lets every round trip through. *)
Record world := {
  sys :> system;
  fault : list (nat * string)
}.

Definition set_committed (d : database) (s : system) : system :=
  {| committed := d; txn := txn s; random := random s;
     draws := draws s; clock := clock s; console := console s |}.

Definition set_txn (t : option database) (s : system) : system :=
  {| committed := committed s; txn := t; random := random s;
     draws := draws s; clock := clock s; console := console s |}.

Definition set_draws (k : nat) (s : system) : system :=
  {| committed := committed s; txn := txn s; random := random s;
     draws := k; clock := clock s; console := console s |}.

Definition set_console (c : list (js Z)) (s : system) : system :=
  {| committed := committed s; txn := txn s; random := random s;
     draws := draws s; clock := clock s; console := c |}.

(** The data a statement on the checked-out connection operates on. *)
Definition current (s : system) : database := default (committed s) (txn s).

Definition put_current (d : database) (s : system) : system :=
  match txn s with
  | Some _ => set_txn (Some d) s
  | None => set_committed d s
  end.

(** ** Computations that may throw *)

Definition M (A : Type) : Type := world → (A + exn) * world.

Global Instance M_ret : MRet M := λ A a w, (inl a, w).

Global Instance M_bind : MBind M := λ A B f m w,
  match m w with
  | (inl a, w1) => f a w1
  | (inr e, w1) => (inr e, w1)
  end.

Definition throw {A} (e : exn) : M A := λ w, (inr e, w).

Definition try_catch {A} (m : M A) (handler : exn → M A) : M A := λ w,
  match m w with
  | (inl a, w1) => (inl a, w1)
  | (inr e, w1) => handler e w1
  end.

Definition gets {A} (f : system → A) : M A := λ w, (inl (f w), w).

Definition modify (f : system → system) : M () := λ w,
  (inl (), {| sys := f w; fault := fault w |}).

Fixpoint for_each {A} (body : A → M ()) (l : list A) : M () :=
  match l with
  | [] => mret ()
  | x :: l' => _ ← body x; for_each body l'
  end.

(** One awaited round trip to the store. *)
Definition round_trip : M () := λ w,
  match fault w with
  | (O, m) :: rest => (inr (Error m), {| sys := w; fault := rest |})
  | (S k, m) :: rest => (inl (), {| sys := w; fault := (k, m) :: rest |})
  | [] => (inl (), w)
  end.

(** [connection.query]: a statement on the checked-out connection. *)
Definition conn_read {A} (q : database → A) : M A :=
  _ ← round_trip; gets (λ s, q (current s)).

Definition conn_write {A} (q : database → A * database) : M A :=
  _ ← round_trip;
  r ← gets (λ s, q (current s));
  _ ← modify (put_current r.2);
  mret r.1.

(** [db.query]: a statement on the pool, outside any transaction. *)
Definition pool_read {A} (q : database → A) : M A :=
  _ ← round_trip; gets (λ s, q (committed s)).

Definition pool_write {A} (q : database → A * database) : M A :=
  _ ← round_trip;
  r ← gets (λ s, q (committed s));
  _ ← modify (set_committed r.2);
  mret r.1.

Definition getConnection : M () := round_trip.

Definition beginTransaction : M () :=
  _ ← round_trip; modify (λ s, set_txn (Some (current s)) s).

Definition commit : M () :=
  _ ← round_trip; modify (λ s, set_txn None (set_committed (current s) s)).

(** [connection.rollback()]: a round trip like [commit]; when it fails the
    transaction stays as it is. *)
Definition rollback : M () :=
  _ ← round_trip; modify (set_txn None).

(** [Math.floor(Math.random() * n)] *)
Definition random_below (n : Z) : M Z :=
  r ← gets (λ s, random s (draws s) mod n);
  _ ← modify (λ s, set_draws (S (draws s)) s);
  mret r.

Definition date_now : M Z := gets clock.

Definition console_warn (ref : js Z) : M () :=
  modify (λ s, set_console (console s ++ [ref]) s).

(** ** SQL statements of the order router *)

(** [col = ?]: never true when either side is [NULL]. *)
Definition sql_eq_text (col param : option string) : bool :=
  match col, param with
  | Some c, Some p => String.eqb c p
  | _, _ => false
  end.

(** [SELECT ... FROM users WHERE clerk_id = ?] *)
Definition select_users_by_clerk_id (clerkId : string) (d : database) : list user_row :=
  List.filter (λ u, String.eqb (clerk_id u) clerkId) (users d).

(** [WHERE user_id = ? AND street = ? AND city = ? AND state = ? AND
    country = ? AND postal_code = ?] *)
Definition address_matches (uid : Z) (a : address) (r : address_row) : bool :=
  (address_user_id r =? uid)
  && sql_eq_text (address_street r) (to_sql (street a))
  && sql_eq_text (address_city r) (to_sql (city a))
  && sql_eq_text (address_state r) (to_sql (state a))
  && sql_eq_text (address_country r) (to_sql (country a))
  && sql_eq_text (address_postal_code r) (to_sql (postal_code a)).

Definition select_addresses (uid : Z) (a : address) (d : database) : list address_row :=
  List.filter (address_matches uid a) (addresses d).

Inductive address_role := Shipping | Billing.

(** The row of [INSERT INTO addresses (user_id, street, city, state, country,
    postal_code, is_shipping | is_billing, created_at) VALUES (..., true,
    NOW())]; the flag that is not named takes the column default. *)
Definition new_address_row (role : address_role) (uid : Z) (a : address) (id : Z)
  : address_row :=
  {| address_id := id;
     address_user_id := uid;
     address_street := to_sql (street a);
     address_city := to_sql (city a);
     address_state := to_sql (state a);
     address_country := to_sql (country a);
     address_postal_code := to_sql (postal_code a);
     is_shipping := match role with Shipping => true | Billing => false end;
     is_billing := match role with Shipping => false | Billing => true end |}.

Definition insert_address (role : address_role) (uid : Z) (a : address) (d : database)
  : Z * database :=
  (next_address_id d,
   {| users := users d;
      addresses := addresses d ++ [new_address_row role uid a (next_address_id d)];
      orders := orders d;
      order_items := order_items d;
      product_variants := product_variants d;
      next_address_id := next_address_id d + 1;
      next_order_id := next_order_id d;
      next_order_item_id := next_order_item_id d |}).

(** [SELECT order_id FROM orders WHERE tracking_number = ?] *)
Definition select_orders_by_tracking (t : string) (d : database) : list order_row :=
  List.filter (λ o, String.eqb (tracking_number o) t) (orders d).

(** The row of [INSERT INTO orders (...) VALUES (?, ?, 1, 1, 'pending', ?, ?,
    ?, NOW(), NOW())]. *)
Definition new_order_row (uid : Z) (total : js Z) (sid bid : Z) (t : string) (id : Z)
  : order_row :=
  {| order_id := id;
     order_user_id := uid;
     total_amount := to_sql total;
     status := pending;
     shipping_address_id := sid;
     billing_address_id := bid;
     tracking_number := t |}.

Definition insert_order (uid : Z) (total : js Z) (sid bid : Z) (t : string) (d : database)
  : Z * database :=
  (next_order_id d,
   {| users := users d;
      addresses := addresses d;
      orders := orders d ++ [new_order_row uid total sid bid t (next_order_id d)];
      order_items := order_items d;
      product_variants := product_variants d;
      next_address_id := next_address_id d;
      next_order_id := next_order_id d + 1;
      next_order_item_id := next_order_item_id d |}).

(** The row of [INSERT INTO order_items (order_id, variant_id, quantity,
    unit_price) VALUES (?, ?, ?, ?)] for one element of [items]. *)
Definition new_order_item_row (orderId : Z) (it : item) (id : Z) : order_item_row :=
  {| order_item_id := id;
     item_order_id := orderId;
     item_variant_id := to_sql (js_or (variant_id it) (product_id it));
     item_quantity := quantity it;
     item_unit_price := to_sql (js_or (unit_price it) (price it)) |}.

Definition insert_order_item (orderId : Z) (it : item) (d : database) : () * database :=
  ((),
   {| users := users d;
      addresses := addresses d;
      orders := orders d;
      order_items :=
        order_items d ++ [new_order_item_row orderId it (next_order_item_id d)];
      product_variants := product_variants d;
      next_address_id := next_address_id d;
      next_order_id := next_order_id d;
      next_order_item_id := next_order_item_id d + 1 |}).

(** [SELECT variant_id FROM product_variants WHERE variant_id = ?] *)
Definition select_variant (ref : option Z) (d : database) : list Z :=
  match ref with
  | Some v => if product_variants d !! v is Some _ then [v] else []
  | None => []
  end.

(** [UPDATE product_variants SET stock_quantity = stock_quantity - ? WHERE
    variant_id = ?] *)
Definition update_stock (qty : Z) (ref : option Z) (d : database) : () * database :=
  ((),
   {| users := users d;
      addresses := addresses d;
      orders := orders d;
      order_items := order_items d;
      product_variants :=
        match ref with
        | Some v => alter (λ stock, stock - qty) v (product_variants d)
        | None => product_variants d
        end;
      next_address_id := next_address_id d;
      next_order_id := next_order_id d;
      next_order_item_id := next_order_item_id d |}).

(** [LEFT JOIN addresses ON ... = address_id], on the primary key. *)
Definition join_address (id : Z) (d : database) : option address_row :=
  List.find (λ a, address_id a =? id) (addresses d).

(** [SELECT ... FROM order_items oi LEFT JOIN product_variants ... LEFT JOIN
    products ... WHERE oi.order_id = ?]: the joins are on primary keys and
    only add display columns. *)
Definition select_order_items (orderId : Z) (d : database) : list order_item_row :=
  List.filter (λ r, item_order_id r =? orderId) (order_items d).

(** [SELECT ... FROM orders o LEFT JOIN addresses sa ... LEFT JOIN addresses
    ba ... WHERE o.order_id = ?] *)
Definition select_order (orderId : Z) (d : database)
  : list (order_row * option address_row * option address_row) :=
  List.map
    (λ o, (o, join_address (shipping_address_id o) d, join_address (billing_address_id o) d))
    (List.filter (λ o, order_id o =? orderId) (orders d)).

Definition is_cancellable (s : order_status) : bool :=
  match s with
  | pending | processing => true
  | _ => false
  end.

(** [SELECT * FROM orders WHERE order_id = ? AND user_id = ? AND status IN
    ("pending", "processing")] *)
Definition select_cancellable (id uid : Z) (d : database) : list order_row :=
  List.filter
    (λ o, (order_id o =? id) && (order_user_id o =? uid) && is_cancellable (status o))
    (orders d).

Definition set_status (s : order_status) (o : order_row) : order_row :=
  {| order_id := order_id o;
     order_user_id := order_user_id o;
     total_amount := total_amount o;
     status := s;
     shipping_address_id := shipping_address_id o;
     billing_address_id := billing_address_id o;
     tracking_number := tracking_number o |}.

(** [UPDATE orders SET status = "cancelled", updated_at = NOW() WHERE
    order_id = ? AND user_id = ?] *)
Definition update_cancelled (id uid : Z) (d : database) : () * database :=
  ((),
   {| users := users d;
      addresses := addresses d;
      orders :=
        List.map
          (λ o, if (order_id o =? id) && (order_user_id o =? uid)
                then set_status cancelled o else o)
          (orders d);
      order_items := order_items d;
      product_variants := product_variants d;
      next_address_id := next_address_id d;
      next_order_id := next_order_id d;
      next_order_item_id := next_order_item_id d |}).

(** ** Handlers *)

Definition getUserByClerkId (clerkId : string) : M (option user_row) :=
  users ← pool_read (select_users_by_clerk_id clerkId);
  mret (head users).

Definition bad_request (msg : string) : response :=
  {| status_code := 400; success := false; message := msg; error := None; data := None |}.

Definition not_found (msg : string) : response :=
  {| status_code := 404; success := false; message := msg; error := None; data := None |}.

Definition server_error (msg : string) (e : exn) : response :=
  {| status_code := 500; success := false; message := msg;
     error := Some (err_message e); data := None |}.

Definition created (order : order_view) : response :=
  {| status_code := 201; success := true; message := "Order created successfully";
     error := None; data := Some order |}.

Definition ok (msg : string) : response :=
  {| status_code := 200; success := true; message := msg; error := None; data := None |}.

(** Steps 1 and 2 of [router.post('/')]: create or get an address. *)
Definition resolve_address (role : address_role) (uid : Z) (a : address) : M Z :=
  existingAddress ← conn_read (select_addresses uid a);
  match existingAddress with
  | r :: _ => mret (address_id r)
  | [] => conn_write (insert_address role uid a)
  end.

Definition generateProfessionalTrackingNumber : M string :=
  let min := 100000 in
  let max := 99999999 in
  randomDigits ← (r ← random_below (max - min + 1); mret (r + min));
  mret ("TRK" +:+ toString randomDigits).

Definition maxAttempts : nat := 10.

(** [while (!isUnique && attempts < maxAttempts)], by the number of attempts
    that remain; [Some t] when the loop leaves with [isUnique] set. *)
Fixpoint unique_tracking_loop (remaining : nat) : M (option string) :=
  match remaining with
  | O => mret None
  | S remaining' =>
      trackingNumber ← generateProfessionalTrackingNumber;
      existingTracking ← conn_read (select_orders_by_tracking trackingNumber);
      match existingTracking with
      | [] => mret (Some trackingNumber)
      | _ :: _ => unique_tracking_loop remaining'
      end
  end.

Definition tracking_exhausted_message : string :=
  "Failed to generate unique tracking number after multiple attempts".

(** Step 3: a tracking number no order carries yet. *)
Definition allocate_tracking_number : M string :=
  found ← unique_tracking_loop maxAttempts;
  match found with
  | Some trackingNumber => mret trackingNumber
  | None =>
      now ← date_now;
      let timestamp := slice_last 8 (toString now) in
      r ← random_below 100;
      let suffix := padStart0 2 (toString r) in
      let trackingNumber := "TRK" +:+ timestamp +:+ suffix in
      finalCheck ← conn_read (select_orders_by_tracking trackingNumber);
      match finalCheck with
      | [] => mret trackingNumber
      | _ :: _ => throw (Error tracking_exhausted_message)
      end
  end.

(** Body of [for (const item of items)]. *)
Definition place_item (orderId : Z) (it : item) : M () :=
  _ ← conn_write (insert_order_item orderId it);
  let ref := js_or (variant_id it) (product_id it) in
  if truthy ref then
    variantCheck ← conn_read (select_variant (to_sql ref));
    match variantCheck with
    | _ :: _ => conn_write (update_stock (quantity it) (to_sql ref))
    | [] => console_warn ref
    end
  else mret ().

(** Steps 1 to 5, between [beginTransaction] and [commit]. *)
Definition create_order (user : user_row) (its : list item) (sa ba : address)
    (total : js Z) : M Z :=
  shippingAddressId ← resolve_address Shipping (user_id user) sa;
  billingAddressId ← resolve_address Billing (user_id user) ba;
  trackingNumber ← allocate_tracking_number;
  orderId ← conn_write
    (insert_order (user_id user) total shippingAddressId billingAddressId trackingNumber);
  _ ← for_each (place_item orderId) its;
  mret orderId.

(** The re-read after the commit: [newOrders[0]] with [items] attached. *)
Definition read_order (orderId : Z) : M order_view :=
  newOrders ← conn_read (select_order orderId);
  orderItems ← conn_read (select_order_items orderId);
  match newOrders with
  | (o, sa, ba) :: _ =>
      mret {| view_order := o; view_shipping := sa; view_billing := ba;
              view_items := orderItems |}
  | [] => throw (Error "Cannot set properties of undefined (setting 'items')")
  end.

(** The inner [try] with its [catch], once the transaction is open: steps 1
    to 5, the commit, the re-read and the 201; an error rolls back and is
    thrown again, unless the rollback itself throws. *)
Definition in_transaction (user : user_row) (its : list item) (sa ba : address)
    (total : js Z) : M response :=
  try_catch
    (orderId ← create_order user its sa ba total;
     _ ← commit;
     order ← read_order orderId;
     mret (created order))
    (λ transactionError, _ ← rollback; throw transactionError).

(** The outer [catch]: [if (connection) await connection.rollback()], then
    the 500.  An error of that rollback is thrown out of the handler. *)
Definition failed_to_create (connection : bool) (err : exn) : M response :=
  _ ← (if connection then rollback else mret ());
  mret (server_error "Failed to create order" err).

(** [router.post('/')].  The outcome [inl res] is the response sent;
    [inr e] is the handler ending with the error [e] thrown from its outer
    [catch], in which case no response is sent.  [connection] is assigned
    once [getConnection] has returned. *)
Definition post_orders (req : request) : M response :=
  match items req with
  | ItemsArray (it :: its) =>
      match shipping_address req, billing_address req with
      | Some sa, Some ba => λ w,
          match getUserByClerkId (clerk_user_id req) w with
          | (inr err, w1) => failed_to_create false err w1
          | (inl None, w1) => (inl (not_found "User not found"), w1)
          | (inl (Some user), w1) =>
              match getConnection w1 with
              | (inr err, w2) => failed_to_create false err w2
              | (inl _, w2) =>
                  match (_ ← beginTransaction;
                         in_transaction user (it :: its) sa ba (total req)) w2 with
                  | (inl res, w3) => (inl res, w3)
                  | (inr err, w3) => failed_to_create true err w3
                  end
              end
          end
      | _, _ => mret (bad_request "Shipping and billing addresses are required")
      end
  | _ => mret (bad_request "Order must contain at least one item")
  end.

(** [router.patch('/:id/cancel')], the self-service handler. *)
Definition cancel_order (clerkId : string) (id : Z) : M response :=
  user ← getUserByClerkId clerkId;
  match user with
  | None => mret (not_found "User not found")
  | Some user =>
      existingOrders ← pool_read (select_cancellable id (user_id user));
      match existingOrders with
      | [] =>
          mret (not_found
                  "Order not found, already cancelled/delivered, or cannot be cancelled")
      | _ :: _ =>
          _ ← pool_write (update_cancelled id (user_id user));
          mret (ok "Order cancelled successfully")
      end
  end.

Definition patch_orders_cancel (clerkId : string) (id : Z) : world → response * world :=
  λ w,
    match cancel_order clerkId id w with
    | (inl res, w1) => (res, w1)
    | (inr err, w1) => (server_error "Failed to cancel order" err, w1)
    end.

(** * Reasoning about computations *)

Section monad_facts.
Context {A B : Type}.
Implicit Types (m : M A) (f : A → M B) (w : world).

Lemma bind_run m f w :
  (m ≫= f) w = match m w with
               | (inl a, w1) => f a w1
               | (inr e, w1) => (inr e, w1)
               end.
Proof. reflexivity. Qed.

Lemma bind_inl m f w b w' :
  (m ≫= f) w = (inl b, w') →
  ∃ a w1, m w = (inl a, w1) ∧ f a w1 = (inl b, w').
Proof.
  rewrite bind_run. destruct (m w) as [[a|e] w1]; [eauto | discriminate].
Qed.

Lemma bind_inr m f w e w' :
  (m ≫= f) w = (inr e, w') →
  m w = (inr e, w') ∨ ∃ a w1, m w = (inl a, w1) ∧ f a w1 = (inr e, w').
Proof.
  rewrite bind_run. destruct (m w) as [[a|e1] w1]; [eauto | intros [= -> ->]; eauto].
Qed.

Lemma bind_step m f w a w1 : m w = (inl a, w1) → (m ≫= f) w = f a w1.
Proof. intros H. by rewrite bind_run, H. Qed.

Lemma bind_throw m f w e w1 : m w = (inr e, w1) → (m ≫= f) w = (inr e, w1).
Proof. intros H. by rewrite bind_run, H. Qed.

Lemma run_inl m w a : (m w).1 = inl a → m w = (inl a, (m w).2).
Proof. destruct (m w) as [r w1]. cbn. by intros ->. Qed.
End monad_facts.

(** A round trip never touches the data, whether it succeeds or throws. *)
Lemma round_trip_sys w r w' : round_trip w = (r, w') → sys w' = sys w.
Proof.
  unfold round_trip. destruct (fault w) as [|[[|k] m] rest]; intros [= <- <-]; reflexivity.
Qed.

Lemma round_trip_no_fault w : fault w = [] → round_trip w = (inl (), w).
Proof. unfold round_trip. by intros ->. Qed.

Lemma conn_read_sys {A} (q : database → A) w r w' :
  conn_read q w = (r, w') → sys w' = sys w.
Proof.
  unfold conn_read. rewrite bind_run.
  destruct (round_trip w) as [[[]|e] w1] eqn:E; intros [= <- <-];
    by apply round_trip_sys in E.
Qed.

Lemma conn_read_inl {A} (q : database → A) w a w' :
  conn_read q w = (inl a, w') → a = q (current w) ∧ sys w' = sys w.
Proof.
  intros H. pose proof (conn_read_sys _ _ _ _ H) as Hs. split; [|done].
  unfold conn_read in H. apply bind_inl in H as ([] & w1 & E & H).
  apply round_trip_sys in E. unfold gets in H. injection H as <- <-. by rewrite E.
Qed.

Lemma conn_write_inl {A} (q : database → A * database) w a w' :
  conn_write q w = (inl a, w') →
  a = (q (current w)).1 ∧ sys w' = put_current (q (current w)).2 w.
Proof.
  unfold conn_write. intros H. apply bind_inl in H as ([] & w1 & E & H).
  apply round_trip_sys in E. cbv [mbind M_bind gets modify mret M_ret] in H.
  injection H as <- <-. simpl. by rewrite E.
Qed.

Lemma conn_write_inr {A} (q : database → A * database) w e w' :
  conn_write q w = (inr e, w') → sys w' = sys w.
Proof.
  unfold conn_write. intros H. apply bind_inr in H as [E | ([] & w1 & E & H)].
  - by apply round_trip_sys in E.
  - cbv [mbind M_bind gets modify mret M_ret] in H. discriminate.
Qed.

Lemma pool_read_sys {A} (q : database → A) w r w' :
  pool_read q w = (r, w') → sys w' = sys w.
Proof.
  unfold pool_read. rewrite bind_run.
  destruct (round_trip w) as [[[]|e] w1] eqn:E; intros [= <- <-];
    by apply round_trip_sys in E.
Qed.

Lemma pool_read_inl {A} (q : database → A) w a w' :
  pool_read q w = (inl a, w') → a = q (committed w) ∧ sys w' = sys w.
Proof.
  intros H. pose proof (pool_read_sys _ _ _ _ H) as Hs. split; [|done].
  unfold pool_read in H. apply bind_inl in H as ([] & w1 & E & H).
  apply round_trip_sys in E. unfold gets in H. injection H as <- <-. by rewrite E.
Qed.

Lemma pool_write_inl {A} (q : database → A * database) w a w' :
  pool_write q w = (inl a, w') →
  a = (q (committed w)).1 ∧ sys w' = set_committed (q (committed w)).2 w.
Proof.
  unfold pool_write. intros H. apply bind_inl in H as ([] & w1 & E & H).
  apply round_trip_sys in E. cbv [mbind M_bind gets modify mret M_ret] in H.
  injection H as <- <-. simpl. by rewrite E.
Qed.

Lemma pool_write_inr {A} (q : database → A * database) w e w' :
  pool_write q w = (inr e, w') → sys w' = sys w.
Proof.
  unfold pool_write. intros H. apply bind_inr in H as [E | ([] & w1 & E & H)].
  - by apply round_trip_sys in E.
  - cbv [mbind M_bind gets modify mret M_ret] in H. discriminate.
Qed.

Lemma random_below_run n w :
  random_below n w =
  (inl (random w (draws w) mod n),
   {| sys := set_draws (S (draws w)) w; fault := fault w |}).
Proof. reflexivity. Qed.

Lemma getUserByClerkId_sys clerkId w r w' :
  getUserByClerkId clerkId w = (r, w') → sys w' = sys w.
Proof.
  unfold getUserByClerkId. rewrite bind_run.
  destruct (pool_read _ w) as [[us|e] w1] eqn:E; intros [= <- <-];
    by apply pool_read_sys in E.
Qed.

Lemma getUserByClerkId_inl clerkId w u w' :
  getUserByClerkId clerkId w = (inl u, w') →
  u = head (select_users_by_clerk_id clerkId (committed w)) ∧ sys w' = sys w.
Proof.
  intros H. pose proof (getUserByClerkId_sys _ _ _ _ H). split; [|done].
  unfold getUserByClerkId in H. apply bind_inl in H as (us & w1 & E & H).
  apply pool_read_inl in E as [-> _]. by injection H as <- _.
Qed.

(** ** Relations that every statement of the transaction respects *)

(** [respects R m]: whatever [m] does, returning or throwing, the system it
    leaves is related by [R] to the one it found. *)
Definition respects {A} (R : relation system) (m : M A) : Prop :=
  ∀ (w : world) r (w' : world), m w = (r, w') → R w w'.

Section respects.
Context (R : relation system) `{!PreOrder R}.
Hypothesis R_put_current : ∀ d s, R s (put_current d s).
Hypothesis R_set_draws : ∀ k s, R s (set_draws k s).
Hypothesis R_set_console : ∀ c s, R s (set_console c s).

Lemma respects_ret {A} (a : A) : respects R (mret a).
Proof. intros w r w' [= <- <-]. reflexivity. Qed.

Lemma respects_throw {A} (e : exn) : respects R (throw (A := A) e).
Proof. intros w r w' [= <- <-]. reflexivity. Qed.

Lemma respects_bind {A B} (m : M A) (f : A → M B) :
  respects R m → (∀ a, respects R (f a)) → respects R (m ≫= f).
Proof.
  intros Hm Hf w r w'. rewrite bind_run.
  destruct (m w) as [[a|e] w1] eqn:E.
  - intros H. etrans; [exact (Hm _ _ _ E) | exact (Hf a _ _ _ H)].
  - intros [= <- <-]. exact (Hm _ _ _ E).
Qed.

Lemma respects_same_sys {A} (m : M A) :
  (∀ (w : world) r (w' : world), m w = (r, w') → sys w' = sys w) → respects R m.
Proof. intros H w r w' E. apply H in E. rewrite E. reflexivity. Qed.

Lemma respects_round_trip : respects R round_trip.
Proof. apply respects_same_sys, round_trip_sys. Qed.

Lemma respects_conn_read {A} (q : database → A) : respects R (conn_read q).
Proof. apply respects_same_sys, conn_read_sys. Qed.

Lemma respects_conn_write {A} (q : database → A * database) : respects R (conn_write q).
Proof.
  intros w [a|e] w' E.
  - apply conn_write_inl in E as [_ ->]. apply R_put_current.
  - apply conn_write_inr in E. rewrite E. reflexivity.
Qed.

Lemma respects_random_below n : respects R (random_below n).
Proof. intros w r w'. rewrite random_below_run. intros [= <- <-]. apply R_set_draws. Qed.

Lemma respects_date_now : respects R date_now.
Proof. intros w r w' [= <- <-]. reflexivity. Qed.

Lemma respects_console_warn ref : respects R (console_warn ref).
Proof. intros w r w' [= <- <-]. apply R_set_console. Qed.

Lemma respects_for_each {A} (body : A → M ()) l :
  (∀ x, respects R (body x)) → respects R (for_each body l).
Proof.
  intros Hb. induction l as [|x l IH]; simpl.
  - apply respects_ret.
  - apply respects_bind; [apply Hb | intros _; apply IH].
Qed.

Ltac respects_step :=
  first
    [ apply respects_ret | apply respects_throw | apply respects_conn_read
    | apply respects_conn_write | apply respects_random_below
    | apply respects_date_now | apply respects_console_warn
    | apply respects_for_each; intros ?
    | apply respects_bind; [| intros ?]
    | match goal with
      | |- respects _ (match ?x with _ => _ end) => destruct x
      | |- respects _ (if ?b then _ else _) => destruct b
      | |- respects _ (let _ := _ in _) => cbv zeta
      end ].

Lemma respects_resolve_address role uid a : respects R (resolve_address role uid a).
Proof. unfold resolve_address. repeat respects_step. Qed.

Lemma respects_generate : respects R generateProfessionalTrackingNumber.
Proof. unfold generateProfessionalTrackingNumber. repeat respects_step. Qed.

Lemma respects_unique_tracking_loop k : respects R (unique_tracking_loop k).
Proof.
  induction k as [|k IH]; simpl; [apply respects_ret|].
  apply respects_bind; [apply respects_generate | intros t].
  apply respects_bind; [apply respects_conn_read | intros [|o os]];
    [apply respects_ret | apply IH].
Qed.

Lemma respects_allocate_tracking_number : respects R allocate_tracking_number.
Proof.
  unfold allocate_tracking_number.
  apply respects_bind; [apply respects_unique_tracking_loop | intros [t|]].
  - apply respects_ret.
  - repeat respects_step.
Qed.

Lemma respects_place_item orderId it : respects R (place_item orderId it).
Proof. unfold place_item. repeat respects_step. Qed.

Lemma respects_create_order user its sa ba total :
  respects R (create_order user its sa ba total).
Proof.
  unfold create_order.
  repeat first
    [ apply respects_resolve_address
    | apply respects_allocate_tracking_number
    | apply respects_place_item
    | respects_step ].
Qed.
End respects.

(** Inside an open transaction the committed data stay as they are and the
    transaction stays open. *)
Definition tx_local : relation system := λ s s',
  is_Some (txn s) → committed s' = committed s ∧ is_Some (txn s').

Global Instance tx_local_preorder : PreOrder tx_local.
Proof.
  split.
  - by intros s Hs.
  - intros s1 s2 s3 H12 H23 Hs. destruct (H12 Hs) as [E1 Hs2].
    destruct (H23 Hs2) as [E2 Hs3]. split; [congruence | done].
Qed.

Lemma tx_local_create_order user its sa ba total :
  respects tx_local (create_order user its sa ba total).
Proof.
  apply respects_create_order; [apply _ | ..].
  - intros d s Hs. unfold put_current. destruct (txn s); [done | by destruct Hs].
  - by intros k s Hs.
  - by intros c s Hs.
Qed.

(** The clock and the random sequence are inputs: no statement changes them. *)
Definition same_inputs : relation system := λ s s',
  clock s' = clock s ∧ random s' = random s.

Global Instance same_inputs_preorder : PreOrder same_inputs.
Proof.
  split.
  - by intros s.
  - intros s1 s2 s3 [] []. split; congruence.
Qed.

Lemma same_inputs_put_current d s : same_inputs s (put_current d s).
Proof. unfold put_current. by destruct (txn s). Qed.

(** * Validation of an order-creation request *)

(** The requests the validation turns away: [items] is falsy, not an array or
    an empty array, or one of the two addresses is absent. *)
Definition invalid_request (req : request) : Prop :=
  items req = ItemsFalsy ∨ items req = ItemsNotArray ∨ items req = ItemsArray []
  ∨ shipping_address req = None ∨ billing_address req = None.

(** C2: an order-creation request whose item list is empty or not a list, or
    whose shipping or billing address is absent, is answered with HTTP 400
    and the world is left exactly as it was: no round trip to the store has
    been made, no transaction has been opened, and no table has changed. *)
Theorem invalid_request_rejected_untouched (req : request) (w : world) :
  invalid_request req →
  ∃ res, post_orders req w = (inl res, w)
         ∧ status_code res = 400 ∧ success res = false ∧ data res = None.
Proof.
  unfold invalid_request, post_orders.
  intros H.
  destruct (items req) as [| |[|it its]].
  1-3: eexists; split; [reflexivity | done].
  destruct (shipping_address req) as [sa|], (billing_address req) as [ba|];
    try (eexists; split; [reflexivity | done]).
  destruct H as [H|[H|[H|[H|H]]]]; discriminate.
Qed.

Definition sample_address : address :=
  {| street := val "1 Main St"; city := val "Springfield"; state := val "IL";
     country := val "US"; postal_code := val "62701" |}.

Definition sample_database : database :=
  {| users := [ {| user_id := 1; clerk_id := "clerk_u1" |} ];
     addresses := [];
     orders := [];
     order_items := [];
     product_variants := {[ 5 := 10 ]};
     next_address_id := 1;
     next_order_id := 1;
     next_order_item_id := 1 |}.

Definition sample_world : world :=
  {| sys := {| committed := sample_database; txn := None; random := λ _, 12345;
               draws := 0%nat; clock := 1723456789012; console := [] |};
     fault := [] |}.

Definition empty_cart_request : request :=
  {| clerk_user_id := "clerk_u1"; items := ItemsArray [];
     shipping_address := Some sample_address; billing_address := Some sample_address;
     total := val 0 |}.

Lemma invalid_request_rejected_untouched_witness :
  ∃ res, post_orders empty_cart_request sample_world = (inl res, sample_world)
         ∧ status_code res = 400 ∧ success res = false ∧ data res = None.
Proof.
  apply (invalid_request_rejected_untouched empty_cart_request sample_world).
  right; right; left. reflexivity.
Defined.

(** * Atomicity of order creation *)

Lemma beginTransaction_inl (w : world) u (w' : world) :
  beginTransaction w = (inl u, w') → sys w' = set_txn (Some (current w)) w.
Proof.
  unfold beginTransaction. intros H. apply bind_inl in H as ([] & w1 & E & H).
  apply round_trip_sys in E. injection H as _ <-. simpl. by rewrite E.
Qed.

Lemma commit_inl (w : world) u (w' : world) :
  commit w = (inl u, w') → sys w' = set_txn None (set_committed (current w) w).
Proof.
  unfold commit. intros H. apply bind_inl in H as ([] & w1 & E & H).
  apply round_trip_sys in E. injection H as _ <-. simpl. by rewrite E.
Qed.

Lemma commit_inr (w : world) e (w' : world) : commit w = (inr e, w') → sys w' = sys w.
Proof.
  unfold commit. intros H. apply bind_inr in H as [E | ([] & w1 & E & H)].
  - by apply round_trip_sys in E.
  - discriminate.
Qed.

Lemma read_order_sys orderId (w : world) r (w' : world) :
  read_order orderId w = (r, w') → sys w' = sys w.
Proof.
  unfold read_order. rewrite bind_run.
  destruct (conn_read (select_order orderId) w) as [[os|e] w1] eqn:E1;
    [|intros [= <- <-]; by apply conn_read_sys in E1].
  rewrite bind_run.
  destruct (conn_read (select_order_items orderId) w1) as [[ris|e] w2] eqn:E2;
    apply conn_read_sys in E1, E2.
  - destruct os as [|[[o sa] ba] os]; intros [= <- <-]; congruence.
  - intros [= <- <-]. congruence.
Qed.

Lemma rollback_inl (w : world) u (w' : world) :
  rollback w = (inl u, w') → sys w' = set_txn None w.
Proof.
  unfold rollback. intros H. apply bind_inl in H as ([] & w1 & E & H).
  apply round_trip_sys in E. injection H as _ <-. simpl. by rewrite E.
Qed.

Lemma rollback_inr (w : world) e (w' : world) : rollback w = (inr e, w') → sys w' = sys w.
Proof.
  unfold rollback. intros H. apply bind_inr in H as [E | ([] & w1 & E & H)].
  - by apply round_trip_sys in E.
  - discriminate.
Qed.

Lemma rollback_ok (w : world) :
  fault w = [] → rollback w = (inl (), {| sys := set_txn None w; fault := [] |}).
Proof.
  intros Hf. unfold rollback.
  rewrite (bind_step _ _ _ _ _ (round_trip_no_fault _ Hf)).
  cbv [modify]. by rewrite Hf.
Qed.

(** The outer [catch] answers 500 with the error it caught, after the
    rollback if a connection was taken; it sends nothing when that rollback
    throws. *)
Lemma failed_to_create_inl connection err (w : world) res (w' : world) :
  failed_to_create connection err w = (inl res, w') →
  res = server_error "Failed to create order" err
  ∧ sys w' = (if connection then set_txn None w else sys w).
Proof.
  unfold failed_to_create. intros H. apply bind_inl in H as ([] & w1 & E & H).
  injection H as <- <-. split; [done|].
  destruct connection; [by apply rollback_inl in E | by injection E as <-].
Qed.

Lemma failed_to_create_inr connection err (w : world) e (w' : world) :
  failed_to_create connection err w = (inr e, w') →
  connection = true ∧ rollback w = (inr e, w') ∧ sys w' = sys w.
Proof.
  unfold failed_to_create. intros H. apply bind_inr in H as [E | ([] & w1 & E & H)];
    [|discriminate].
  destruct connection; [|discriminate]. split; [done|]. split; [done|].
  by apply rollback_inr in E.
Qed.

Lemma failed_to_create_ok connection err (w : world) :
  fault w = [] →
  failed_to_create connection err w
  = (inl (server_error "Failed to create order" err),
     {| sys := if connection then set_txn None w else sys w; fault := [] |}).
Proof.
  intros Hf. unfold failed_to_create. destruct connection.
  - by rewrite (bind_step _ _ _ _ _ (rollback_ok _ Hf)).
  - cbn. destruct w. cbn in *. by subst.
Qed.

Lemma failed_to_create_committed connection err (w : world) out (w' : world) :
  failed_to_create connection err w = (out, w') → committed w' = committed w.
Proof.
  destruct out as [res|e]; intros H.
  - apply failed_to_create_inl in H as [_ ->]. by destruct connection.
  - by apply failed_to_create_inr in H as (_ & _ & ->).
Qed.

(** A valid request of a known user, once the transaction has begun in
    [w0]: what is left of [post_orders]. *)
Lemma post_orders_begun (req : request) its sa ba (w wa wb w0 : world) user :
  items req = ItemsArray its → its ≠ [] →
  shipping_address req = Some sa → billing_address req = Some ba →
  getUserByClerkId (clerk_user_id req) w = (inl (Some user), wa) →
  getConnection wa = (inl (), wb) →
  beginTransaction wb = (inl (), w0) →
  post_orders req w
  = match in_transaction user its sa ba (total req) w0 with
    | (inl res, w3) => (inl res, w3)
    | (inr err, w3) => failed_to_create true err w3
    end.
Proof.
  intros Hits Hne Hsa Hba Hu Hc Hb. unfold post_orders.
  rewrite Hits, Hsa, Hba. destruct its as [|it its]; [done|].
  by rewrite Hu, Hc, (bind_step _ _ _ _ _ Hb).
Qed.

(** Every way [post_orders] can run, step by step. *)
Lemma post_orders_run (req : request) (w : world) out (w' : world) :
  post_orders req w = (out, w') →
  (invalid_request req ∧ w' = w ∧ ∃ res, out = inl res ∧ status_code res = 400)
  ∨ ∃ its sa ba,
      items req = ItemsArray its ∧ its ≠ []
      ∧ shipping_address req = Some sa ∧ billing_address req = Some ba
      ∧ ( (∃ e, getUserByClerkId (clerk_user_id req) w = (inr e, w')
                ∧ out = inl (server_error "Failed to create order" e))
        ∨ (getUserByClerkId (clerk_user_id req) w = (inl None, w')
           ∧ out = inl (not_found "User not found"))
        ∨ ∃ user (wa : world),
            getUserByClerkId (clerk_user_id req) w = (inl (Some user), wa)
            ∧ ( (∃ e, getConnection wa = (inr e, w')
                      ∧ out = inl (server_error "Failed to create order" e))
              ∨ ∃ wb : world,
                  getConnection wa = (inl (), wb)
                  ∧ ( (∃ e (w3 : world),
                         beginTransaction wb = (inr e, w3)
                         ∧ failed_to_create true e w3 = (out, w'))
                    ∨ ∃ w0 : world,
                        beginTransaction wb = (inl (), w0)
                        ∧ ( (∃ res, in_transaction user its sa ba (total req) w0
                                    = (inl res, w')
                                    ∧ out = inl res)
                          ∨ ∃ e (w3 : world),
                              in_transaction user its sa ba (total req) w0 = (inr e, w3)
                              ∧ failed_to_create true e w3 = (out, w') ) ) ) ).
Proof.
  unfold post_orders. intros H.
  destruct (items req) as [| |[|it its]] eqn:Eits;
    try (injection H as <- <-; left; unfold invalid_request;
         split; [tauto | split; [done | eexists; split; [reflexivity | done]]]).
  destruct (shipping_address req) as [sa|] eqn:Esa,
           (billing_address req) as [ba|] eqn:Eba;
    try (injection H as <- <-; left; unfold invalid_request;
         split; [tauto | split; [done | eexists; split; [reflexivity | done]]]).
  right. exists (it :: its), sa, ba. split_and!; [done..|].
  destruct (getUserByClerkId (clerk_user_id req) w) as [[[user|]|e] wa] eqn:Eu.
  - right. right. exists user, wa. split; [done|].
    destruct (getConnection wa) as [[[]|e] wb] eqn:Ec.
    + right. exists wb. split; [done|]. rewrite bind_run in H.
      destruct (beginTransaction wb) as [[[]|e] w0] eqn:Eb.
      * right. exists w0. split; [done|].
        destruct (in_transaction user (it :: its) sa ba (total req) w0)
          as [[res|e] w3] eqn:Etx.
        -- left. injection H as <- <-. by exists res.
        -- right. by exists e, w3.
      * left. by exists e, w0.
    + left. exists e. unfold failed_to_create in H. by injection H as <- <-.
  - right. left. by injection H as <- <-.
  - left. exists e. unfold failed_to_create in H. by injection H as <- <-.
Qed.

Lemma begun_sys clerkId (w wa wb w0 : world) user :
  txn w = None →
  getUserByClerkId clerkId w = (inl (Some user), wa) →
  getConnection wa = (inl (), wb) →
  beginTransaction wb = (inl (), w0) →
  sys w0 = set_txn (Some (committed w)) w.
Proof.
  intros Ht Hu Hc Hb.
  apply getUserByClerkId_sys in Hu. apply round_trip_sys in Hc.
  apply beginTransaction_inl in Hb. rewrite Hb, Hc, Hu.
  unfold current. by rewrite Ht.
Qed.

(** What [in_transaction] leaves behind, by the outcome of steps 1 to 5.
    The rollback of the inner [catch] may throw in its turn: the error that
    leaves is then its own and the transaction stays open. *)
Lemma in_transaction_outcome user its sa ba total (w0 w1 : world) r :
  is_Some (txn w0) →
  create_order user its sa ba total w0 = (r, w1) →
  ∀ out (w2 : world), in_transaction user its sa ba total w0 = (out, w2) →
    committed w1 = committed w0
    ∧ (∀ e, r = inr e →
         committed w2 = committed w0
         ∧ ((out = inr e ∧ txn w2 = None) ∨ ∃ e', rollback w1 = (inr e', w2) ∧ out = inr e')
         ∧ (fault w1 = [] → out = inr e ∧ txn w2 = None ∧ fault w2 = []))
    ∧ (∀ orderId, r = inl orderId →
         (∀ res, out = inl res →
            committed w2 = current w1 ∧ txn w2 = None
            ∧ ∃ order, res = created order ∧ ∃ w1', read_order orderId w1' = (inl order, w2)
                ∧ sys w1' = set_txn None (set_committed (current w1) w1))
         ∧ (∀ e, out = inr e →
              committed w2 = committed w0
              ∨ (committed w2 = current w1 ∧ txn w2 = None))).
Proof.
  intros Ht Hsteps out w2.
  destruct (tx_local_create_order user its sa ba total _ _ _ Hsteps Ht) as [Hc Ht1].
  unfold in_transaction, try_catch. rewrite bind_run, Hsteps.
  destruct r as [orderId|e].
  - rewrite bind_run.
    destruct (commit w1) as [[[]|e] wc] eqn:Ecommit.
    + apply commit_inl in Ecommit. rewrite bind_run.
      destruct (read_order orderId wc) as [[order|e] wr] eqn:Eread;
        pose proof (read_order_sys _ _ _ _ Eread) as Hr.
      * intros [= <- <-]. split; [done|]. split; [discriminate|].
        intros ? [= <-]. split.
        -- intros res [= <-]. rewrite Hr, Ecommit. simpl. repeat split.
           exists order. split; [done|]. by exists wc.
        -- discriminate.
      * rewrite bind_run.
        destruct (rollback wr) as [[[]|e'] wk] eqn:Erb;
          [apply rollback_inl in Erb | apply rollback_inr in Erb];
          intros [= <- <-]; (split; [done|]); (split; [discriminate|]);
          intros ? [= <-]; (split; [discriminate|]);
          intros ? _; right; rewrite Erb, ?Hr, Ecommit; done.
    + apply commit_inr in Ecommit. rewrite bind_run.
      destruct (rollback wc) as [[[]|e'] wk] eqn:Erb;
        [apply rollback_inl in Erb | apply rollback_inr in Erb];
        intros [= <- <-]; (split; [done|]); (split; [discriminate|]);
        intros ? [= <-]; (split; [discriminate|]);
        intros ? _; left; rewrite Erb, ?Ecommit; cbn; congruence.
  - rewrite bind_run.
    destruct (rollback w1) as [[[]|e'] wk] eqn:Erb.
    + pose proof (rollback_inl _ _ _ Erb) as Hk.
      intros [= <- <-]. split; [done|]. split; [|discriminate].
      intros ? [= <-]. rewrite Hk. cbn. split; [done|]. split; [by left|].
      intros Hf. rewrite (rollback_ok _ Hf) in Erb. by injection Erb as <-.
    + pose proof (rollback_inr _ _ _ Erb) as Hk.
      intros [= <- <-]. split; [done|]. split; [|discriminate].
      intros ? [= <-]. rewrite Hk. split; [done|]. split; [right; by exists e'|].
      intros Hf. rewrite (rollback_ok _ Hf) in Erb. discriminate.
Qed.


Definition sample_item : item :=
  {| variant_id := val 5; product_id := undefined; quantity := 2;
     unit_price := val 1000; price := undefined |}.

Definition sample_request : request :=
  {| clerk_user_id := "clerk_u1"; items := ItemsArray [sample_item];
     shipping_address := Some sample_address; billing_address := Some sample_address;
     total := val 2000 |}.

(** What the handler returns for [sample_request] in the sample world. *)
Definition sample_order : order_view :=
  {| view_order := new_order_row 1 (val 2000) 1 1 "TRK112345" 1;
     view_shipping := Some (new_address_row Shipping 1 sample_address 1);
     view_billing := Some (new_address_row Shipping 1 sample_address 1);
     view_items := [new_order_item_row 1 sample_item 1] |}.

Lemma sample_request_created :
  (post_orders sample_request sample_world).1 = inl (created sample_order).
Proof. vm_compute. reflexivity. Qed.





(** The transaction ends at the commit.  A round trip that fails after it,
    during the re-read, is answered with 500 although the order is kept:
    here the thirteenth round trip, the first SELECT of the re-read. *)
Example reread_failure_after_commit :
  (post_orders sample_request
     {| sys := sample_world; fault := [(12%nat, "Connection lost")] |}).1
  = inl (server_error "Failed to create order" (Error "Connection lost"))
  ∧ length
      (orders
         (committed
            (post_orders sample_request
               {| sys := sample_world; fault := [(12%nat, "Connection lost")] |}).2))
    = 1%nat.
Proof. vm_compute. done. Qed.

(** * Address deduplication *)

Lemma current_put_current d s : current (put_current d s) = d.
Proof.
  unfold current, put_current. destruct (txn s) eqn:E; simpl; [done | by rewrite E].
Qed.

Lemma conn_write_current {A} (q : database → A * database) (w : world) a (w' : world) :
  conn_write q w = (inl a, w') →
  a = (q (current w)).1 ∧ current w' = (q (current w)).2.
Proof.
  intros H. apply conn_write_inl in H as [-> ->]. by rewrite current_put_current.
Qed.

(** A request field and a column hold the same, present, value. *)
Definition bound_equal {A} (field : js A) (col : option A) : Prop :=
  ∃ x, field = val x ∧ col = Some x.

(** The row is owned by [uid] and equals [a] on all five components. *)
Definition same_address (uid : Z) (a : address) (r : address_row) : Prop :=
  address_user_id r = uid
  ∧ bound_equal (street a) (address_street r)
  ∧ bound_equal (city a) (address_city r)
  ∧ bound_equal (state a) (address_state r)
  ∧ bound_equal (country a) (address_country r)
  ∧ bound_equal (postal_code a) (address_postal_code r).

(** All five components of the request address are present. *)
Definition complete_address (a : address) : Prop :=
  is_Some (to_sql (street a)) ∧ is_Some (to_sql (city a)) ∧ is_Some (to_sql (state a))
  ∧ is_Some (to_sql (country a)) ∧ is_Some (to_sql (postal_code a)).

(** [address_id] is the primary key and lies below the AUTO_INCREMENT value. *)
Definition address_keys_ok (d : database) : Prop :=
  NoDup (map address_id (addresses d))
  ∧ Forall (λ r, address_id r < next_address_id d) (addresses d).

Lemma sql_eq_text_true col (field : js string) :
  sql_eq_text col (to_sql field) = true ↔ bound_equal field col.
Proof.
  unfold bound_equal. destruct col as [c|], field as [| |x]; simpl; split;
    try discriminate; try (intros (? & ? & ?); discriminate).
  - intros H%String.eqb_eq. subst. eauto.
  - intros (y & [= ->] & [= ->]). apply String.eqb_refl.
Qed.

Lemma address_matches_true uid a r :
  address_matches uid a r = true ↔ same_address uid a r.
Proof.
  unfold address_matches, same_address.
  rewrite !andb_true_iff, !sql_eq_text_true, Z.eqb_eq. tauto.
Qed.

Lemma bound_equal_to_sql {A} (field : js A) col : bound_equal field col → col = to_sql field.
Proof. intros (x & -> & ->). done. Qed.

Lemma elem_of_select_addresses uid a d r :
  r ∈ select_addresses uid a d ↔ r ∈ addresses d ∧ same_address uid a r.
Proof.
  unfold select_addresses.
  rewrite !list_elem_of_In, filter_In, address_matches_true. done.
Qed.

Lemma new_address_row_matches role uid a id :
  complete_address a → address_matches uid a (new_address_row role uid a id) = true.
Proof.
  intros (Hs & Hc & Hst & Hco & Hp). apply address_matches_true.
  unfold same_address, bound_equal. simpl. split; [done|].
  destruct a as [[| |s] [| |c] [| |st] [| |co] [| |p]]; simpl in *;
    try (by destruct Hs); try (by destruct Hc); try (by destruct Hst);
    try (by destruct Hco); try (by destruct Hp).
  repeat split; eauto.
Qed.

Lemma resolve_address_inl role uid a (w : world) id (w' : world) :
  resolve_address role uid a w = (inl id, w') →
  match select_addresses uid a (current w) with
  | r :: _ => id = address_id r ∧ sys w' = sys w
  | [] => id = next_address_id (current w)
          ∧ sys w' = put_current (insert_address role uid a (current w)).2 w
  end.
Proof.
  unfold resolve_address. intros H.
  apply bind_inl in H as (existing & w1 & E & H).
  apply conn_read_inl in E as [-> Hs].
  destruct (select_addresses uid a (current w)) as [|r rest].
  - apply conn_write_inl in H as [-> ->]. by rewrite Hs.
  - injection H as <- <-. done.
Qed.

(** The row that carries the resolved id, and the key discipline kept. *)
Lemma resolve_address_row role uid a (w : world) id (w' : world) :
  resolve_address role uid a w = (inl id, w') →
  address_keys_ok (current w) →
  address_keys_ok (current w')
  ∧ ∃ r, r ∈ addresses (current w') ∧ address_id r = id
      ∧ address_street r = to_sql (street a) ∧ address_city r = to_sql (city a)
      ∧ address_state r = to_sql (state a) ∧ address_country r = to_sql (country a)
      ∧ address_postal_code r = to_sql (postal_code a).
Proof.
  intros H [Hnd Hlt]. apply resolve_address_inl in H.
  destruct (select_addresses uid a (current w)) as [|r rest] eqn:Esel.
  - destruct H as [-> Hs]. rewrite Hs, current_put_current. simpl. split.
    + unfold address_keys_ok. simpl. split.
      * rewrite map_app. simpl. apply NoDup_app. split; [done|]. split.
        -- intros x Hx ->%list_elem_of_singleton.
           apply list_elem_of_fmap in Hx as (r & E & Hr).
           rewrite Forall_forall in Hlt. apply Hlt in Hr. lia.
        -- apply NoDup_singleton.
      * apply Forall_app. split.
        -- eapply Forall_impl; [exact Hlt|]. simpl. intros; lia.
        -- apply Forall_singleton. simpl. lia.
    + eexists. split; [apply elem_of_app; right; apply list_elem_of_singleton; reflexivity|].
      done.
  - destruct H as [-> Hs]. rewrite Hs. split; [done|].
    assert (Hr : r ∈ select_addresses uid a (current w)) by (rewrite Esel; left).
    apply elem_of_select_addresses in Hr as (Hin & _ & H1 & H2 & H3 & H4 & H5).
    exists r. split_and!; auto using bound_equal_to_sql.
Qed.

Lemma NoDup_key_inj {A K} (key : A → K) (l : list A) x y :
  NoDup (map key l) → x ∈ l → y ∈ l → key x = key y → x = y.
Proof.
  induction l as [|z l IH]; simpl; [by intros _ ?%elem_of_nil|].
  intros [Hz Hnd]%NoDup_cons [->|Hx]%elem_of_cons [->|Hy]%elem_of_cons E; auto.
  - destruct Hz. rewrite E. apply list_elem_of_fmap. eauto.
  - destruct Hz. rewrite <- E. apply list_elem_of_fmap. eauto.
Qed.



(** The sample world once [beginTransaction] has run. *)
Definition begun_world : world :=
  {| sys := set_txn (Some sample_database) sample_world; fault := [] |}.


(** * Tracking numbers *)

(** ** Decimal strings *)























(** ** The retry loop *)

(** The [k]-th candidate the loop would draw from system [s], the candidate
    of the fallback branch, and whether an order carries a number. *)
Definition candidate (s : system) (k : nat) : string :=
  "TRK" +:+ toString (random s (k + draws s) mod 99900000 + 100000).

Definition fallback_candidate (s : system) : string :=
  "TRK" +:+ slice_last 8 (toString (clock s))
        +:+ padStart0 2 (toString (random s (maxAttempts + draws s) mod 100)).

Definition taken (d : database) (t : string) : Prop :=
  ∃ o, o ∈ orders d ∧ tracking_number o = t.

(** The check of the loop finds a row exactly when an order carries the
    number. *)
Lemma select_orders_by_tracking_taken t d :
  select_orders_by_tracking t d ≠ [] ↔ taken d t.
Proof.
  unfold taken, select_orders_by_tracking. split.
  - destruct (List.filter _ (orders d)) as [|o os] eqn:E; [done|]. intros _.
    assert (Hin : In o (List.filter (λ o, String.eqb (tracking_number o) t) (orders d)))
      by (rewrite E; by left).
    apply filter_In in Hin as [Hin Heq]. apply String.eqb_eq in Heq.
    exists o. split; [by apply list_elem_of_In | done].
  - intros (o & Ho & Ht) E.
    assert (Hin : In o (List.filter (λ o, String.eqb (tracking_number o) t) (orders d))).
    { apply filter_In. split; [by apply list_elem_of_In | by apply String.eqb_eq]. }
    rewrite E in Hin. destruct Hin.
Qed.

Lemma select_orders_by_tracking_free t d :
  select_orders_by_tracking t d = [] ↔ ¬ taken d t.
Proof.
  rewrite <- select_orders_by_tracking_taken.
  destruct (select_orders_by_tracking t d) as [|o os]; split.
  - intros _ H. by destruct H.
  - done.
  - discriminate.
  - intros H. destruct H. discriminate.
Qed.

Lemma set_draws_same (s : system) : set_draws (draws s) s = s.
Proof. by destruct s. Qed.

Lemma generate_run (w : world) :
  generateProfessionalTrackingNumber w
  = (inl (candidate w 0), {| sys := set_draws (S (draws w)) w; fault := fault w |}).
Proof. reflexivity. Qed.

Lemma candidate_shift (s : system) k :
  candidate (set_draws (S (draws s)) s) k = candidate s (S k).
Proof. unfold candidate. simpl. by rewrite Nat.add_succ_r. Qed.



Lemma unique_tracking_loop_inl n (w : world) found (w' : world) :
  unique_tracking_loop n w = (inl found, w') →
  match found with
  | Some t =>
      ∃ k, (k < n)%nat ∧ t = candidate w k ∧ ¬ taken (current w) t
           ∧ (∀ j, (j < k)%nat → taken (current w) (candidate w j))
           ∧ sys w' = set_draws (S k + draws w) w
  | None =>
      (∀ j, (j < n)%nat → taken (current w) (candidate w j))
      ∧ sys w' = set_draws (n + draws w) w
  end.
Proof.
  revert w. induction n as [|n IH]; intros w; cbn [unique_tracking_loop].
  - intros [= <- <-]. split; [lia|]. change (0 + draws w)%nat with (draws w).
    by rewrite set_draws_same.
  - rewrite bind_run, generate_run. intros H.
    apply bind_inl in H as (existing & w2 & E & H).
    apply conn_read_inl in E as [-> Hs]. cbn [sys] in Hs, H.
    change (current (set_draws (S (draws w)) w)) with (current w) in H.
    destruct (select_orders_by_tracking (candidate w 0) (current w)) as [|o os] eqn:Esel.
    + injection H as <- <-. exists 0%nat.
      split; [lia|]. split; [done|]. split; [by apply select_orders_by_tracking_free|].
      split; [lia | done].
    + apply IH in H. rewrite Hs in H. cbn [draws set_draws] in H.
      change (current (set_draws (S (draws w)) w)) with (current w) in H.
      assert (Htaken : ∀ j m, (j < S m)%nat →
                (∀ i, (i < m)%nat → taken (current w) (candidate w (S i))) →
                taken (current w) (candidate w j)).
      { intros [|j] m Hj Hrest; [|apply Hrest; lia].
        apply select_orders_by_tracking_taken. by rewrite Esel. }
      destruct found as [t|].
      * destruct H as (k & Hk & -> & Hfree & Hprev & ->).
        rewrite candidate_shift in *. exists (S k).
        split_and!; [lia | done | done | | ].
        -- intros j Hj. apply (Htaken j k Hj). intros i Hi.
           rewrite <- candidate_shift. by apply Hprev.
        -- unfold set_draws. simpl. by rewrite Nat.add_succ_r.
      * destruct H as [Hprev ->]. split.
        -- intros j Hj. apply (Htaken j n Hj). intros i Hi.
           rewrite <- candidate_shift. by apply Hprev.
        -- unfold set_draws. simpl. by rewrite Nat.add_succ_r.
Qed.

(** What a successful allocation returns: the first candidate no order
    carries, after at most [maxAttempts] draws, or else the fallback. *)
Lemma allocate_tracking_number_inl (w : world) t (w' : world) :
  allocate_tracking_number w = (inl t, w') →
  ¬ taken (current w) t
  ∧ ((∃ k, (k < maxAttempts)%nat ∧ t = candidate w k
           ∧ (∀ j, (j < k)%nat → taken (current w) (candidate w j))
           ∧ sys w' = set_draws (S k + draws w) w)
     ∨ ((∀ j, (j < maxAttempts)%nat → taken (current w) (candidate w j))
        ∧ t = fallback_candidate w
        ∧ sys w' = set_draws (S maxAttempts + draws w) w)).
Proof.
  unfold allocate_tracking_number. intros H.
  apply bind_inl in H as (found & w1 & Eloop & H).
  apply unique_tracking_loop_inl in Eloop. destruct found as [t1|].
  - injection H as <- <-. destruct Eloop as (k & Hk & -> & Hfree & Hprev & Hs).
    split; [done|]. left. exists k. done.
  - destruct Eloop as [Hall Hs].
    rewrite bind_run in H. unfold date_now, gets in H.
    rewrite bind_run, random_below_run in H.
    apply bind_inl in H as (finalCheck & w2 & E & H).
    apply conn_read_inl in E as [-> Hs2]. cbn [sys] in Hs2, H.
    rewrite Hs in H. cbn [draws set_draws random clock] in H.
    change (current (set_draws _ (set_draws _ w))) with (current w) in H.
    fold (fallback_candidate w) in H.
    destruct (select_orders_by_tracking (fallback_candidate w) (current w)) eqn:Esel;
      [|discriminate].
    injection H as <- <-. split; [by apply select_orders_by_tracking_free|].
    right. split_and!; [done..|]. rewrite Hs2, Hs. reflexivity.
Qed.

(** * Successful order creation, step by step *)

(** A 201 response comes from one path only: valid request, user resolved,
    steps 1 to 5 completed, commit and re-read succeeded. *)
Lemma post_orders_created (req : request) (w : world) res (w' : world) :
  txn w = None →
  post_orders req w = (inl res, w') →
  status_code res = 201 →
  ∃ its sa ba user (w0 w1 wc : world) orderId order,
    items req = ItemsArray its ∧ its ≠ []
    ∧ shipping_address req = Some sa ∧ billing_address req = Some ba
    ∧ head (select_users_by_clerk_id (clerk_user_id req) (committed w)) = Some user
    ∧ sys w0 = set_txn (Some (committed w)) w
    ∧ create_order user its sa ba (total req) w0 = (inl orderId, w1)
    ∧ sys wc = set_txn None (set_committed (current w1) w1)
    ∧ read_order orderId wc = (inl order, w')
    ∧ res = created order.
Proof.
  intros Ht Hpost H201.
  destruct (post_orders_run _ _ _ _ Hpost)
    as [(_ & _ & res0 & [= <-] & H400)
       |(its & sa & ba & Hits & Hne & Hsa & Hba
         & [(e & _ & [= ->])|[(_ & [= ->])|(user & wa & Eu & Hrest)]])];
    try (cbn in H201; congruence).
  destruct Hrest as [(e & _ & [= ->])|(wb & Ec & Hrest)]; [discriminate|].
  destruct Hrest as [(e & w3 & _ & Hfail)|(w0 & Eb & Hrest)].
  { apply failed_to_create_inl in Hfail as [-> _]. discriminate. }
  destruct Hrest as [(res0 & Etx & [= <-])|(e & w3 & _ & Hfail)];
    [|apply failed_to_create_inl in Hfail as [-> _]; discriminate].
  pose proof Eu as Hwa. apply getUserByClerkId_inl in Hwa as [Huser Hwa].
  pose proof (begun_sys _ _ _ _ _ _ Ht Eu Ec Eb) as H0.
  destruct (create_order user its sa ba (total req) w0) as [r w1] eqn:Esteps.
  assert (Ht0 : is_Some (txn w0)) by (rewrite H0; simpl; eauto).
  destruct (in_transaction_outcome _ _ _ _ _ _ _ _ Ht0 Esteps _ _ Etx)
    as (_ & Hfail & Hdone).
  destruct r as [orderId|e].
  2: { destruct (Hfail e eq_refl) as (_ & [[? _]|(? & _ & ?)] & _); discriminate. }
  destruct (Hdone orderId eq_refl) as [Hres _].
  destruct (Hres _ eq_refl) as (_ & _ & order & -> & wc & Eread & Hwc).
  exists its, sa, ba, user, w0, w1, wc, orderId, order.
  split_and!; done.
Qed.

(** Steps 1 to 5, one by one. *)
Lemma create_order_inl user its sa ba total (w0 : world) orderId (w1 : world) :
  create_order user its sa ba total w0 = (inl orderId, w1) →
  ∃ sid bid t (wA wB wT wO : world),
    resolve_address Shipping (user_id user) sa w0 = (inl sid, wA)
    ∧ resolve_address Billing (user_id user) ba wA = (inl bid, wB)
    ∧ allocate_tracking_number wB = (inl t, wT)
    ∧ conn_write (insert_order (user_id user) total sid bid t) wT = (inl orderId, wO)
    ∧ for_each (place_item orderId) its wO = (inl (), w1).
Proof.
  unfold create_order. intros H.
  apply bind_inl in H as (sid & wA & E1 & H).
  apply bind_inl in H as (bid & wB & E2 & H).
  apply bind_inl in H as (t & wT & E3 & H).
  apply bind_inl in H as (oid & wO & E4 & H).
  apply bind_inl in H as ([] & w1' & E5 & H).
  injection H as <- <-. eauto 12.
Qed.

(** ** The effect of the item loop on the working copy *)

Definition item_ref (it : item) : js Z := js_or (variant_id it) (product_id it).

(** One pass of the loop body, as a function on the data. *)
Definition place_item_db (orderId : Z) (it : item) (d : database) : database :=
  let d1 := (insert_order_item orderId it d).2 in
  if truthy (item_ref it) then
    match select_variant (to_sql (item_ref it)) d1 with
    | _ :: _ => (update_stock (quantity it) (to_sql (item_ref it)) d1).2
    | [] => d1
    end
  else d1.

(** The warning one pass prints. *)
Definition place_item_warning (it : item) (d : database) : list (js Z) :=
  if truthy (item_ref it) then
    match select_variant (to_sql (item_ref it)) d with
    | _ :: _ => []
    | [] => [item_ref it]
    end
  else [].
Lemma console_put_current d s : console (put_current d s) = console s.
Proof. unfold put_current. by destruct (txn s). Qed.

Lemma draws_put_current d s : draws (put_current d s) = draws s.
Proof. unfold put_current. by destruct (txn s). Qed.

Lemma place_item_inl orderId it (w : world) u (w' : world) :
  place_item orderId it w = (inl u, w') →
  current w' = place_item_db orderId it (current w)
  ∧ console w' = console w ++ place_item_warning it (current w)
  ∧ same_inputs w w' ∧ draws w' = draws w.
Proof.
  unfold place_item, place_item_db, place_item_warning. fold (item_ref it).
  intros H. apply bind_inl in H as ([] & w1 & E & H).
  apply conn_write_inl in E as [_ Hs1].
  assert (Hc1 : current w1 = (insert_order_item orderId it (current w)).2)
    by (by rewrite Hs1, current_put_current).
  assert (Hk1 : console w1 = console w) by (by rewrite Hs1, console_put_current).
  assert (Hi1 : same_inputs w w1) by (rewrite Hs1; apply same_inputs_put_current).
  assert (Hd1 : draws w1 = draws w) by (by rewrite Hs1, draws_put_current).
  cbv zeta in H. cbv zeta.
  change (select_variant (to_sql (item_ref it)) (insert_order_item orderId it (current w)).2)
      with (select_variant (to_sql (item_ref it)) (current w)).
  destruct (truthy (item_ref it)).
  - apply bind_inl in H as (variantCheck & w2 & E & H).
    apply conn_read_inl in E as [-> Hs2]. rewrite Hc1 in H.
    change (select_variant (to_sql (item_ref it)) (insert_order_item orderId it (current w)).2)
      with (select_variant (to_sql (item_ref it)) (current w)) in H.
    destruct (select_variant (to_sql (item_ref it)) (current w)) as [|v vs].
    + injection H as _ <-. cbn [sys]. rewrite Hs2.
      change (current (set_console _ w1)) with (current w1). cbn [console set_console draws].
      split_and!; [done | by rewrite Hk1 | exact Hi1 | done].
    + apply conn_write_inl in H as [_ Hs3].
      rewrite Hs3, current_put_current, console_put_current, draws_put_current, Hs2, Hc1.
      rewrite app_nil_r. split_and!; [done | done | | done].
      etrans; [exact Hi1 | apply same_inputs_put_current].
  - injection H as _ <-. rewrite app_nil_r. split_and!; assumption.
Qed.

Lemma for_each_place_item_inl orderId its (w : world) u (w' : world) :
  for_each (place_item orderId) its w = (inl u, w') →
  current w' = foldl (λ d it, place_item_db orderId it d) (current w) its
  ∧ same_inputs w w' ∧ draws w' = draws w.
Proof.
  revert w. induction its as [|it its IH]; intros w; cbn [for_each foldl].
  - intros [= _ <-]. done.
  - intros H. apply bind_inl in H as ([] & w1 & E & H).
    apply place_item_inl in E as (Hc & _ & Hi & Hd). apply IH in H as (-> & Hi' & ->).
    rewrite Hc. split_and!; [done | by etrans | done].
Qed.

(** ** What the loop body does to each table *)

Lemma place_item_db_frame orderId it d :
  users (place_item_db orderId it d) = users d
  ∧ addresses (place_item_db orderId it d) = addresses d
  ∧ orders (place_item_db orderId it d) = orders d
  ∧ next_address_id (place_item_db orderId it d) = next_address_id d
  ∧ next_order_id (place_item_db orderId it d) = next_order_id d
  ∧ order_items (place_item_db orderId it d)
    = order_items d ++ [new_order_item_row orderId it (next_order_item_id d)]
  ∧ next_order_item_id (place_item_db orderId it d) = next_order_item_id d + 1.
Proof.
  unfold place_item_db. cbv zeta.
  destruct (truthy (item_ref it)); [|done].
  by destruct (select_variant _ _).
Qed.

(** The stock of a variant after one pass: the quantity is taken off when the
    item refers to that variant; there is no floor. *)
Definition takes_from (v : Z) (it : item) : bool :=
  truthy (item_ref it) && bool_decide (to_sql (item_ref it) = Some v).

Lemma place_item_db_stock orderId it d v :
  product_variants (place_item_db orderId it d) !! v
  = (λ stock, if takes_from v it then stock - quantity it else stock)
      <$> product_variants d !! v.
Proof.
  assert (Hid : ∀ o : option Z, o = (λ stock, stock) <$> o) by (by intros []).
  unfold place_item_db, takes_from. cbv zeta.
  destruct (truthy (item_ref it)); cbn [andb]; [|apply Hid].
  destruct (to_sql (item_ref it)) as [ref|] eqn:Eref; cbn; [|apply Hid].
  destruct (decide (ref = v)) as [->|Hne].
  - rewrite bool_decide_true by done.
    destruct (product_variants d !! v) as [stock|] eqn:Estock; cbn.
    + by rewrite lookup_alter_eq, Estock.
    + by rewrite Estock.
  - rewrite bool_decide_false by congruence.
    destruct (product_variants d !! ref) as [stock|] eqn:Estock; cbn; [|apply Hid].
    rewrite lookup_alter_ne by done. apply Hid.
Qed.
(** The rows the loop appends to [order_items], in the order of the items. *)
Definition new_order_item_rows (orderId : Z) (its : list item) (next : Z)
  : list order_item_row :=
  imap (λ i it, new_order_item_row orderId it (next + Z.of_nat i)) its.

(** What an order takes from the stock of variant [v]. *)
Definition ordered_quantity (v : Z) (its : list item) : Z :=
  foldr (λ it acc, (if takes_from v it then quantity it else 0) + acc) 0 its.

Lemma foldl_place_item_db_frame orderId its d :
  let d' := foldl (λ d it, place_item_db orderId it d) d its in
  users d' = users d
  ∧ addresses d' = addresses d
  ∧ orders d' = orders d
  ∧ next_address_id d' = next_address_id d
  ∧ next_order_id d' = next_order_id d
  ∧ order_items d' = order_items d ++ new_order_item_rows orderId its (next_order_item_id d)
  ∧ next_order_item_id d' = next_order_item_id d + Z.of_nat (length its).
Proof.
  revert d. induction its as [|it its IH]; intros d; cbn [foldl].
  - cbn. rewrite app_nil_r. split_and!; [done..|lia].
  - destruct (IH (place_item_db orderId it d)) as (-> & -> & -> & -> & -> & -> & ->).
    destruct (place_item_db_frame orderId it d) as (-> & -> & -> & -> & -> & -> & ->).
    split_and!; [done.. | | cbn [length]; lia].
    rewrite <- app_assoc. f_equal. unfold new_order_item_rows. cbn [imap app]. f_equal.
    + f_equal. lia.
    + apply imap_ext. intros i x _. cbn. f_equal. lia.
Qed.

Lemma foldl_place_item_db_stock orderId its d v :
  product_variants (foldl (λ d it, place_item_db orderId it d) d its) !! v
  = (λ stock, stock - ordered_quantity v its) <$> product_variants d !! v.
Proof.
  revert d. induction its as [|it its IH]; intros d; cbn [foldl ordered_quantity foldr].
  - destruct (product_variants d !! v); cbn; f_equal; lia.
  - rewrite IH, place_item_db_stock.
    destruct (product_variants d !! v) as [stock|]; cbn; [|done].
    f_equal. fold (ordered_quantity v its). destruct (takes_from v it); lia.
Qed.

(** ** What the address steps and the allocation leave alone *)

(** Only [addresses] and its counter may differ. *)
Definition only_addresses_differ (d d' : database) : Prop :=
  users d' = users d ∧ orders d' = orders d ∧ order_items d' = order_items d
  ∧ product_variants d' = product_variants d
  ∧ next_order_id d' = next_order_id d
  ∧ next_order_item_id d' = next_order_item_id d.

Lemma resolve_address_frame role uid a (w : world) id (w' : world) :
  resolve_address role uid a w = (inl id, w') →
  only_addresses_differ (current w) (current w')
  ∧ draws w' = draws w ∧ same_inputs w w'.
Proof.
  intros H. apply resolve_address_inl in H.
  destruct (select_addresses uid a (current w)) as [|r rest]; destruct H as [_ ->].
  - rewrite current_put_current, draws_put_current.
    split_and!; [done.. | apply same_inputs_put_current].
  - done.
Qed.

Lemma taken_orders d d' t : orders d' = orders d → taken d' t ↔ taken d t.
Proof. unfold taken. by intros ->. Qed.

Lemma candidate_inputs (s s' : system) k :
  same_inputs s s' → draws s' = draws s → candidate s' k = candidate s k.
Proof. intros [_ Hr] Hd. unfold candidate. by rewrite Hr, Hd. Qed.

Lemma fallback_candidate_inputs (s s' : system) :
  same_inputs s s' → draws s' = draws s → fallback_candidate s' = fallback_candidate s.
Proof. intros [Hc Hr] Hd. unfold fallback_candidate. by rewrite Hr, Hd, Hc. Qed.

(** Everything a completed run of steps 1 to 5 has written. *)
Lemma create_order_writes user its sa ba total (w0 : world) orderId (w1 : world) :
  create_order user its sa ba total w0 = (inl orderId, w1) →
  ∃ sid bid t,
    ¬ taken (current w0) t
    ∧ ((∃ k, (k < maxAttempts)%nat ∧ t = candidate w0 k)
       ∨ ((∀ j, (j < maxAttempts)%nat → taken (current w0) (candidate w0 j))
          ∧ t = fallback_candidate w0))
    ∧ orderId = next_order_id (current w0)
    ∧ users (current w1) = users (current w0)
    ∧ orders (current w1)
      = orders (current w0) ++ [new_order_row (user_id user) total sid bid t orderId]
    ∧ order_items (current w1)
      = order_items (current w0)
        ++ new_order_item_rows orderId its (next_order_item_id (current w0))
    ∧ (∀ v, product_variants (current w1) !! v
            = (λ stock, stock - ordered_quantity v its)
                <$> product_variants (current w0) !! v)
    ∧ next_order_id (current w1) = next_order_id (current w0) + 1.
Proof.
  intros H.
  apply create_order_inl in H as (sid & bid & t & wA & wB & wT & wO & E1 & E2 & E3 & E4 & E5).
  apply resolve_address_frame in E1 as ((U1 & O1 & I1 & V1 & N1 & M1) & D1 & S1).
  apply resolve_address_frame in E2 as ((U2 & O2 & I2 & V2 & N2 & M2) & D2 & S2).
  apply allocate_tracking_number_inl in E3 as [Hfree Hcase].
  assert (HcT : current wT = current wB).
  { destruct Hcase as [(k & _ & _ & _ & ->)|(_ & _ & ->)]; reflexivity. }
  apply conn_write_current in E4 as [Hid HcO]. cbn [insert_order fst snd] in Hid, HcO.
  subst orderId.
  apply for_each_place_item_inl in E5 as (Hc1 & _ & _).
  destruct (foldl_place_item_db_frame (next_order_id (current wT)) its (current wO))
    as (U5 & _ & O5 & _ & N5 & I5 & _).
  pose proof (foldl_place_item_db_stock (next_order_id (current wT)) its (current wO)) as V5.
  rewrite <- Hc1 in U5, O5, N5, I5, V5. rewrite HcO in U5, O5, N5, I5, V5.
  cbn in U5, O5, N5, I5, V5. rewrite HcT in *.
  assert (Ho : orders (current wB) = orders (current w0)) by congruence.
  assert (S02 : same_inputs w0 wB) by (by etrans).
  assert (D02 : draws wB = draws w0) by congruence.
  exists sid, bid, t. split_and!.
  - by rewrite <- (taken_orders _ _ _ Ho).
  - destruct Hcase as [(k & Hk & -> & _)|(Hall & -> & _)].
    + left. exists k. split; [done|]. by apply candidate_inputs.
    + right. split; [|by apply fallback_candidate_inputs].
      intros j Hj. rewrite <- (taken_orders _ _ _ Ho), <- (candidate_inputs w0 wB) by done.
      by apply Hall.
  - congruence.
  - congruence.
  - rewrite O5. congruence.
  - rewrite I5. congruence.
  - intros v. rewrite V5. congruence.
  - rewrite N5. congruence.
Qed.
(** ** The re-read after the commit *)

(** Orders and line items refer to orders below the AUTO_INCREMENT value of
    [orders]. *)
Definition order_keys_ok (d : database) : Prop :=
  Forall (λ o, order_id o < next_order_id d) (orders d)
  ∧ Forall (λ r, item_order_id r < next_order_id d) (order_items d).

Lemma read_order_inl orderId (w : world) order (w' : world) :
  read_order orderId w = (inl order, w') →
  view_items order = select_order_items orderId (current w)
  ∧ ∃ rest, select_order orderId (current w)
            = (view_order order, view_shipping order, view_billing order) :: rest.
Proof.
  unfold read_order. intros H.
  apply bind_inl in H as (newOrders & w1 & E1 & H). apply conn_read_inl in E1 as [-> Hs1].
  apply bind_inl in H as (orderItems & w2 & E2 & H). apply conn_read_inl in E2 as [-> Hs2].
  rewrite Hs1 in H.
  destruct (select_order orderId (current w)) as [|[[o sa] ba] rest]; [discriminate|].
  injection H as <- <-. cbn. eauto.
Qed.

Lemma filter_fresh {A} (f : A → bool) (old new : list A) :
  Forall (λ x, f x = false) old → Forall (λ x, f x = true) new →
  List.filter f (old ++ new) = new.
Proof.
  intros Hold Hnew. rewrite List.filter_app.
  replace (List.filter f old) with (@nil A).
  - cbn. induction Hnew as [|x l Hx _ IH]; [done|]. cbn. by rewrite Hx, IH.
  - induction Hold as [|x l Hx _ IH]; [done|]. cbn. by rewrite Hx.
Qed.

Lemma new_order_item_rows_order_id orderId its next :
  Forall (λ r, (item_order_id r =? orderId) = true) (new_order_item_rows orderId its next).
Proof.
  apply Forall_forall. intros r Hr. unfold new_order_item_rows in Hr.
  apply elem_of_lookup_imap in Hr as (i & it & -> & _). cbn. apply Z.eqb_refl.
Qed.

(** Everything a 201 response stands for. *)
Lemma created_summary (req : request) (w : world) res (w' : world) :
  txn w = None →
  post_orders req w = (inl res, w') →
  status_code res = 201 →
  ∃ its sa ba user sid bid t order,
    items req = ItemsArray its ∧ its ≠ []
    ∧ shipping_address req = Some sa ∧ billing_address req = Some ba
    ∧ head (select_users_by_clerk_id (clerk_user_id req) (committed w)) = Some user
    ∧ res = created order
    ∧ txn w' = None
    ∧ ¬ taken (committed w) t
    ∧ ((∃ k, (k < maxAttempts)%nat ∧ t = candidate w k)
       ∨ ((∀ j, (j < maxAttempts)%nat → taken (committed w) (candidate w j))
          ∧ t = fallback_candidate w))
    ∧ orders (committed w')
      = orders (committed w)
        ++ [new_order_row (user_id user) (total req) sid bid t
              (next_order_id (committed w))]
    ∧ order_items (committed w')
      = order_items (committed w)
        ++ new_order_item_rows (next_order_id (committed w)) its
             (next_order_item_id (committed w))
    ∧ (∀ v, product_variants (committed w') !! v
            = (λ stock, stock - ordered_quantity v its)
                <$> product_variants (committed w) !! v)
    ∧ (order_keys_ok (committed w) →
       view_order order
       = new_order_row (user_id user) (total req) sid bid t (next_order_id (committed w))
       ∧ view_items order
         = new_order_item_rows (next_order_id (committed w)) its
             (next_order_item_id (committed w))).
Proof.
  intros Ht Hpost H201.
  destruct (post_orders_created _ _ _ _ Ht Hpost H201)
    as (its & sa & ba & user & w0 & w1 & wc & orderId & order
        & Hits & Hne & Hsa & Hba & Hu & H0 & Hsteps & Hwc & Hread & ->).
  destruct (create_order_writes _ _ _ _ _ _ _ _ Hsteps)
    as (sid & bid & t & Hfree & Hcase & Hid & _ & Ho & Hi & Hv & _).
  pose proof (read_order_sys _ _ _ _ Hread) as Hw'.
  apply read_order_inl in Hread as [Hitems [rest Hsel]].
  assert (Hc0 : current w0 = committed w) by (by rewrite H0).
  assert (Hcc : current wc = current w1) by (by rewrite Hwc).
  assert (Hc' : committed w' = current w1) by (by rewrite Hw', Hwc).
  assert (Hcand : ∀ k, candidate w0 k = candidate w k) by (by rewrite H0).
  assert (Hfall : fallback_candidate w0 = fallback_candidate w) by (by rewrite H0).
  rewrite Hc0 in *. subst orderId. rewrite Hcc in *. rewrite <- Hc' in *.
  exists its, sa, ba, user, sid, bid, t, order.
  split_and!; try done.
  - by rewrite Hw', Hwc.
  - destruct Hcase as [(k & Hk & ->)|[Hall ->]]; [left|right].
    + exists k. by rewrite Hcand.
    + split; [|done]. intros j Hj. rewrite <- Hcand. by apply Hall.
  - intros [Hok Hfk]. split.
    + unfold select_order in Hsel. rewrite Ho in Hsel.
      rewrite filter_fresh in Hsel.
      * by injection Hsel as <- _ _ _.
      * eapply Forall_impl; [exact Hok|]. cbn. intros o Hlt. apply Z.eqb_neq. lia.
      * apply Forall_singleton. cbn. apply Z.eqb_refl.
    + rewrite Hitems. unfold select_order_items. rewrite Hi.
      apply filter_fresh; [|apply new_order_item_rows_order_id].
      eapply Forall_impl; [exact Hfk|]. cbn. intros r Hlt. apply Z.eqb_neq. lia.
Qed.



(** * Exhausted tracking-number allocation *)

(** ** Runs without a failing round trip *)

Lemma conn_read_ok {A} (q : database → A) (w : world) :
  fault w = [] → conn_read q w = (inl (q (current w)), w).
Proof.
  intros Hf. unfold conn_read.
  by rewrite (bind_step _ _ _ _ _ (round_trip_no_fault _ Hf)).
Qed.

Lemma conn_write_ok {A} (q : database → A * database) (w : world) :
  fault w = [] →
  conn_write q w
  = (inl (q (current w)).1,
     {| sys := put_current (q (current w)).2 w; fault := fault w |}).
Proof.
  intros Hf. unfold conn_write.
  by rewrite (bind_step _ _ _ _ _ (round_trip_no_fault _ Hf)).
Qed.

Lemma pool_read_ok {A} (q : database → A) (w : world) :
  fault w = [] → pool_read q w = (inl (q (committed w)), w).
Proof.
  intros Hf. unfold pool_read.
  by rewrite (bind_step _ _ _ _ _ (round_trip_no_fault _ Hf)).
Qed.

Lemma pool_write_ok {A} (q : database → A * database) (w : world) :
  fault w = [] →
  pool_write q w
  = (inl (q (committed w)).1,
     {| sys := set_committed (q (committed w)).2 w; fault := fault w |}).
Proof.
  intros Hf. unfold pool_write.
  by rewrite (bind_step _ _ _ _ _ (round_trip_no_fault _ Hf)).
Qed.

Lemma getUserByClerkId_ok clerkId (w : world) :
  fault w = [] →
  getUserByClerkId clerkId w
  = (inl (head (select_users_by_clerk_id clerkId (committed w))), w).
Proof.
  intros Hf. unfold getUserByClerkId.
  by rewrite (bind_step _ _ _ _ _ (pool_read_ok _ _ Hf)).
Qed.

Lemma beginTransaction_ok (w : world) :
  fault w = [] →
  beginTransaction w = (inl (), {| sys := set_txn (Some (current w)) w; fault := fault w |}).
Proof.
  intros Hf. unfold beginTransaction.
  by rewrite (bind_step _ _ _ _ _ (round_trip_no_fault _ Hf)).
Qed.

Lemma resolve_address_ok role uid a (w : world) :
  fault w = [] →
  ∃ id (w' : world), resolve_address role uid a w = (inl id, w') ∧ fault w' = [].
Proof.
  intros Hf. unfold resolve_address.
  rewrite (bind_step _ _ _ _ _ (conn_read_ok _ _ Hf)).
  destruct (select_addresses uid a (current w)) as [|r rest].
  - rewrite (conn_write_ok _ _ Hf). eauto.
  - eexists _, _. split; [reflexivity | done].
Qed.

(** All [n] candidates are taken: the loop leaves with [isUnique] unset. *)
Lemma unique_tracking_loop_exhausted n (w : world) :
  fault w = [] →
  (∀ j, (j < n)%nat → taken (current w) (candidate w j)) →
  unique_tracking_loop n w
  = (inl None, {| sys := set_draws (n + draws w) w; fault := [] |}).
Proof.
  revert w. induction n as [|n IH]; intros w Hf Hall; cbn [unique_tracking_loop].
  - change (0 + draws w)%nat with (draws w). rewrite set_draws_same.
    destruct w as [s f]. cbn in *. by subst.
  - rewrite (bind_step _ _ _ _ _ (generate_run w)). cbv beta.
    rewrite (bind_step _ _ _ _ _
               (conn_read_ok _ {| sys := set_draws (S (draws w)) w; fault := fault w |} Hf)).
    cbn [sys].
    change (current (set_draws (S (draws w)) w)) with (current w).
    pose proof (Hall 0%nat ltac:(lia)) as H0. apply select_orders_by_tracking_taken in H0.
    destruct (select_orders_by_tracking (candidate w 0) (current w)) as [|o os]; [done|].
    rewrite IH.
    + cbn [sys draws set_draws]. rewrite Nat.add_succ_r. reflexivity.
    + done.
    + intros j Hj. cbn [sys]. rewrite candidate_shift.
      change (current (set_draws (S (draws w)) w)) with (current w). apply Hall. lia.
Qed.

(** Every candidate of the loop and the fallback candidate are taken. *)
Definition tracking_exhausted (d : database) (s : system) : Prop :=
  (∀ j, (j < maxAttempts)%nat → taken d (candidate s j))
  ∧ taken d (fallback_candidate s).

Lemma allocate_tracking_number_exhausted (w : world) :
  fault w = [] →
  tracking_exhausted (current w) w →
  ∃ w' : world,
    allocate_tracking_number w = (inr (Error tracking_exhausted_message), w')
    ∧ fault w' = [].
Proof.
  intros Hf [Hall Hfall]. unfold allocate_tracking_number.
  rewrite (bind_step _ _ _ _ _ (unique_tracking_loop_exhausted _ _ Hf Hall)).
  rewrite bind_run. unfold date_now, gets. rewrite bind_run, random_below_run.
  rewrite bind_run, conn_read_ok by reflexivity.
  cbn [sys clock random draws set_draws].
  change (current (set_draws _ (set_draws _ w))) with (current w).
  fold (fallback_candidate w). apply select_orders_by_tracking_taken in Hfall.
  destruct (select_orders_by_tracking (fallback_candidate w) (current w)); [done|].
  eexists. split; reflexivity.
Qed.
(** The response [post_orders] gives to every failure inside its outer
    [try]: status 500 under the one message of the [catch] handler. *)
Definition generic_failure (res : response) : Prop :=
  status_code res = 500 ∧ success res = false ∧ message res = "Failed to create order".

Lemma create_order_exhausted user its sa ba total (w0 : world) :
  fault w0 = [] →
  tracking_exhausted (current w0) w0 →
  ∃ w1 : world,
    create_order user its sa ba total w0 = (inr (Error tracking_exhausted_message), w1)
    ∧ fault w1 = [].
Proof.
  intros Hf [Hall Hfall]. unfold create_order.
  destruct (resolve_address_ok Shipping (user_id user) sa w0 Hf) as (sid & wA & E1 & HfA).
  destruct (resolve_address_ok Billing (user_id user) ba wA HfA) as (bid & wB & E2 & HfB).
  rewrite (bind_step _ _ _ _ _ E1), (bind_step _ _ _ _ _ E2).
  apply resolve_address_frame in E1 as ((_ & O1 & _) & D1 & S1).
  apply resolve_address_frame in E2 as ((_ & O2 & _) & D2 & S2).
  assert (Ho : orders (current wB) = orders (current w0)) by congruence.
  assert (S02 : same_inputs w0 wB) by (by etrans).
  assert (D02 : draws wB = draws w0) by congruence.
  destruct (allocate_tracking_number_exhausted wB HfB) as (wT & ET & HfT).
  { split.
    - intros j Hj. rewrite (taken_orders _ _ _ Ho), (candidate_inputs w0 wB) by done.
      by apply Hall.
    - by rewrite (taken_orders _ _ _ Ho), (fallback_candidate_inputs w0 wB). }
  exists wT. by rewrite (bind_throw _ _ _ _ _ ET).
Qed.

(** C4, as amended: when all ten candidates and the fallback candidate are
    taken, order creation fails.  The error raised says that no unique
    tracking number could be generated, the transaction is rolled back, and
    the caller gets the response of every transactional failure, status 500
    with message "Failed to create order", with that error text as its
    [error] detail. *)
Theorem tracking_exhaustion_fails_generically (req : request) (w : world) its sa ba user :
  txn w = None → fault w = [] →
  items req = ItemsArray its → its ≠ [] →
  shipping_address req = Some sa → billing_address req = Some ba →
  head (select_users_by_clerk_id (clerk_user_id req) (committed w)) = Some user →
  tracking_exhausted (committed w) w →
  ∃ res (w' : world),
    post_orders req w = (inl res, w')
    ∧ res = server_error "Failed to create order" (Error tracking_exhausted_message)
    ∧ generic_failure res
    ∧ error res
      = Some "Failed to generate unique tracking number after multiple attempts"
    ∧ committed w' = committed w ∧ txn w' = None.
Proof.
  intros Ht Hf Hits Hne Hsa Hba Hu Hex.
  set (w0 := {| sys := set_txn (Some (current w)) w; fault := fault w |}).
  assert (Eu : getUserByClerkId (clerk_user_id req) w = (inl (Some user), w))
    by (by rewrite getUserByClerkId_ok, Hu).
  rewrite (post_orders_begun _ _ _ _ _ _ _ w0 _ Hits Hne Hsa Hba Eu
             (round_trip_no_fault _ Hf) (beginTransaction_ok _ Hf)).
  assert (Hc0 : current w0 = committed w) by (unfold w0, current; cbn; by rewrite Ht).
  destruct (create_order_exhausted user its sa ba (total req) w0)
    as (w1 & Esteps & Hf1).
  { done. }
  { by rewrite Hc0. }
  destruct (in_transaction user its sa ba (total req) w0) as [out w2] eqn:Etx.
  assert (Ht0 : is_Some (txn w0)) by (cbn; eauto).
  destruct (in_transaction_outcome _ _ _ _ _ _ _ _ Ht0 Esteps _ _ Etx) as (_ & Hfail & _).
  destruct (Hfail _ eq_refl) as (Hc2 & _ & Hquiet).
  destruct (Hquiet Hf1) as (-> & Ht2 & Hf2).
  rewrite (failed_to_create_ok _ _ _ Hf2).
  eexists _, _. split; [reflexivity|]. cbn. split_and!; done.
Qed.

Definition exhausted_database : database :=
  {| users := [ {| user_id := 1; clerk_id := "clerk_u1" |} ];
     addresses := [];
     orders :=
       [ {| order_id := 1; order_user_id := 1; total_amount := Some 500; status := shipped;
            shipping_address_id := 7; billing_address_id := 7;
            tracking_number := "TRK112345" |};
         {| order_id := 2; order_user_id := 1; total_amount := Some 900; status := pending;
            shipping_address_id := 7; billing_address_id := 7;
            tracking_number := "TRK5678901245" |} ];
     order_items := [];
     product_variants := {[ 5 := 10 ]};
     next_address_id := 8;
     next_order_id := 3;
     next_order_item_id := 1 |}.

(** Every draw is 12345: all ten candidates are [TRK112345] and the fallback
    is [TRK5678901245]. *)
Definition exhausted_world : world :=
  {| sys := set_committed exhausted_database sample_world; fault := [] |}.

Lemma exhausted_world_exhausted : tracking_exhausted exhausted_database exhausted_world.
Proof.
  split; [intros j _|]; eexists; split.
  - left.
  - by vm_compute.
  - right. left.
  - by vm_compute.
Qed.

Lemma tracking_exhaustion_fails_generically_witness :
  ∃ res,
    (post_orders sample_request exhausted_world).1 = inl res
    ∧ generic_failure res
    ∧ error res = Some "Failed to generate unique tracking number after multiple attempts"
    ∧ committed (post_orders sample_request exhausted_world).2 = exhausted_database.
Proof.
  destruct (tracking_exhaustion_fails_generically sample_request exhausted_world
              [sample_item] sample_address sample_address
              {| user_id := 1; clerk_id := "clerk_u1" |})
    as (res & w' & Hpost & _ & Hgen & Herr & Hc & _).
  - reflexivity.
  - reflexivity.
  - reflexivity.
  - discriminate.
  - reflexivity.
  - reflexivity.
  - reflexivity.
  - exact exhausted_world_exhausted.
  - exists res. rewrite Hpost. split; [reflexivity|].
    split; [exact Hgen|]. split; [exact Herr | exact Hc].
Defined.

(** C4 as the spec states it: exhausted allocation is answered by an error
    of its own kind, not by the response of a transactional failure.  The
    exhausted sample world refutes it. *)
Lemma conflict_error_counterexample :
  ¬ (∀ (req : request) (w : world) res (w' : world),
       txn w = None → fault w = [] →
       tracking_exhausted (committed w) w →
       post_orders req w = (inl res, w') →
       ¬ generic_failure res).
Proof.
  intros H.
  eapply (H sample_request exhausted_world _ _ eq_refl eq_refl exhausted_world_exhausted).
  - apply run_inl. vm_compute. reflexivity.
  - vm_compute. done.
Qed.
(** * Line items, totals and stock of a created order *)

Lemma new_order_item_rows_lookup orderId its next (i : nat) :
  new_order_item_rows orderId its next !! i
  = (λ it, new_order_item_row orderId it (next + Z.of_nat i)) <$> its !! i.
Proof. unfold new_order_item_rows. apply list_lookup_imap. Qed.

(** C6, as amended: a successful order creation inserts exactly one line
    item per input item, and the returned order lists them: as many rows as
    items, the [i]-th row carrying the quantity of the [i]-th item.  Its unit
    price is the [unit_price] of the request when that is truthy; when
    [unit_price] is absent, null or 0, it is the [price] field of the item
    instead, NULL when that is absent too.  Either way the stored price is a
    function of the request alone: nothing in the store is consulted for
    it. *)
Theorem line_items_snapshot (req : request) (w : world) res (w' : world) :
  txn w = None →
  order_keys_ok (committed w) →
  post_orders req w = (inl res, w') →
  status_code res = 201 →
  ∃ its order,
    items req = ItemsArray its
    ∧ data res = Some order
    ∧ order_items (committed w') = order_items (committed w) ++ view_items order
    ∧ length (view_items order) = length its
    ∧ ∀ (i : nat) it, its !! i = Some it →
        ∃ row, view_items order !! i = Some row
          ∧ item_order_id row = order_id (view_order order)
          ∧ item_quantity row = quantity it
          ∧ item_unit_price row = to_sql (js_or (unit_price it) (price it))
          ∧ (truthy (unit_price it) = true → item_unit_price row = to_sql (unit_price it))
          ∧ (truthy (unit_price it) = false → item_unit_price row = to_sql (price it)).
Proof.
  intros Ht Hok Hpost H201.
  destruct (created_summary _ _ _ _ Ht Hpost H201)
    as (its & sa & ba & user & sid & bid & t & order
        & Hits & _ & _ & _ & _ & -> & _ & _ & _ & _ & Hi & _ & Hview).
  destruct (Hview Hok) as [Hvo Hvi].
  exists its, order. split_and!; [done | done | by rewrite Hvi | | ].
  - rewrite Hvi. unfold new_order_item_rows. apply length_imap.
  - intros i it Hit.
    exists (new_order_item_row (next_order_id (committed w)) it
              (next_order_item_id (committed w) + Z.of_nat i)).
    split; [by rewrite Hvi, new_order_item_rows_lookup, Hit|].
    rewrite Hvo. split_and!; [reflexivity..| |];
      intros Htruthy; cbn [new_order_item_row item_unit_price]; unfold js_or;
      by rewrite Htruthy.
Qed.

Lemma sample_database_keys_ok : order_keys_ok sample_database.
Proof. split; constructor. Qed.

(** An item offered at unit price 0 whose [price] field says 250. *)
Definition free_item : item :=
  {| variant_id := val 5; product_id := undefined; quantity := 1;
     unit_price := val 0; price := val 250 |}.

Definition free_item_request : request :=
  {| clerk_user_id := "clerk_u1"; items := ItemsArray [free_item];
     shipping_address := Some sample_address; billing_address := Some sample_address;
     total := val 0 |}.

Lemma line_items_snapshot_witness :
  ∃ res order,
    (post_orders free_item_request sample_world).1 = inl res
    ∧ data res = Some order
    ∧ length (view_items order) = 1%nat
    ∧ ∃ row, view_items order !! 0%nat = Some row ∧ item_unit_price row = Some 250.
Proof.
  edestruct (line_items_snapshot free_item_request sample_world)
    as (its & order & Hits & Hdata & _ & Hlen & Hrows).
  - reflexivity.
  - exact sample_database_keys_ok.
  - apply run_inl. vm_compute. reflexivity.
  - reflexivity.
  - injection Hits as <-.
    destruct (Hrows 0%nat free_item eq_refl) as (row & Hrow & _ & _ & _ & _ & Hprice).
    eexists _, order. split; [vm_compute; reflexivity|]. split; [exact Hdata|].
    split; [exact Hlen|].
    exists row. split; [exact Hrow | exact (Hprice eq_refl)].
Defined.

(** C6 as the spec states it: each line item carries the unit price the
    request supplies.  The order placed for [free_item] is created, and its
    line item carries 250, the [price] field, not the unit price 0. *)
Lemma zero_unit_price_counterexample :
  ¬ (∀ (req : request) (w : world) res (w' : world) its order,
       txn w = None → order_keys_ok (committed w) →
       post_orders req w = (inl res, w') → status_code res = 201 →
       items req = ItemsArray its → data res = Some order →
       ∀ (i : nat) it, its !! i = Some it →
         ∃ row, view_items order !! i = Some row
                ∧ item_unit_price row = to_sql (unit_price it)).
Proof.
  intros H.
  edestruct (H free_item_request sample_world) as (row & Hrow & Hprice).
  - reflexivity.
  - exact sample_database_keys_ok.
  - apply run_inl. vm_compute. reflexivity.
  - reflexivity.
  - reflexivity.
  - reflexivity.
  - instantiate (2 := 0%nat). reflexivity.
  - cbn in Hrow. injection Hrow as <-. discriminate.
Qed.

(** ** The stored total *)

(** [SUM(quantity * unit_price)] over rows; a [NULL] price adds nothing. *)
Definition line_items_sum (rows : list order_item_row) : Z :=
  foldr (λ r acc, item_quantity r * default 0 (item_unit_price r) + acc) 0 rows.

(** The stored total of an order equals the sum over its line items. *)
Definition total_consistent (order : order_view) : Prop :=
  total_amount (view_order order) = Some (line_items_sum (view_items order)).

(** Two units at 1000 each, with a total of 5. *)
Definition underpaid_request : request :=
  {| clerk_user_id := "clerk_u1"; items := ItemsArray [sample_item];
     shipping_address := Some sample_address; billing_address := Some sample_address;
     total := val 5 |}.

(** What the handler returns for [underpaid_request] in the sample world. *)
Definition underpaid_order : order_view :=
  {| view_order :=
       {| order_id := 1; order_user_id := 1; total_amount := Some 5; status := pending;
          shipping_address_id := 1; billing_address_id := 1;
          tracking_number := "TRK112345" |};
     view_shipping := Some (new_address_row Shipping 1 sample_address 1);
     view_billing := Some (new_address_row Shipping 1 sample_address 1);
     view_items :=
       [ {| order_item_id := 1; item_order_id := 1; item_variant_id := Some 5;
            item_quantity := 2; item_unit_price := Some 1000 |} ] |}.

Lemma underpaid_request_created :
  (post_orders underpaid_request sample_world).1 = inl (created underpaid_order).
Proof. vm_compute. reflexivity. Qed.

(** C9 as the spec states it, refuted: the order created for
    [underpaid_request] stores the total 5 next to line items that sum to
    2000. *)
Lemma total_consistency_counterexample :
  ¬ (∀ (req : request) (w : world) res (w' : world) order,
       txn w = None → order_keys_ok (committed w) →
       post_orders req w = (inl res, w') →
       status_code res = 201 →
       data res = Some order →
       total_consistent order).
Proof.
  intros H.
  specialize (H underpaid_request sample_world (created underpaid_order)
                (post_orders underpaid_request sample_world).2 underpaid_order eq_refl
                sample_database_keys_ok (run_inl _ _ _ underpaid_request_created)
                eq_refl eq_refl).
  discriminate.
Qed.

(** C9, as amended: the total stored with a created order is the [total] of
    the request, bound as it came; the handler does not compare it with the
    line items.  The order is consistent exactly when the client sent the
    sum of quantity times unit price. *)
Theorem stored_total_is_client_total (req : request) (w : world) res (w' : world) :
  txn w = None →
  order_keys_ok (committed w) →
  post_orders req w = (inl res, w') →
  status_code res = 201 →
  ∃ order,
    data res = Some order
    ∧ view_order order ∈ orders (committed w')
    ∧ total_amount (view_order order) = to_sql (total req)
    ∧ (total_consistent order
       ↔ to_sql (total req) = Some (line_items_sum (view_items order))).
Proof.
  intros Ht Hok Hpost H201.
  destruct (created_summary _ _ _ _ Ht Hpost H201)
    as (its & sa & ba & user & sid & bid & t & order
        & _ & _ & _ & _ & _ & -> & _ & _ & _ & Ho & _ & _ & Hview).
  destruct (Hview Hok) as [Hvo _].
  exists order. split_and!; [done | | by rewrite Hvo | ].
  - rewrite Ho, Hvo. apply elem_of_app. right. by apply list_elem_of_singleton.
  - unfold total_consistent. by rewrite Hvo.
Qed.

Lemma stored_total_is_client_total_witness :
  ∃ order,
    (post_orders underpaid_request sample_world).1 = inl (created order)
    ∧ total_amount (view_order order) = Some 5.
Proof.
  destruct (stored_total_is_client_total underpaid_request sample_world
              (created underpaid_order)
              (post_orders underpaid_request sample_world).2)
    as (order & Hdata & _ & Htotal & _).
  - reflexivity.
  - exact sample_database_keys_ok.
  - exact (run_inl _ _ _ underpaid_request_created).
  - reflexivity.
  - exists order. injection Hdata as <-.
    split; [exact underpaid_request_created | exact Htotal].
Defined.
(** ** Stock *)

Lemma alter_Some (m : gmap Z Z) v (f : Z → Z) stock :
  m !! v = Some stock → alter f v m = <[v := f stock]> m.
Proof.
  intros Hv. apply map_eq. intros i. destruct (decide (v = i)) as [<-|Hne].
  - by rewrite lookup_alter_eq, lookup_insert_eq, Hv.
  - by rewrite lookup_alter_ne, lookup_insert_ne.
Qed.

(** Without a failing round trip the loop body returns, whatever the item. *)
Lemma place_item_ok orderId it (w : world) :
  fault w = [] →
  ∃ w' : world, place_item orderId it w = (inl (), w') ∧ fault w' = [].
Proof.
  intros Hf. unfold place_item.
  rewrite (bind_step _ _ _ _ _ (conn_write_ok _ _ Hf)). cbv zeta.
  destruct (truthy (js_or (variant_id it) (product_id it))).
  - rewrite bind_run, conn_read_ok by done.
    destruct (select_variant _ _).
    + eexists. split; [reflexivity | done].
    + rewrite conn_write_ok by done. eexists. split; [reflexivity | done].
  - eexists. split; [reflexivity | done].
Qed.

(** C7: stock.  For one line item, without a failing round trip: the loop
    body returns and its row is appended to [order_items] in every case; if
    the item refers to an existing variant, that variant's stock becomes the
    old stock minus the ordered quantity, with no floor, and nothing is
    logged; if the reference does not resolve, the stock table is left as it
    is and the reference is logged by [console.warn].  For a whole created
    order: every variant's stock has gone down by exactly what the items
    referring to it ordered. *)
Theorem stock_decrement :
  (∀ orderId it (w : world),
     fault w = [] →
     ∃ w' : world,
       place_item orderId it w = (inl (), w')
       ∧ order_items (current w')
         = order_items (current w)
           ++ [new_order_item_row orderId it (next_order_item_id (current w))]
       ∧ ∀ v, truthy (item_ref it) = true → to_sql (item_ref it) = Some v →
           match product_variants (current w) !! v with
           | Some stock =>
               product_variants (current w')
               = <[v := stock - quantity it]> (product_variants (current w))
               ∧ console w' = console w
           | None =>
               product_variants (current w') = product_variants (current w)
               ∧ console w' = console w ++ [item_ref it]
           end)
  ∧ (∀ (req : request) (w : world) res (w' : world),
       txn w = None →
       post_orders req w = (inl res, w') →
       status_code res = 201 →
       ∃ its,
         items req = ItemsArray its
         ∧ length (order_items (committed w'))
           = (length (order_items (committed w)) + length its)%nat
         ∧ ∀ v, product_variants (committed w') !! v
                = (λ stock, stock - ordered_quantity v its)
                    <$> product_variants (committed w) !! v).
Proof.
  split.
  - intros orderId it w Hf.
    destruct (place_item_ok orderId it w Hf) as (w' & Hrun & _).
    exists w'. split; [done|].
    apply place_item_inl in Hrun as (Hc & Hk & _).
    rewrite Hc, Hk.
    destruct (place_item_db_frame orderId it (current w)) as (_ & _ & _ & _ & _ & -> & _).
    split; [done|]. intros v Htruthy Hv.
    unfold place_item_db, place_item_warning. cbv zeta. rewrite Htruthy, Hv.
    unfold select_variant. cbn [insert_order_item snd product_variants].
    destruct (product_variants (current w) !! v) as [stock|] eqn:Estock.
    + cbn. rewrite app_nil_r. split; [|done].
      exact (alter_Some _ v (λ s, s - quantity it) stock Estock).
    + done.
  - intros req w res w' Ht Hpost H201.
    destruct (created_summary _ _ _ _ Ht Hpost H201)
      as (its & sa & ba & user & sid & bid & t & order
          & Hits & _ & _ & _ & _ & _ & _ & _ & _ & _ & Hi & Hv & _).
    exists its. split_and!; [done | | done].
    rewrite Hi, length_app. unfold new_order_item_rows. by rewrite length_imap.
Qed.

(** Twelve units of a variant that has ten. *)
Definition oversell_item : item :=
  {| variant_id := val 5; product_id := undefined; quantity := 12;
     unit_price := val 1000; price := undefined |}.

Definition oversell_request : request :=
  {| clerk_user_id := "clerk_u1"; items := ItemsArray [oversell_item];
     shipping_address := Some sample_address; billing_address := Some sample_address;
     total := val 12000 |}.

Lemma stock_decrement_witness :
  product_variants (committed (post_orders oversell_request sample_world).2) !! 5
  = Some (-2).
Proof.
  destruct stock_decrement as [_ Hcreated].
  edestruct (Hcreated oversell_request sample_world) as (its & Hits & _ & Hstock).
  - reflexivity.
  - apply run_inl. vm_compute. reflexivity.
  - reflexivity.
  - injection Hits as <-. rewrite Hstock. reflexivity.
Defined.
(** ** Field coalescing of a line item *)

Lemma conn_write_counted {A} (q : database → A * database) (w : world) k m rest :
  fault w = (S k, m) :: rest →
  conn_write q w
  = (inl (q (current w)).1,
     {| sys := put_current (q (current w)).2 w; fault := (k, m) :: rest |}).
Proof.
  intros Hf. unfold conn_write. rewrite bind_run. unfold round_trip. rewrite Hf.
  reflexivity.
Qed.

Lemma item_ref_falsy it :
  truthy (variant_id it) = false → truthy (product_id it) = false →
  item_ref it = product_id it ∧ truthy (item_ref it) = false.
Proof. intros Hv Hp. unfold item_ref, js_or. by rewrite Hv. Qed.

(** An item without [variant_id] whose [product_id] is the number 0. *)
Definition zero_product_item : item :=
  {| variant_id := undefined; product_id := val 0; quantity := 1;
     unit_price := val 100; price := undefined |}.

(** C10 as the spec states it, refuted in its last clause: both references
    of [zero_product_item] are falsy, yet the row inserted for it carries
    the variant reference 0, not NULL. *)
Lemma null_reference_counterexample :
  ¬ (∀ orderId it (w : world) u (w' : world),
       place_item orderId it w = (inl u, w') →
       truthy (variant_id it) = false → truthy (product_id it) = false →
       ∃ row, order_items (current w') = order_items (current w) ++ [row]
              ∧ item_variant_id row = None).
Proof.
  intros H.
  destruct (H 1 zero_product_item begun_world ()
              (place_item 1 zero_product_item begun_world).2)
    as (row & Hrows & Hnull); [reflexivity..|].
  vm_compute in Hrows. injection Hrows as <-. discriminate.
Qed.

(** C10, as amended: for each input item the recorded variant reference is
    [variant_id] if that is truthy and [product_id] otherwise, and the
    recorded unit price is [unit_price] if truthy and [price] otherwise, so
    with [unit_price] equal to 0 the [price] field is recorded.  If both
    [variant_id] and [product_id] are falsy, the loop body makes one round
    trip only, the INSERT: no variant is looked up, no stock changes,
    nothing is logged, and the body returns.  The row then carries the
    falsy [product_id] as bound: NULL when it is absent or null, 0 when it
    is the number 0.  Whatever the item, the body returns when no round trip
    fails. *)
Theorem item_field_coalescing orderId it (w : world) :
  (∀ u (w' : world),
     place_item orderId it w = (inl u, w') →
     ∃ row,
       order_items (current w') = order_items (current w) ++ [row]
       ∧ item_variant_id row
         = to_sql (if truthy (variant_id it) then variant_id it else product_id it)
       ∧ item_unit_price row
         = to_sql (if truthy (unit_price it) then unit_price it else price it)
       ∧ (unit_price it = val 0 → item_unit_price row = to_sql (price it))
       ∧ (truthy (variant_id it) = false → truthy (product_id it) = false →
          product_variants (current w') = product_variants (current w)
          ∧ console w' = console w
          ∧ item_variant_id row = to_sql (product_id it)
          ∧ (item_variant_id row = None ∨ item_variant_id row = Some 0)))
  ∧ (truthy (variant_id it) = false → truthy (product_id it) = false →
     ∀ k m rest, fault w = (S k, m) :: rest →
       ∃ w' : world, place_item orderId it w = (inl (), w') ∧ fault w' = (k, m) :: rest)
  ∧ (fault w = [] → ∃ w' : world, place_item orderId it w = (inl (), w')).
Proof.
  split_and!.
  - intros u w' Hrun. apply place_item_inl in Hrun as (Hc & Hk & _).
    exists (new_order_item_row orderId it (next_order_item_id (current w))).
    destruct (place_item_db_frame orderId it (current w)) as (_ & _ & _ & _ & _ & Hi & _).
    rewrite Hc, Hi. split_and!; [reflexivity.. | |].
    + intros E. cbn [new_order_item_row item_unit_price]. unfold js_or. by rewrite E.
    + intros Hv Hp. destruct (item_ref_falsy it Hv Hp) as [Href Hfalsy].
      rewrite Hk. unfold place_item_db, place_item_warning. cbv zeta. rewrite Hfalsy.
      rewrite app_nil_r. cbn [new_order_item_row item_variant_id].
      fold (item_ref it). rewrite Href. split_and!; [reflexivity.. |].
      destruct (product_id it) as [| |n]; [by left | by left |].
      cbn in Hp |- *. apply negb_false_iff, Z.eqb_eq in Hp. subst n. by right.
  - intros Hv Hp k m rest Hf. destruct (item_ref_falsy it Hv Hp) as [_ Hfalsy].
    unfold place_item. rewrite (bind_step _ _ _ _ _ (conn_write_counted _ _ _ _ _ Hf)).
    cbv zeta. fold (item_ref it). rewrite Hfalsy. eexists. split; reflexivity.
  - intros Hf. destruct (place_item_ok orderId it w Hf) as (w' & Hrun & _). eauto.
Qed.

Lemma item_field_coalescing_witness :
  ∃ w' : world,
    place_item 1 zero_product_item
      {| sys := begun_world; fault := [(1%nat, "Lock wait timeout exceeded")] |}
    = (inl (), w')
    ∧ fault w' = [(0%nat, "Lock wait timeout exceeded")].
Proof.
  destruct (item_field_coalescing 1 zero_product_item
              {| sys := begun_world; fault := [(1%nat, "Lock wait timeout exceeded")] |})
    as (_ & Hskip & _).
  apply Hskip; reflexivity.
Defined.
(** * Self-service cancellation *)

(** The order has the requested id, belongs to the user and is [pending] or
    [processing]. *)
Definition cancellable_by (uid id : Z) (o : order_row) : Prop :=
  order_id o = id ∧ order_user_id o = uid
  ∧ (status o = pending ∨ status o = processing).

(** What the UPDATE of the handler makes of one row. *)
Definition cancelled_for (uid id : Z) (o : order_row) : order_row :=
  if (order_id o =? id) && (order_user_id o =? uid) then set_status cancelled o else o.

Lemma elem_of_select_cancellable id uid d o :
  o ∈ select_cancellable id uid d ↔ o ∈ orders d ∧ cancellable_by uid id o.
Proof.
  unfold select_cancellable, cancellable_by.
  rewrite !list_elem_of_In, filter_In, !andb_true_iff, !Z.eqb_eq.
  destruct (status o); cbn; intuition congruence.
Qed.

Lemma cancel_order_inl clerkId id (w : world) res (w' : world) :
  cancel_order clerkId id w = (inl res, w') →
  match head (select_users_by_clerk_id clerkId (committed w)) with
  | None => status_code res = 404 ∧ sys w' = sys w
  | Some user =>
      match select_cancellable id (user_id user) (committed w) with
      | [] => status_code res = 404 ∧ sys w' = sys w
      | _ :: _ =>
          res = ok "Order cancelled successfully"
          ∧ sys w' = set_committed (update_cancelled id (user_id user) (committed w)).2 w
      end
  end.
Proof.
  unfold cancel_order. intros H.
  apply bind_inl in H as (user & w1 & Eu & H).
  apply getUserByClerkId_inl in Eu as [-> Hs1].
  destruct (head _) as [user|]; [|by injection H as <- <-].
  apply bind_inl in H as (existingOrders & w2 & E & H).
  apply pool_read_inl in E as [-> Hs2]. rewrite Hs1 in H, Hs2.
  destruct (select_cancellable id (user_id user) (committed w)) as [|o os].
  - injection H as <- <-. by rewrite Hs2.
  - apply bind_inl in H as ([] & w3 & E & H). apply pool_write_inl in E as [_ Hs3].
    injection H as <- <-. by rewrite Hs3, Hs2.
Qed.

Lemma cancel_order_inr clerkId id (w : world) e (w' : world) :
  cancel_order clerkId id w = (inr e, w') → sys w' = sys w.
Proof.
  unfold cancel_order. intros H.
  apply bind_inr in H as [Eu | (user & w1 & Eu & H)];
    [by apply getUserByClerkId_sys in Eu|].
  apply getUserByClerkId_sys in Eu.
  destruct user as [user|]; [|discriminate].
  apply bind_inr in H as [E | (existingOrders & w2 & E & H)];
    apply pool_read_sys in E; [congruence|].
  destruct existingOrders as [|o os]; [discriminate|].
  apply bind_inr in H as [E' | ([] & w3 & E' & H)]; [|discriminate].
  apply pool_write_inr in E'. congruence.
Qed.

Lemma cancel_order_ok clerkId id (w : world) user o :
  fault w = [] →
  head (select_users_by_clerk_id clerkId (committed w)) = Some user →
  o ∈ orders (committed w) → cancellable_by (user_id user) id o →
  ∃ w' : world, cancel_order clerkId id w = (inl (ok "Order cancelled successfully"), w').
Proof.
  intros Hf Hu Ho Hc. unfold cancel_order.
  rewrite (bind_step _ _ _ _ _ (getUserByClerkId_ok _ _ Hf)), Hu.
  rewrite (bind_step _ _ _ _ _ (pool_read_ok _ _ Hf)).
  assert (Hin : o ∈ select_cancellable id (user_id user) (committed w))
    by (by apply elem_of_select_cancellable).
  destruct (select_cancellable id (user_id user) (committed w)) as [|o1 os];
    [by apply elem_of_nil in Hin|].
  rewrite (bind_step _ _ _ _ _ (pool_write_ok _ _ Hf)). eexists. reflexivity.
Qed.

Lemma cancellation_outcomes clerkId id (w : world) res (w' : world) :
  patch_orders_cancel clerkId id w = (res, w') →
  (status_code res = 200 →
     ∃ user o,
       head (select_users_by_clerk_id clerkId (committed w)) = Some user
       ∧ o ∈ orders (committed w) ∧ cancellable_by (user_id user) id o
       ∧ sys w' = set_committed (update_cancelled id (user_id user) (committed w)).2 w)
  ∧ (status_code res ≠ 200 → committed w' = committed w).
Proof.
  unfold patch_orders_cancel. intros Hrun.
  destruct (cancel_order clerkId id w) as [[res0|e] w1] eqn:E; injection Hrun as <- <-.
  - pose proof (cancel_order_inl _ _ _ _ _ E) as Hinv.
    destruct (head (select_users_by_clerk_id clerkId (committed w))) as [user|].
    + destruct (select_cancellable id (user_id user) (committed w)) as [|o os] eqn:Esel.
      * destruct Hinv as [H404 ->]. split; [intros; congruence | done].
      * destruct Hinv as [-> Hs]. split; [|done]. intros _.
        assert (Hin : o ∈ select_cancellable id (user_id user) (committed w))
          by (rewrite Esel; left).
        apply elem_of_select_cancellable in Hin as [Ho Hc]. eauto 6.
    + destruct Hinv as [H404 ->]. split; [intros; congruence | done].
  - apply cancel_order_inr in E. split; [discriminate | by rewrite E].
Qed.

(** The user a request speaks for: the first row of [users] whose
    [clerk_id] is the Clerk id of the caller. *)
Definition requester (clerkId : string) (d : database) (user : user_row) : Prop :=
  clerk_id user = clerkId
  ∧ ∃ before after,
      users d = before ++ user :: after
      ∧ ∀ u, u ∈ before → clerk_id u ≠ clerkId.

Lemma head_filter_split {A} (f : A → bool) (l : list A) x :
  head (List.filter f l) = Some x ↔
  f x = true ∧ ∃ before after, l = before ++ x :: after ∧ ∀ y, y ∈ before → f y = false.
Proof.
  induction l as [|y l IH]; cbn.
  - split; [discriminate|]. intros (_ & before & after & E & _). by destruct before.
  - destruct (f y) eqn:Ey; cbn.
    + split.
      * intros [= ->]. split; [done|]. exists [], l. split; [done|].
        intros z Hz. by apply elem_of_nil in Hz.
      * intros (Hx & before & after & E & Hnone). destruct before as [|z before].
        -- by injection E as ->.
        -- injection E as <- _. rewrite Hnone in Ey; [discriminate | left].
    + rewrite IH. split.
      * intros (Hx & before & after & -> & Hnone). split; [done|].
        exists (y :: before), after. split; [done|].
        intros z Hz. apply elem_of_cons in Hz as [->|Hz]; [done | by apply Hnone].
      * intros (Hx & before & after & E & Hnone). split; [done|].
        destruct before as [|z before].
        -- injection E as -> _. congruence.
        -- injection E as <- ->. exists before, after. split; [done|].
           intros u Hu. apply Hnone. by right.
Qed.

(** The lookup of the handler finds the requester. *)
Lemma getUserByClerkId_requester clerkId d user :
  head (select_users_by_clerk_id clerkId d) = Some user ↔ requester clerkId d user.
Proof.
  unfold select_users_by_clerk_id, requester. rewrite head_filter_split.
  rewrite String.eqb_eq. split.
  - intros (Hc & before & after & E & Hnone). split; [done|].
    exists before, after. split; [done|]. intros u Hu. apply String.eqb_neq. by apply Hnone.
  - intros (Hc & before & after & E & Hnone). split; [done|].
    exists before, after. split; [done|]. intros u Hu. apply String.eqb_neq. by apply Hnone.
Qed.

(** C8: self-service cancellation.  The request succeeds only if an order
    with that id belongs to the requesting user, the user registered under
    the caller's Clerk id, and is [pending] or [processing]; it does succeed
    then, unless a round trip to the store fails.  On success every order
    with that id and user has status [cancelled], and nothing else in the
    store has changed: no order of another user, whatever its id; with
    [order_id] a key, the order cancelled is the eligible one.  A request
    that does not succeed leaves the whole store, and so every status, as it
    was; this is the case whenever the requesting user has no eligible order
    with that id, for one that is [shipped], say, or one that belongs to
    somebody else. *)
Theorem self_service_cancellation clerkId id (w : world) res (w' : world) :
  patch_orders_cancel clerkId id w = (res, w') →
  (status_code res = 200 →
     ∃ user o,
       requester clerkId (committed w) user
       ∧ o ∈ orders (committed w) ∧ cancellable_by (user_id user) id o
       ∧ orders (committed w') = cancelled_for (user_id user) id <$> orders (committed w)
       ∧ (∀ o', o' ∈ orders (committed w) → order_user_id o' ≠ user_id user →
            cancelled_for (user_id user) id o' = o')
       ∧ users (committed w') = users (committed w)
       ∧ addresses (committed w') = addresses (committed w)
       ∧ order_items (committed w') = order_items (committed w)
       ∧ product_variants (committed w') = product_variants (committed w)
       ∧ (NoDup (order_id <$> orders (committed w)) →
          ∀ o', o' ∈ orders (committed w) →
            cancelled_for (user_id user) id o'
            = if bool_decide (o' = o) then set_status cancelled o else o'))
  ∧ (fault w = [] →
     ∀ user o,
       requester clerkId (committed w) user →
       o ∈ orders (committed w) → cancellable_by (user_id user) id o →
       status_code res = 200)
  ∧ (status_code res ≠ 200 → committed w' = committed w)
  ∧ (∀ user,
       requester clerkId (committed w) user →
       (∀ o, o ∈ orders (committed w) → ¬ cancellable_by (user_id user) id o) →
       status_code res ≠ 200 ∧ committed w' = committed w).
Proof.
  intros Hrun. destruct (cancellation_outcomes _ _ _ _ _ Hrun) as [Hdone Hrejected].
  split_and!.
  - intros H200. destruct (Hdone H200) as (user & o & Hu & Ho & Hc & Hs).
    apply getUserByClerkId_requester in Hu.
    exists user, o. rewrite Hs. cbn. split_and!; try done.
    + intros o' _ Hother. unfold cancelled_for.
      apply Z.eqb_neq in Hother. by rewrite Hother, andb_false_r.
    + intros Hnd o' Ho'. unfold cancelled_for.
      destruct Hc as (Hid & Huid & _). case_bool_decide as Heq.
      * subst o'. by rewrite Hid, Huid, !Z.eqb_refl.
      * destruct (Z.eqb_spec (order_id o') id) as [Hid'|]; [|done].
        destruct Heq. eapply (NoDup_key_inj order_id); eauto. congruence.
  - intros Hf user o Hu Ho Hc. unfold patch_orders_cancel in Hrun.
    apply getUserByClerkId_requester in Hu.
    destruct (cancel_order_ok clerkId id w user o Hf Hu Ho Hc) as [w2 E2].
    rewrite E2 in Hrun. by injection Hrun as <- _.
  - done.
  - intros user Hu Hnone. apply getUserByClerkId_requester in Hu.
    assert (Hne : status_code res ≠ 200).
    { intros H200. destruct (Hdone H200) as (user' & o & Hu' & Ho & Hc & _).
      rewrite Hu in Hu'. injection Hu' as <-. by apply (Hnone o). }
    auto.
Qed.

(** Two users with one pending order each. *)
Definition two_user_database : database :=
  {| users := [ {| user_id := 1; clerk_id := "clerk_u1" |};
                {| user_id := 2; clerk_id := "clerk_u2" |} ];
     addresses := [];
     orders :=
       [ {| order_id := 1; order_user_id := 1; total_amount := Some 500; status := pending;
            shipping_address_id := 7; billing_address_id := 7;
            tracking_number := "TRK112345" |};
         {| order_id := 2; order_user_id := 2; total_amount := Some 900; status := pending;
            shipping_address_id := 8; billing_address_id := 8;
            tracking_number := "TRK5678901245" |} ];
     order_items := [];
     product_variants := {[ 5 := 10 ]};
     next_address_id := 9;
     next_order_id := 3;
     next_order_item_id := 1 |}.

Definition two_user_world : world :=
  {| sys := set_committed two_user_database sample_world; fault := [] |}.

Lemma requester_second_user :
  requester "clerk_u2" two_user_database {| user_id := 2; clerk_id := "clerk_u2" |}.
Proof.
  split; [reflexivity|].
  exists [ {| user_id := 1; clerk_id := "clerk_u1" |} ], []. split; [reflexivity|].
  intros u Hu. apply list_elem_of_singleton in Hu as ->. discriminate.
Qed.

(** The second user cancels the own order 2, and cannot cancel order 1 of
    the first user although it is pending. *)
Lemma self_service_cancellation_witness :
  status_code (patch_orders_cancel "clerk_u2" 2 two_user_world).1 = 200
  ∧ status <$> orders (committed (patch_orders_cancel "clerk_u2" 2 two_user_world).2)
    = [pending; cancelled]
  ∧ status_code (patch_orders_cancel "clerk_u2" 1 two_user_world).1 ≠ 200
  ∧ committed (patch_orders_cancel "clerk_u2" 1 two_user_world).2 = two_user_database.
Proof.
  destruct (self_service_cancellation "clerk_u2" 2 two_user_world
              (patch_orders_cancel "clerk_u2" 2 two_user_world).1
              (patch_orders_cancel "clerk_u2" 2 two_user_world).2
              (surjective_pairing _))
    as (Honly & Hif & _).
  destruct (self_service_cancellation "clerk_u2" 1 two_user_world
              (patch_orders_cancel "clerk_u2" 1 two_user_world).1
              (patch_orders_cancel "clerk_u2" 1 two_user_world).2
              (surjective_pairing _))
    as (_ & _ & _ & Hforeign).
  assert (H200 : status_code (patch_orders_cancel "clerk_u2" 2 two_user_world).1 = 200).
  { apply (Hif eq_refl {| user_id := 2; clerk_id := "clerk_u2" |}
             {| order_id := 2; order_user_id := 2; total_amount := Some 900;
                status := pending; shipping_address_id := 8; billing_address_id := 8;
                tracking_number := "TRK5678901245" |}).
    - exact requester_second_user.
    - right. left.
    - split; [reflexivity|]. split; [reflexivity|]. left. reflexivity. }
  split; [exact H200|]. split.
  - destruct (Honly H200) as (user & o & Hu & _ & _ & Horders & _).
    apply getUserByClerkId_requester in Hu. injection Hu as <-.
    rewrite Horders. reflexivity.
  - apply (Hforeign {| user_id := 2; clerk_id := "clerk_u2" |} requester_second_user).
    intros o Ho (Hid & Huid & _).
    apply elem_of_cons in Ho as [->|Ho]; [discriminate|].
    apply list_elem_of_singleton in Ho as ->. discriminate.
Defined.

(** * What order creation keeps, in every outcome *)

(** ** Every way [post_orders] can end *)

(** Either the committed store is the one before the request, or steps 1 to
    5 completed and their working copy was committed. *)
Lemma post_orders_outcomes (req : request) (w : world) out (w' : world) :
  txn w = None →
  post_orders req w = (out, w') →
  (∀ res, out = inl res → txn w' = None)
  ∧ (committed w' = committed w
     ∨ ∃ its sa ba user (w0 w1 : world) orderId,
         items req = ItemsArray its ∧ its ≠ []
         ∧ shipping_address req = Some sa ∧ billing_address req = Some ba
         ∧ head (select_users_by_clerk_id (clerk_user_id req) (committed w)) = Some user
         ∧ sys w0 = set_txn (Some (committed w)) w
         ∧ create_order user its sa ba (total req) w0 = (inl orderId, w1)
         ∧ committed w' = current w1).
Proof.
  intros Ht Hpost.
  assert (Hcatch : ∀ e (w3 : world),
            failed_to_create true e w3 = (out, w') →
            (∀ res, out = inl res → txn w' = None) ∧ committed w' = committed w3).
  { intros e w3 H. split; [|by apply failed_to_create_committed in H].
    intros res ->. by apply failed_to_create_inl in H as [_ ->]. }
  destruct (post_orders_run _ _ _ _ Hpost)
    as [(_ & -> & _)
       |(its & sa & ba & Hits & Hne & Hsa & Hba
         & [(e & Eu & ->)|[(Eu & ->)|(user & wa & Eu & Hrest)]])].
  - auto.
  - apply getUserByClerkId_sys in Eu. rewrite Eu. auto.
  - apply getUserByClerkId_sys in Eu. rewrite Eu. auto.
  - pose proof Eu as Hu. apply getUserByClerkId_inl in Hu as [Hu Hwa].
    destruct Hrest as [(e & Ec & ->)|(wb & Ec & Hrest)].
    { apply round_trip_sys in Ec. rewrite Ec, Hwa. auto. }
    destruct Hrest as [(e & w3 & Eb & Hfail)|(w0 & Eb & Hrest)].
    { destruct (Hcatch _ _ Hfail) as [Htx Hc]. split; [done|]. left.
      unfold beginTransaction in Eb. apply bind_inr in Eb as [Eb|([] & ? & _ & ?)];
        [|discriminate].
      apply round_trip_sys in Eb, Ec. rewrite Hc, Eb, Ec, Hwa. done. }
    pose proof (begun_sys _ _ _ _ _ _ Ht Eu Ec Eb) as H0.
    destruct (create_order user its sa ba (total req) w0) as [r w1] eqn:Esteps.
    assert (Ht0 : is_Some (txn w0)) by (rewrite H0; cbn; eauto).
    assert (Hc0 : committed w0 = committed w) by (by rewrite H0).
    assert (Hcommitted : ∀ w2 : world, committed w2 = current w1 →
              ∀ orderId, r = inl orderId →
              ∃ its0 sa0 ba0 user0 (w00 w10 : world) orderId0,
                items req = ItemsArray its0 ∧ its0 ≠ []
                ∧ shipping_address req = Some sa0 ∧ billing_address req = Some ba0
                ∧ head (select_users_by_clerk_id (clerk_user_id req) (committed w))
                  = Some user0
                ∧ sys w00 = set_txn (Some (committed w)) w
                ∧ create_order user0 its0 sa0 ba0 (total req) w00 = (inl orderId0, w10)
                ∧ committed w2 = current w10).
    { intros w2 Hc orderId ->. exists its, sa, ba, user, w0, w1, orderId.
      split_and!; done. }
    destruct Hrest as [(res & Etx & ->)|(e & w3 & Etx & Hfail)].
    + destruct (in_transaction_outcome _ _ _ _ _ _ _ _ Ht0 Esteps _ _ Etx)
        as (_ & Hfailed & Hdone).
      destruct r as [orderId|e].
      * destruct (Hdone orderId eq_refl) as [Hres _].
        destruct (Hres _ eq_refl) as (Hc & Ht2 & _). split; [done|]. right. eauto.
      * destruct (Hfailed e eq_refl) as (_ & [[? _]|(? & _ & ?)] & _); discriminate.
    + destruct (Hcatch _ _ Hfail) as [Htx Hc]. split; [done|].
      destruct (in_transaction_outcome _ _ _ _ _ _ _ _ Ht0 Esteps _ _ Etx)
        as (_ & Hfailed & Hdone).
      destruct r as [orderId|e0].
      * destruct (Hdone orderId eq_refl) as [_ Herr].
        destruct (Herr _ eq_refl) as [Hc3|[Hc3 _]].
        -- left. congruence.
        -- right. eapply Hcommitted; [congruence | reflexivity].
      * destruct (Hfailed e0 eq_refl) as (Hc3 & _). left. congruence.
Qed.

Lemma head_select_users clerkId d user :
  head (select_users_by_clerk_id clerkId d) = Some user →
  user ∈ users d ∧ clerk_id user = clerkId.
Proof.
  intros H. assert (Hin : user ∈ select_users_by_clerk_id clerkId d).
  { destruct (select_users_by_clerk_id clerkId d); [discriminate|].
    injection H as ->. left. }
  unfold select_users_by_clerk_id in Hin.
  apply list_elem_of_In, filter_In in Hin as [Hin E].
  split; [by apply list_elem_of_In | by apply String.eqb_eq].
Qed.

(** A property of the store that completed steps 1 to 5 keep is kept by
    [post_orders] in every outcome. *)
Lemma post_orders_preserves (P : database → Prop) (req : request) (w : world)
    out (w' : world) :
  (∀ its sa ba user (w0 w1 : world) orderId,
     its ≠ [] → user ∈ users (current w0) → P (current w0) →
     create_order user its sa ba (total req) w0 = (inl orderId, w1) →
     P (current w1)) →
  txn w = None →
  post_orders req w = (out, w') →
  P (committed w) → P (committed w').
Proof.
  intros Hstep Ht Hpost HP.
  destruct (post_orders_outcomes _ _ _ _ Ht Hpost) as [_ [->|Hdone]]; [done|].
  destruct Hdone as (its & sa & ba & user & w0 & w1 & orderId
                     & _ & Hne & _ & _ & Hu & H0 & Hsteps & ->).
  assert (Hc0 : current w0 = committed w) by (by rewrite H0).
  apply head_select_users in Hu as [Hu _].
  eapply Hstep; eauto; by rewrite Hc0.
Qed.

(** ** Steps 1 to 5, table by table *)

Lemma resolve_address_owner role uid a (w : world) id (w' : world) :
  resolve_address role uid a w = (inl id, w') →
  addresses (current w) `prefix_of` addresses (current w')
  ∧ next_address_id (current w) ≤ next_address_id (current w')
  ∧ ∃ r, r ∈ addresses (current w') ∧ address_id r = id ∧ address_user_id r = uid.
Proof.
  intros H. apply resolve_address_inl in H.
  destruct (select_addresses uid a (current w)) as [|r rest] eqn:Esel.
  - destruct H as [-> ->]. rewrite current_put_current. cbn. split_and!.
    + by apply prefix_app_r.
    + lia.
    + eexists. split; [apply elem_of_app; right; by apply list_elem_of_singleton|]. done.
  - destruct H as [-> ->]. split_and!; [done | lia |].
    assert (Hr : r ∈ select_addresses uid a (current w)) by (rewrite Esel; left).
    apply elem_of_select_addresses in Hr as [Hin [Hu _]]. eauto.
Qed.

Lemma create_order_full user its sa ba total (w0 : world) orderId (w1 : world) :
  create_order user its sa ba total w0 = (inl orderId, w1) →
  ∃ sid bid t (wA wB : world),
    resolve_address Shipping (user_id user) sa w0 = (inl sid, wA)
    ∧ resolve_address Billing (user_id user) ba wA = (inl bid, wB)
    ∧ ¬ taken (current w0) t
    ∧ orderId = next_order_id (current w0)
    ∧ users (current w1) = users (current w0)
    ∧ addresses (current w1) = addresses (current wB)
    ∧ next_address_id (current w1) = next_address_id (current wB)
    ∧ orders (current w1)
      = orders (current w0) ++ [new_order_row (user_id user) total sid bid t orderId]
    ∧ order_items (current w1)
      = order_items (current w0)
        ++ new_order_item_rows orderId its (next_order_item_id (current w0))
    ∧ next_order_id (current w1) = next_order_id (current w0) + 1
    ∧ next_order_item_id (current w1)
      = next_order_item_id (current w0) + Z.of_nat (length its).
Proof.
  intros H.
  apply create_order_inl in H as (sid & bid & t & wA & wB & wT & wO & E1 & E2 & E3 & E4 & E5).
  pose proof (resolve_address_frame _ _ _ _ _ _ E1) as ((U1 & O1 & I1 & V1 & N1 & M1) & D1 & S1).
  pose proof (resolve_address_frame _ _ _ _ _ _ E2) as ((U2 & O2 & I2 & V2 & N2 & M2) & D2 & S2).
  apply allocate_tracking_number_inl in E3 as [Hfree Hcase].
  assert (HcT : current wT = current wB).
  { destruct Hcase as [(k & _ & _ & _ & ->)|(_ & _ & ->)]; reflexivity. }
  apply conn_write_current in E4 as [Hid HcO]. cbn [insert_order fst snd] in Hid, HcO.
  subst orderId.
  apply for_each_place_item_inl in E5 as (Hc1 & _ & _).
  destruct (foldl_place_item_db_frame (next_order_id (current wT)) its (current wO))
    as (U5 & A5 & O5 & NA5 & N5 & I5 & NI5).
  rewrite <- Hc1 in U5, A5, O5, NA5, N5, I5, NI5.
  rewrite HcO in U5, A5, O5, NA5, N5, I5, NI5.
  cbn in U5, A5, O5, NA5, N5, I5, NI5. rewrite HcT in *.
  assert (Ho : orders (current wB) = orders (current w0)) by congruence.
  exists sid, bid, t, wA, wB. split_and!; try done.
  - by rewrite <- (taken_orders _ _ _ Ho).
  - congruence.
  - congruence.
  - rewrite O5. congruence.
  - rewrite I5. congruence.
  - rewrite N5. congruence.
  - rewrite NI5. congruence.
Qed.

(** ** Primary keys *)

(** Every table's key is unique and below the AUTO_INCREMENT value of its
    table, and line items refer to orders below that of [orders]. *)
Definition store_keys_ok (d : database) : Prop :=
  address_keys_ok d
  ∧ order_keys_ok d
  ∧ NoDup (order_id <$> orders d)
  ∧ NoDup (order_item_id <$> order_items d)
  ∧ Forall (λ r, order_item_id r < next_order_item_id d) (order_items d).

Lemma elem_of_new_order_item_rows orderId its next r :
  r ∈ new_order_item_rows orderId its next ↔
  ∃ (i : nat) it, its !! i = Some it
                  ∧ r = new_order_item_row orderId it (next + Z.of_nat i).
Proof.
  unfold new_order_item_rows. rewrite elem_of_lookup_imap.
  split; intros (i & it & H1 & H2); eauto.
Qed.

Lemma NoDup_new_order_item_rows orderId its next :
  NoDup (order_item_id <$> new_order_item_rows orderId its next).
Proof.
  apply NoDup_alt. intros i j x. rewrite !list_lookup_fmap, !new_order_item_rows_lookup.
  destruct (its !! i) as [a|] eqn:Ei, (its !! j) as [b|] eqn:Ej; cbn; try discriminate.
  intros [= <-] [= E]. lia.
Qed.

Lemma create_order_keys user its sa ba total (w0 : world) orderId (w1 : world) :
  create_order user its sa ba total w0 = (inl orderId, w1) →
  store_keys_ok (current w0) → store_keys_ok (current w1).
Proof.
  intros H (Hak & [Hok Hfk] & Hnd & Hind & Hilt).
  destruct (create_order_full _ _ _ _ _ _ _ _ H)
    as (sid & bid & t & wA & wB & E1 & E2 & _ & -> & _ & Ha & Hna & Ho & Hi & Hno & Hni).
  destruct (resolve_address_row _ _ _ _ _ _ E1 Hak) as [HakA _].
  destruct (resolve_address_row _ _ _ _ _ _ E2 HakA) as [HakB _].
  rewrite Forall_forall in Hok. rewrite Forall_forall in Hfk.
  rewrite Forall_forall in Hilt.
  unfold store_keys_ok, address_keys_ok, order_keys_ok.
  rewrite Ha, Hna, Ho, Hi, Hno, Hni. split_and!.
  - apply HakB.
  - apply HakB.
  - apply Forall_app. split.
    + apply Forall_forall. intros o Hin. apply Hok in Hin. lia.
    + apply Forall_singleton. cbn. lia.
  - apply Forall_app. split.
    + apply Forall_forall. intros r Hin. apply Hfk in Hin. lia.
    + apply Forall_forall. intros r (i & it & _ & ->)%elem_of_new_order_item_rows.
      cbn. lia.
  - rewrite fmap_app. apply NoDup_app. split_and!; [done | | apply NoDup_singleton].
    intros x (o & -> & Hin)%list_elem_of_fmap E%list_elem_of_singleton.
    apply Hok in Hin. cbn in E. lia.
  - rewrite fmap_app. apply NoDup_app.
    split_and!; [done | | apply NoDup_new_order_item_rows].
    intros x (r & -> & Hin)%list_elem_of_fmap (r' & E & Hin')%list_elem_of_fmap.
    apply elem_of_new_order_item_rows in Hin' as (i & it & _ & ->).
    apply Hilt in Hin. cbn in E. lia.
  - apply Forall_app. split.
    + apply Forall_forall. intros r Hin. apply Hilt in Hin. lia.
    + apply Forall_forall. intros r (i & it & Hit & ->)%elem_of_new_order_item_rows.
      apply lookup_lt_Some in Hit. cbn. lia.
Qed.

(** X1: whatever [post_orders] answers, it leaves the keys of all tables in
    order: [address_id], [order_id] and [order_item_id] stay unique and
    below their AUTO_INCREMENT values, and every line item refers to an
    order id below that of [orders]. *)
Theorem post_orders_keeps_keys (req : request) (w : world) out (w' : world) :
  txn w = None →
  post_orders req w = (out, w') →
  store_keys_ok (committed w) → store_keys_ok (committed w').
Proof.
  intros Ht Hpost. apply (post_orders_preserves store_keys_ok req w out w'); [|done..].
  intros its sa ba user w0 w1 orderId _ _ Hok Hsteps.
  by eapply create_order_keys.
Qed.

Lemma sample_database_store_keys_ok : store_keys_ok sample_database.
Proof. repeat split; constructor. Qed.

Lemma post_orders_keeps_keys_witness :
  store_keys_ok (committed (post_orders sample_request sample_world).2).
Proof.
  apply (post_orders_keeps_keys sample_request sample_world
           (post_orders sample_request sample_world).1).
  - reflexivity.
  - apply surjective_pairing.
  - exact sample_database_store_keys_ok.
Defined.

(** ** Tracking numbers *)

(** No two orders carry the same tracking number. *)
Definition tracking_unique (d : database) : Prop :=
  NoDup (tracking_number <$> orders d).

Lemma not_taken d t : ¬ taken d t ↔ t ∉ tracking_number <$> orders d.
Proof.
  unfold taken. split.
  - intros Hfree (o & -> & Hin)%list_elem_of_fmap. apply Hfree. by exists o.
  - intros Hnot (o & Hin & <-). apply Hnot, list_elem_of_fmap. by exists o.
Qed.

(** X2: [post_orders] keeps tracking numbers pairwise distinct: if no two
    orders share a tracking number before the request, none do after it,
    whatever the response. *)
Theorem post_orders_keeps_tracking_unique (req : request) (w : world) out (w' : world) :
  txn w = None →
  post_orders req w = (out, w') →
  tracking_unique (committed w) → tracking_unique (committed w').
Proof.
  intros Ht Hpost. apply (post_orders_preserves tracking_unique req w out w'); [|done..].
  intros its sa ba user w0 w1 orderId _ _ Hnd Hsteps.
  destruct (create_order_full _ _ _ _ _ _ _ _ Hsteps)
    as (sid & bid & t & wA & wB & _ & _ & Hfree & _ & _ & _ & _ & Ho & _).
  unfold tracking_unique. rewrite Ho, fmap_app. apply NoDup_app.
  split_and!; [done | | apply NoDup_singleton].
  intros x Hx E%list_elem_of_singleton. cbn in E. subst x. by apply not_taken in Hfree.
Qed.

Lemma post_orders_keeps_tracking_unique_witness :
  tracking_unique (committed (post_orders sample_request exhausted_world).2)
  ∧ tracking_unique (committed (post_orders sample_request sample_world).2).
Proof.
  split.
  - apply (post_orders_keeps_tracking_unique sample_request exhausted_world
             (post_orders sample_request exhausted_world).1).
    + reflexivity.
    + apply surjective_pairing.
    + unfold tracking_unique. cbn. apply NoDup_cons. split.
      * intros Hin%list_elem_of_singleton. discriminate.
      * apply NoDup_singleton.
  - apply (post_orders_keeps_tracking_unique sample_request sample_world
             (post_orders sample_request sample_world).1).
    + reflexivity.
    + apply surjective_pairing.
    + constructor.
Defined.

(** ** Orders, their line items and what they refer to *)

(** Every order has at least one line item. *)
Definition orders_have_items (d : database) : Prop :=
  Forall (λ o, ∃ r, r ∈ order_items d ∧ item_order_id r = order_id o) (orders d).

(** X3: [post_orders] never leaves an order without line items: if every
    order has at least one before the request, every order has at least one
    after it, whatever the response. *)
Theorem post_orders_keeps_orders_nonempty (req : request) (w : world) out (w' : world) :
  txn w = None →
  post_orders req w = (out, w') →
  orders_have_items (committed w) → orders_have_items (committed w').
Proof.
  intros Ht Hpost. apply (post_orders_preserves orders_have_items req w out w'); [|done..].
  intros its sa ba user w0 w1 orderId Hne _ Hinv Hsteps.
  destruct (create_order_full _ _ _ _ _ _ _ _ Hsteps)
    as (sid & bid & t & wA & wB & _ & _ & _ & _ & _ & _ & _ & Ho & Hi & _).
  unfold orders_have_items. rewrite Ho, Hi. apply Forall_app. split.
  - eapply Forall_impl; [exact Hinv|]. cbn. intros o (r & Hr & E).
    exists r. split; [apply elem_of_app; by left | done].
  - apply Forall_singleton. cbn.
    destruct its as [|it its]; [done|].
    exists (new_order_item_row orderId it (next_order_item_id (current w0) + Z.of_nat 0)).
    split; [|done]. apply elem_of_app. right.
    apply elem_of_new_order_item_rows. by exists 0%nat, it.
Qed.

Lemma post_orders_keeps_orders_nonempty_witness :
  orders_have_items (committed (post_orders sample_request sample_world).2).
Proof.
  apply (post_orders_keeps_orders_nonempty sample_request sample_world
           (post_orders sample_request sample_world).1).
  - reflexivity.
  - apply surjective_pairing.
  - constructor.
Defined.

(** The user of every order exists, and so do its shipping and billing
    addresses, both owned by that user. *)
Definition owned_address (d : database) (uid id : Z) : Prop :=
  ∃ a, a ∈ addresses d ∧ address_id a = id ∧ address_user_id a = uid.

Definition references_resolve (d : database) : Prop :=
  Forall
    (λ o, (∃ u, u ∈ users d ∧ user_id u = order_user_id o)
          ∧ owned_address d (order_user_id o) (shipping_address_id o)
          ∧ owned_address d (order_user_id o) (billing_address_id o))
    (orders d).

Lemma owned_address_prefix d d' uid id :
  addresses d `prefix_of` addresses d' → owned_address d uid id → owned_address d' uid id.
Proof.
  intros [rest Hp] (a & Ha & E1 & E2). exists a. rewrite Hp.
  split; [apply elem_of_app; by left | done].
Qed.

(** X4: [post_orders] keeps the references of orders resolvable: the order
    it creates belongs to an existing user and points to a shipping and a
    billing address that exist and belong to that user, and the orders that
    were there keep theirs. *)
Theorem post_orders_keeps_references (req : request) (w : world) out (w' : world) :
  txn w = None →
  post_orders req w = (out, w') →
  references_resolve (committed w) → references_resolve (committed w').
Proof.
  intros Ht Hpost. apply (post_orders_preserves references_resolve req w out w'); [|done..].
  intros its sa ba user w0 w1 orderId _ Hu Hinv Hsteps.
  destruct (create_order_full _ _ _ _ _ _ _ _ Hsteps)
    as (sid & bid & t & wA & wB & E1 & E2 & _ & _ & Hus & Ha & _ & Ho & _).
  destruct (resolve_address_owner _ _ _ _ _ _ E1) as (P1 & _ & r1 & Hr1 & Hid1 & Hu1).
  destruct (resolve_address_owner _ _ _ _ _ _ E2) as (P2 & _ & r2 & Hr2 & Hid2 & Hu2).
  assert (P01 : addresses (current w0) `prefix_of` addresses (current w1))
    by (rewrite Ha; by etrans).
  unfold references_resolve. rewrite Ho. apply Forall_app. split.
  - eapply Forall_impl; [exact Hinv|]. cbn. intros o ((u & Hin & E) & Hs & Hb).
    split_and!; [exists u; by rewrite Hus | by eapply owned_address_prefix..].
  - apply Forall_singleton. cbn. split_and!.
    + exists user. by rewrite Hus.
    + apply (owned_address_prefix (current wA)); [rewrite Ha; done|]. by exists r1.
    + exists r2. by rewrite Ha.
Qed.

Lemma post_orders_keeps_references_witness :
  references_resolve (committed (post_orders sample_request sample_world).2).
Proof.
  apply (post_orders_keeps_references sample_request sample_world
           (post_orders sample_request sample_world).1).
  - reflexivity.
  - apply surjective_pairing.
  - constructor.
Defined.

(** ** When order creation succeeds *)

Lemma unique_tracking_loop_ok n (w : world) :
  fault w = [] →
  ∃ found (w' : world), unique_tracking_loop n w = (inl found, w') ∧ fault w' = [].
Proof.
  revert w. induction n as [|n IH]; intros w Hf; cbn [unique_tracking_loop].
  - eexists _, _. split; [reflexivity | done].
  - rewrite (bind_step _ _ _ _ _ (generate_run w)). cbv beta.
    rewrite (bind_step _ _ _ _ _
               (conn_read_ok _ {| sys := set_draws (S (draws w)) w; fault := fault w |} Hf)).
    destruct (select_orders_by_tracking _ _).
    + eexists _, _. split; [reflexivity | done].
    + by apply IH.
Qed.

Lemma allocate_tracking_number_ok (w : world) :
  fault w = [] →
  ¬ tracking_exhausted (current w) w →
  ∃ t (w' : world), allocate_tracking_number w = (inl t, w') ∧ fault w' = [].
Proof.
  intros Hf Hnot. unfold allocate_tracking_number.
  destruct (unique_tracking_loop_ok maxAttempts w Hf) as (found & w1 & Eloop & Hf1).
  rewrite (bind_step _ _ _ _ _ Eloop).
  pose proof (unique_tracking_loop_inl _ _ _ _ Eloop) as Hloop.
  destruct found as [t|]; [eexists _, _; split; [reflexivity | done]|].
  destruct Hloop as [Hall Hs].
  rewrite bind_run. unfold date_now, gets. rewrite bind_run, random_below_run.
  rewrite bind_run, conn_read_ok by done.
  rewrite Hs. cbn [sys clock random draws set_draws].
  change (current (set_draws _ (set_draws _ w))) with (current w).
  fold (fallback_candidate w).
  destruct (select_orders_by_tracking (fallback_candidate w) (current w)) eqn:Esel.
  - eexists _, _. split; [reflexivity | done].
  - destruct Hnot. split; [done|]. apply select_orders_by_tracking_taken. by rewrite Esel.
Qed.

Lemma for_each_place_item_ok orderId its (w : world) :
  fault w = [] →
  ∃ w' : world, for_each (place_item orderId) its w = (inl (), w') ∧ fault w' = [].
Proof.
  revert w. induction its as [|it its IH]; intros w Hf; cbn [for_each].
  - eexists. split; [reflexivity | done].
  - destruct (place_item_ok orderId it w Hf) as (w1 & E & Hf1).
    rewrite (bind_step _ _ _ _ _ E). by apply IH.
Qed.

Lemma create_order_ok user its sa ba total (w0 : world) :
  fault w0 = [] →
  ¬ tracking_exhausted (current w0) w0 →
  ∃ orderId (w1 : world),
    create_order user its sa ba total w0 = (inl orderId, w1) ∧ fault w1 = [].
Proof.
  intros Hf Hnot. unfold create_order.
  destruct (resolve_address_ok Shipping (user_id user) sa w0 Hf) as (sid & wA & E1 & HfA).
  destruct (resolve_address_ok Billing (user_id user) ba wA HfA) as (bid & wB & E2 & HfB).
  rewrite (bind_step _ _ _ _ _ E1), (bind_step _ _ _ _ _ E2).
  apply resolve_address_frame in E1 as ((_ & O1 & _) & D1 & S1).
  apply resolve_address_frame in E2 as ((_ & O2 & _) & D2 & S2).
  assert (Ho : orders (current wB) = orders (current w0)) by congruence.
  assert (S02 : same_inputs w0 wB) by (by etrans).
  assert (D02 : draws wB = draws w0) by congruence.
  destruct (allocate_tracking_number_ok wB HfB) as (t & wT & ET & HfT).
  { intros [Hall Hfall]. apply Hnot. split.
    - intros j Hj. rewrite <- (taken_orders _ _ _ Ho), <- (candidate_inputs w0 wB) by done.
      by apply Hall.
    - by rewrite <- (taken_orders _ _ _ Ho), <- (fallback_candidate_inputs w0 wB). }
  rewrite (bind_step _ _ _ _ _ ET), (bind_step _ _ _ _ _ (conn_write_ok _ _ HfT)).
  destruct (for_each_place_item_ok (insert_order (user_id user) total sid bid t (current wT)).1
              its {| sys := put_current (insert_order (user_id user) total sid bid t
                                           (current wT)).2 wT;
                     fault := fault wT |} HfT) as (w1 & E5 & Hf1).
  rewrite (bind_step _ _ _ _ _ E5). eexists _, _. split; [reflexivity | done].
Qed.

Lemma read_order_ok orderId (w : world) :
  fault w = [] →
  (∃ o, o ∈ orders (current w) ∧ order_id o = orderId) →
  ∃ order, read_order orderId w = (inl order, w).
Proof.
  intros Hf (o & Ho & Hid). unfold read_order.
  rewrite (bind_step _ _ _ _ _ (conn_read_ok _ _ Hf)).
  rewrite (bind_step _ _ _ _ _ (conn_read_ok _ _ Hf)).
  assert (Hin : In o (List.filter (λ o', order_id o' =? orderId) (orders (current w)))).
  { apply filter_In. split; [by apply list_elem_of_In | by apply Z.eqb_eq]. }
  unfold select_order.
  destruct (List.filter _ (orders (current w))) as [|o1 os]; [destruct Hin|].
  cbn. eexists. reflexivity.
Qed.

(** X5: order creation is complete.  A valid request (at least one item,
    both addresses) of a known user is answered 201 whenever no round trip
    to the store fails and the ten candidates and the fallback candidate
    are not all taken. *)
Theorem post_orders_succeeds (req : request) (w : world) its sa ba user :
  txn w = None → fault w = [] →
  items req = ItemsArray its → its ≠ [] →
  shipping_address req = Some sa → billing_address req = Some ba →
  head (select_users_by_clerk_id (clerk_user_id req) (committed w)) = Some user →
  ¬ tracking_exhausted (committed w) w →
  ∃ order (w' : world),
    post_orders req w = (inl (created order), w')
    ∧ order_id (view_order order) = next_order_id (committed w)
    ∧ fault w' = [].
Proof.
  intros Ht Hf Hits Hne Hsa Hba Hu Hnot.
  set (w0 := {| sys := set_txn (Some (current w)) w; fault := fault w |}).
  assert (Eu : getUserByClerkId (clerk_user_id req) w = (inl (Some user), w))
    by (by rewrite getUserByClerkId_ok, Hu).
  rewrite (post_orders_begun _ _ _ _ _ _ _ w0 _ Hits Hne Hsa Hba Eu
             (round_trip_no_fault _ Hf) (beginTransaction_ok _ Hf)).
  assert (Hc0 : current w0 = committed w) by (unfold w0, current; cbn; by rewrite Ht).
  destruct (create_order_ok user its sa ba (total req) w0) as (orderId & w1 & Es & Hf1).
  { done. }
  { by rewrite Hc0. }
  destruct (create_order_full _ _ _ _ _ _ _ _ Es)
    as (sid & bid & t & wA & wB & _ & _ & _ & Hid & _ & _ & _ & Ho & _).
  unfold in_transaction, try_catch.
  rewrite (bind_step _ _ _ _ _ Es).
  assert (Ecommit : commit w1
            = (inl (), {| sys := set_txn None (set_committed (current w1) w1);
                          fault := fault w1 |})).
  { unfold commit. by rewrite (bind_step _ _ _ _ _ (round_trip_no_fault _ Hf1)). }
  rewrite (bind_step _ _ _ _ _ Ecommit).
  set (wc := {| sys := set_txn None (set_committed (current w1) w1); fault := fault w1 |}).
  assert (Hcc : current wc = current w1) by reflexivity.
  destruct (read_order_ok orderId wc Hf1) as [order Eread].
  { rewrite Hcc, Ho. eexists. split; [apply elem_of_app; right; by left|]. done. }
  rewrite (bind_step _ _ _ _ _ Eread). cbn.
  exists order, wc. split_and!; [done | | done].
  apply read_order_inl in Eread as [_ [rest Hsel]].
  assert (Hin : In (view_order order, view_shipping order, view_billing order)
                  (select_order orderId (current wc))) by (rewrite Hsel; by left).
  unfold select_order in Hin. apply in_map_iff in Hin as (o & [= <- _ _] & Hin).
  apply filter_In in Hin as [_ E%Z.eqb_eq]. rewrite E, Hid. by rewrite Hc0.
Qed.

Lemma post_orders_succeeds_witness :
  ∃ order (w' : world),
    post_orders sample_request sample_world = (inl (created order), w')
    ∧ order_id (view_order order) = 1.
Proof.
  destruct (post_orders_succeeds sample_request sample_world [sample_item]
              sample_address sample_address {| user_id := 1; clerk_id := "clerk_u1" |})
    as (order & w' & Hpost & Hid & _).
  - reflexivity.
  - reflexivity.
  - reflexivity.
  - discriminate.
  - reflexivity.
  - reflexivity.
  - reflexivity.
  - intros [Hall _].
    destruct (Hall 0%nat ltac:(unfold maxAttempts; lia)) as (o & Hin & _).
    by apply elem_of_nil in Hin.
  - exists order, w'. split; [exact Hpost | exact Hid].
Defined.

(** X6: a valid request whose user is unknown is answered 404 "User not
    found" after the one lookup: no connection is taken, no transaction is
    opened and the world is left as it was. *)
Theorem post_orders_unknown_user (req : request) (w : world) it its sa ba :
  fault w = [] →
  items req = ItemsArray (it :: its) →
  shipping_address req = Some sa → billing_address req = Some ba →
  head (select_users_by_clerk_id (clerk_user_id req) (committed w)) = None →
  post_orders req w = (inl (not_found "User not found"), w).
Proof.
  intros Hf Hits Hsa Hba Hu. unfold post_orders. rewrite Hits, Hsa, Hba.
  by rewrite (getUserByClerkId_ok _ _ Hf), Hu.
Qed.

Definition stranger_request : request :=
  {| clerk_user_id := "clerk_nobody"; items := ItemsArray [sample_item];
     shipping_address := Some sample_address; billing_address := Some sample_address;
     total := val 2000 |}.

Lemma post_orders_unknown_user_witness :
  post_orders stranger_request sample_world
  = (inl (not_found "User not found"), sample_world).
Proof.
  apply (post_orders_unknown_user stranger_request sample_world sample_item []
           sample_address sample_address); reflexivity.
Defined.

(** X7: the response is sent after the commit.  If steps 1 to 5 and the
    commit succeed and the re-read throws, the order, its line items and the
    stock changes are committed all the same, whatever the handler does
    next.  No response it sends is a 201: it is the 500 of a failed
    creation, and when no round trip fails after the re-read it carries the
    error of the re-read. *)
Theorem post_orders_failure_after_commit (req : request) its sa ba user
    (w wa wb w0 w1 wc wr w' : world) orderId e out :
  txn w = None →
  items req = ItemsArray its → its ≠ [] →
  shipping_address req = Some sa → billing_address req = Some ba →
  getUserByClerkId (clerk_user_id req) w = (inl (Some user), wa) →
  getConnection wa = (inl (), wb) →
  beginTransaction wb = (inl (), w0) →
  create_order user its sa ba (total req) w0 = (inl orderId, w1) →
  commit w1 = (inl (), wc) →
  read_order orderId wc = (inr e, wr) →
  post_orders req w = (out, w') →
  committed w' = current w1
  ∧ (∃ o, orders (committed w') = orders (committed w) ++ [o] ∧ order_id o = orderId)
  ∧ (∀ res, out = inl res → generic_failure res)
  ∧ (fault wr = [] → out = inl (server_error "Failed to create order" e)).
Proof.
  intros Ht Hits Hne Hsa Hba Hu Hc Hb Hsteps Hcommit Hread Hpost.
  pose proof (begun_sys _ _ _ _ _ _ Ht Hu Hc Hb) as H0.
  assert (Hc0 : current w0 = committed w) by (by rewrite H0).
  rewrite (post_orders_begun _ _ _ _ _ _ _ _ _ Hits Hne Hsa Hba Hu Hc Hb) in Hpost.
  unfold in_transaction, try_catch in Hpost.
  rewrite (bind_step _ _ _ _ _ Hsteps), (bind_step _ _ _ _ _ Hcommit),
    (bind_throw _ _ _ _ _ Hread) in Hpost.
  pose proof (commit_inl _ _ _ Hcommit) as Hwc.
  pose proof (read_order_sys _ _ _ _ Hread) as Hwr.
  assert (Hcr : committed wr = current w1) by (by rewrite Hwr, Hwc).
  rewrite bind_run in Hpost.
  assert (Hcommitted : committed w' = current w1).
  { destruct (rollback wr) as [[[]|e1] wk] eqn:Erb;
      [apply rollback_inl in Erb | apply rollback_inr in Erb];
      apply failed_to_create_committed in Hpost; rewrite Hpost, Erb; done. }
  split; [done|]. split; [|split].
  - destruct (create_order_full _ _ _ _ _ _ _ _ Hsteps)
      as (sid & bid & t & wA & wB & _ & _ & _ & _ & _ & _ & _ & Ho & _).
    rewrite Hcommitted, Ho, Hc0. eexists. split; [reflexivity | done].
  - intros res ->.
    destruct (rollback wr) as [[[]|e1] wk];
      apply failed_to_create_inl in Hpost as [-> _]; done.
  - intros Hf. rewrite (rollback_ok _ Hf) in Hpost. unfold throw in Hpost.
    rewrite failed_to_create_ok in Hpost by done. by injection Hpost as <- _.
Qed.

Definition reread_fault_world : world :=
  {| sys := sample_world; fault := [(12%nat, "Connection lost")] |}.

Lemma post_orders_failure_after_commit_witness :
  (post_orders sample_request reread_fault_world).1
  = inl (server_error "Failed to create order" (Error "Connection lost"))
  ∧ ∃ o, orders (committed (post_orders sample_request reread_fault_world).2) = [o]
         ∧ order_id o = 1.
Proof.
  edestruct (post_orders_failure_after_commit sample_request [sample_item] sample_address
               sample_address {| user_id := 1; clerk_id := "clerk_u1" |}
               reread_fault_world)
    as (_ & (o & Ho & Hid) & _ & Hres).
  - reflexivity.
  - reflexivity.
  - discriminate.
  - reflexivity.
  - reflexivity.
  - vm_compute. reflexivity.
  - vm_compute. reflexivity.
  - vm_compute. reflexivity.
  - vm_compute. reflexivity.
  - vm_compute. reflexivity.
  - vm_compute. reflexivity.
  - apply surjective_pairing.
  - split; [exact (Hres eq_refl)|]. exists o. split; [exact Ho | exact Hid].
Defined.

(** ** Cancelling *)

Lemma cancelled_for_status uid id o :
  order_id o = id → order_user_id o = uid → status (cancelled_for uid id o) = cancelled.
Proof. intros <- <-. unfold cancelled_for. by rewrite !Z.eqb_refl. Qed.

Lemma cancelled_for_keys uid id o :
  order_id (cancelled_for uid id o) = order_id o
  ∧ order_user_id (cancelled_for uid id o) = order_user_id o.
Proof. unfold cancelled_for. by destruct (_ && _). Qed.

Lemma update_cancelled_orders id uid d :
  orders (update_cancelled id uid d).2 = cancelled_for uid id <$> orders d.
Proof. reflexivity. Qed.

(** X8: a cancelled order cannot be cancelled again.  After a successful
    self-service cancellation, the same request never succeeds a second
    time and leaves the store as the first one left it; when no round trip
    fails it is answered 404. *)
Theorem cancel_twice clerkId id (w w' w'' : world) res res' :
  patch_orders_cancel clerkId id w = (res, w') →
  status_code res = 200 →
  patch_orders_cancel clerkId id w' = (res', w'') →
  status_code res' ≠ 200
  ∧ committed w'' = committed w'
  ∧ (fault w' = [] → status_code res' = 404).
Proof.
  intros H1 H200 H2.
  destruct (cancellation_outcomes _ _ _ _ _ H1) as [Hdone _].
  destruct (Hdone H200) as (user & o & Hu & _ & _ & Hs).
  assert (Hc' : committed w' = (update_cancelled id (user_id user) (committed w)).2)
    by (by rewrite Hs).
  assert (Hu' : head (select_users_by_clerk_id clerkId (committed w')) = Some user)
    by (by rewrite Hc').
  assert (Hnone : select_cancellable id (user_id user) (committed w') = []).
  { destruct (select_cancellable id (user_id user) (committed w')) as [|o1 os] eqn:E; [done|].
    assert (Hin : o1 ∈ select_cancellable id (user_id user) (committed w'))
      by (rewrite E; left).
    apply elem_of_select_cancellable in Hin as [Hin (Hid & Huid & Hst)].
    rewrite Hc', update_cancelled_orders in Hin.
    apply list_elem_of_fmap in Hin as (o0 & -> & _).
    destruct (cancelled_for_keys (user_id user) id o0) as [K1 K2].
    rewrite K1 in Hid. rewrite K2 in Huid.
    rewrite (cancelled_for_status _ _ _ Hid Huid) in Hst. by destruct Hst. }
  assert (Hne : status_code res' ≠ 200).
  { intros H200'. destruct (cancellation_outcomes _ _ _ _ _ H2) as [Hdone2 _].
    destruct (Hdone2 H200') as (user2 & o2 & Hu2 & Ho2 & Hc2 & _).
    rewrite Hu' in Hu2. injection Hu2 as <-.
    assert (Hin : o2 ∈ select_cancellable id (user_id user) (committed w'))
      by (by apply elem_of_select_cancellable).
    rewrite Hnone in Hin. by apply elem_of_nil in Hin. }
  split; [done|]. split.
  - by destruct (cancellation_outcomes _ _ _ _ _ H2) as [_ ->].
  - intros Hf. unfold patch_orders_cancel, cancel_order in H2.
    rewrite (bind_step _ _ _ _ _ (getUserByClerkId_ok _ _ Hf)), Hu' in H2.
    rewrite (bind_step _ _ _ _ _ (pool_read_ok _ _ Hf)), Hnone in H2.
    by injection H2 as <- _.
Qed.

Lemma cancel_twice_witness :
  status_code
    (patch_orders_cancel "clerk_u1" 2 (patch_orders_cancel "clerk_u1" 2 exhausted_world).2).1
  = 404.
Proof.
  destruct (cancel_twice "clerk_u1" 2 exhausted_world
              (patch_orders_cancel "clerk_u1" 2 exhausted_world).2
              (patch_orders_cancel "clerk_u1" 2
                 (patch_orders_cancel "clerk_u1" 2 exhausted_world).2).2
              (patch_orders_cancel "clerk_u1" 2 exhausted_world).1
              (patch_orders_cancel "clerk_u1" 2
                 (patch_orders_cancel "clerk_u1" 2 exhausted_world).2).1)
    as (_ & _ & H404).
  - apply surjective_pairing.
  - reflexivity.
  - apply surjective_pairing.
  - apply H404. reflexivity.
Defined.

Lemma created_order_id (req : request) (w : world) res (w' : world) order :
  txn w = None →
  post_orders req w = (inl res, w') →
  status_code res = 201 → data res = Some order →
  order_id (view_order order) = next_order_id (committed w).
Proof.
  intros Ht Hpost H201 Hdata.
  destruct (post_orders_created _ _ _ _ Ht Hpost H201)
    as (its & sa & ba & user & w0 & w1 & wc & orderId & order1
        & _ & _ & _ & _ & _ & H0 & Hsteps & _ & Hread & ->).
  injection Hdata as <-.
  destruct (create_order_full _ _ _ _ _ _ _ _ Hsteps)
    as (? & ? & ? & ? & ? & _ & _ & _ & Hid & _).
  apply read_order_inl in Hread as [_ [rest Hsel]].
  assert (Hin : In (view_order order1, view_shipping order1, view_billing order1)
                  (select_order orderId (current wc))) by (rewrite Hsel; by left).
  unfold select_order in Hin. apply in_map_iff in Hin as (o & [= <- _ _] & Hin).
  apply filter_In in Hin as [_ E%Z.eqb_eq]. rewrite E, Hid. by rewrite H0.
Qed.

(** X9: the order a 201 response reports can be cancelled by its owner
    right away: when no round trip fails the cancellation of the reported
    id is answered 200, the order is then [cancelled], and the stock the
    order took stays taken, for cancelling changes no table but [orders]. *)
Theorem create_then_cancel (req : request) (w w' w'' : world) res res' order :
  txn w = None →
  post_orders req w = (inl res, w') →
  status_code res = 201 → data res = Some order →
  fault w' = [] →
  patch_orders_cancel (clerk_user_id req) (order_id (view_order order)) w' = (res', w'') →
  status_code res' = 200
  ∧ (∃ o, o ∈ orders (committed w'') ∧ order_id o = order_id (view_order order)
          ∧ status o = cancelled)
  ∧ product_variants (committed w'') = product_variants (committed w')
  ∧ order_items (committed w'') = order_items (committed w').
Proof.
  intros Ht Hpost H201 Hdata Hf Hcancel.
  rewrite (created_order_id _ _ _ _ _ Ht Hpost H201 Hdata) in *. clear Hdata.
  destruct (created_summary _ _ _ _ Ht Hpost H201)
    as (its & sa & ba & user & sid & bid & t & order0
        & _ & _ & _ & _ & Hu & -> & _ & _ & _ & Ho & Hi & _ & _).
  assert (Hus : users (committed w') = users (committed w)).
  { destruct (post_orders_created _ _ _ _ Ht Hpost H201)
      as (its1 & sa1 & ba1 & user1 & w0 & w1 & wc & orderId & order1
          & _ & _ & _ & _ & _ & H0 & Hsteps & Hwc & Hread & _).
    apply read_order_sys in Hread.
    destruct (create_order_full _ _ _ _ _ _ _ _ Hsteps)
      as (? & ? & ? & ? & ? & _ & _ & _ & _ & Hus & _).
    rewrite Hread, Hwc. cbn. rewrite Hus, H0. reflexivity. }
  assert (Hu' : head (select_users_by_clerk_id (clerk_user_id req) (committed w'))
                = Some user).
  { unfold select_users_by_clerk_id in *. by rewrite Hus. }
  set (o := new_order_row (user_id user) (total req) sid bid t (next_order_id (committed w))).
  assert (Hin : o ∈ orders (committed w')).
  { rewrite Ho. apply elem_of_app. right. by left. }
  assert (Hc : cancellable_by (user_id user) (next_order_id (committed w)) o).
  { split_and!; [done..|by left]. }
  destruct (cancel_order_ok _ _ _ _ _ Hf Hu' Hin Hc) as [w2 E2].
  unfold patch_orders_cancel in Hcancel. rewrite E2 in Hcancel. injection Hcancel as <- <-.
  pose proof (cancel_order_inl _ _ _ _ _ E2) as Hinv. rewrite Hu' in Hinv.
  assert (Hsel : o ∈ select_cancellable (next_order_id (committed w)) (user_id user)
                       (committed w')) by (by apply elem_of_select_cancellable).
  destruct (select_cancellable _ _ (committed w')) as [|o1 os];
    [by apply elem_of_nil in Hsel|].
  destruct Hinv as [_ Hs]. rewrite Hs. cbn. split_and!; try done.
  exists (cancelled_for (user_id user) (next_order_id (committed w)) o).
  split; [by apply list_elem_of_fmap_2|]. split; [apply cancelled_for_keys|].
  by apply cancelled_for_status.
Qed.

Lemma create_then_cancel_witness :
  status_code
    (patch_orders_cancel "clerk_u1" 1 (post_orders sample_request sample_world).2).1 = 200
  ∧ product_variants
      (committed
         (patch_orders_cancel "clerk_u1" 1 (post_orders sample_request sample_world).2).2)
    !! 5 = Some 8.
Proof.
  edestruct (create_then_cancel sample_request sample_world
               (post_orders sample_request sample_world).2
               (patch_orders_cancel "clerk_u1" 1 (post_orders sample_request sample_world).2).2
               (created sample_order)
               (patch_orders_cancel "clerk_u1" 1 (post_orders sample_request sample_world).2).1
               sample_order)
    as (H200 & _ & Hstock & _).
  - reflexivity.
  - exact (run_inl _ _ _ sample_request_created).
  - reflexivity.
  - reflexivity.
  - vm_compute. reflexivity.
  - apply surjective_pairing.
  - split; [exact H200|]. rewrite Hstock. vm_compute. reflexivity.
Defined.

(** ** One address for both roles *)

Lemma select_addresses_incomplete uid a d :
  ¬ complete_address a → select_addresses uid a d = [].
Proof.
  intros Hinc. destruct (select_addresses uid a d) as [|r rest] eqn:E; [done|].
  assert (Hin : r ∈ select_addresses uid a d) by (rewrite E; left).
  apply elem_of_select_addresses in Hin as [_ (_ & Hs & Hc & Hst & Hco & Hp)].
  destruct Hinc. unfold complete_address.
  destruct Hs as (? & -> & _), Hc as (? & -> & _), Hst as (? & -> & _),
           Hco as (? & -> & _), Hp as (? & -> & _).
  cbn. eauto 10.
Qed.

Lemma resolve_address_twice uid a (w wA wB : world) sid bid :
  resolve_address Shipping uid a w = (inl sid, wA) →
  resolve_address Billing uid a wA = (inl bid, wB) →
  (complete_address a →
     bid = sid
     ∧ (length (addresses (current wB)) ≤ length (addresses (current w)) + 1)%nat)
  ∧ (¬ complete_address a →
     sid = next_address_id (current w) ∧ bid = sid + 1
     ∧ addresses (current wB)
       = addresses (current w)
         ++ [new_address_row Shipping uid a sid; new_address_row Billing uid a bid]).
Proof.
  intros H1 H2.
  apply resolve_address_inl in H1. apply resolve_address_inl in H2. split.
  - intros Hc.
    destruct (select_addresses uid a (current w)) as [|r rest] eqn:E.
    + destruct H1 as [-> Hs]. rewrite Hs, current_put_current in H2.
      unfold select_addresses in H2. cbn [insert_address snd addresses] in H2.
      rewrite List.filter_app in H2. fold (select_addresses uid a (current w)) in H2. rewrite E in H2.
      cbn [List.filter app] in H2. rewrite (new_address_row_matches _ _ _ _ Hc) in H2.
      destruct H2 as [-> ->]. split; [done|].
      rewrite current_put_current. cbn. rewrite length_app. cbn. lia.
    + destruct H1 as [-> Hs]. rewrite Hs, E in H2. destruct H2 as [-> ->].
      split; [done|]. lia.
  - intros Hinc.
    rewrite (select_addresses_incomplete _ _ _ Hinc) in H1.
    rewrite (select_addresses_incomplete _ _ _ Hinc) in H2.
    destruct H1 as [-> Hs1]. destruct H2 as [-> Hs2].
    rewrite Hs2, current_put_current, Hs1, current_put_current. cbn.
    split; [done|]. split; [done|]. by rewrite <- app_assoc.
Qed.

Lemma created_row (req : request) (w w' : world) res order :
  txn w = None → order_keys_ok (committed w) →
  post_orders req w = (inl res, w') →
  status_code res = 201 → data res = Some order →
  ∃ sa ba user (w0 wA wB : world) sid bid t,
    shipping_address req = Some sa ∧ billing_address req = Some ba
    ∧ head (select_users_by_clerk_id (clerk_user_id req) (committed w)) = Some user
    ∧ current w0 = committed w
    ∧ resolve_address Shipping (user_id user) sa w0 = (inl sid, wA)
    ∧ resolve_address Billing (user_id user) ba wA = (inl bid, wB)
    ∧ view_order order
      = new_order_row (user_id user) (total req) sid bid t (next_order_id (committed w))
    ∧ addresses (committed w') = addresses (current wB).
Proof.
  intros Ht [Hkeys _] Hpost H201 Hdata.
  destruct (post_orders_created _ _ _ _ Ht Hpost H201)
    as (its & sa & ba & user & w0 & w1 & wc & orderId & order1
        & _ & _ & Hsa & Hba & Hu & H0 & Hsteps & Hc & Hread & ->).
  injection Hdata as <-.
  pose proof (read_order_sys _ _ _ _ Hread) as Hs'.
  apply read_order_inl in Hread as [_ [rest Hsel]].
  destruct (create_order_full _ _ _ _ _ _ _ _ Hsteps)
    as (sid & bid & t & wA & wB & E1 & E2 & _ & Hid & _ & Haddr & _ & Horders & _).
  assert (Hcur0 : current w0 = committed w) by (by rewrite H0).
  assert (Hcurc : current wc = current w1) by (by rewrite Hc).
  assert (Hcom : committed w' = current w1) by (by rewrite Hs', Hc).
  rewrite Hcur0 in Hid, Horders. rewrite Hcurc in Hsel.
  exists sa, ba, user, w0, wA, wB, sid, bid, t.
  repeat split; try done; [|by rewrite Hcom].
  unfold select_order in Hsel. rewrite Horders in Hsel.
  rewrite (filter_fresh _ _ [_]) in Hsel.
  - cbn [List.map] in Hsel. injection Hsel as Hv _ _ _. by rewrite <- Hv, Hid.
  - eapply Forall_impl; [exact Hkeys|]. intros o Ho. cbn in Ho. apply Z.eqb_neq. lia.
  - constructor; [|constructor]. cbn. apply Z.eqb_refl.
Qed.

(** X10: one address given for both roles.  When a created order names the
    same address for shipping and billing, a complete address gives the
    order one address id for both, the row found or inserted for shipping
    serving billing too.  An address with a missing component equals no
    stored row, not even the one just inserted for it: the order gets two
    new rows with consecutive ids. *)
Theorem one_address_for_both_roles (req : request) (w w' : world) res order a :
  txn w = None → order_keys_ok (committed w) →
  post_orders req w = (inl res, w') →
  status_code res = 201 → data res = Some order →
  shipping_address req = Some a → billing_address req = Some a →
  (complete_address a →
     billing_address_id (view_order order) = shipping_address_id (view_order order)
     ∧ (length (addresses (committed w')) ≤ length (addresses (committed w)) + 1)%nat)
  ∧ (¬ complete_address a →
     shipping_address_id (view_order order) = next_address_id (committed w)
     ∧ billing_address_id (view_order order) = next_address_id (committed w) + 1
     ∧ length (addresses (committed w')) = (length (addresses (committed w)) + 2)%nat).
Proof.
  intros Ht Hkeys Hpost H201 Hdata Hsa Hba.
  destruct (created_row _ _ _ _ _ Ht Hkeys Hpost H201 Hdata)
    as (sa & ba & user & w0 & wA & wB & sid & bid & t
        & Hsa' & Hba' & _ & Hcur0 & E1 & E2 & Hview & Haddr).
  rewrite Hsa in Hsa'. rewrite Hba in Hba'. injection Hsa' as <-. injection Hba' as <-.
  destruct (resolve_address_twice _ _ _ _ _ _ _ E1 E2) as [Hcomplete Hincomplete].
  rewrite Hview, Haddr. cbn [shipping_address_id billing_address_id new_order_row].
  rewrite Hcur0 in Hcomplete, Hincomplete. split.
  - intros Hc. destruct (Hcomplete Hc) as [-> Hlen]. done.
  - intros Hinc. destruct (Hincomplete Hinc) as (-> & -> & ->).
    split; [done|]. split; [done|]. rewrite length_app. cbn. lia.
Qed.

(** [sample_request] without a postal code. *)
Definition incomplete_address : address :=
  {| street := val "1 Main St"; city := val "Springfield"; state := val "IL";
     country := val "US"; postal_code := undefined |}.

Definition incomplete_request : request :=
  {| clerk_user_id := "clerk_u1"; items := ItemsArray [sample_item];
     shipping_address := Some incomplete_address;
     billing_address := Some incomplete_address;
     total := val 2000 |}.

Lemma one_address_for_both_roles_witness :
  length (addresses (committed (post_orders sample_request sample_world).2)) = 1%nat
  ∧ length (addresses (committed (post_orders incomplete_request sample_world).2)) = 2%nat.
Proof.
  assert (Hcreated : ∃ order,
            (post_orders incomplete_request sample_world).1 = inl (created order))
    by (eexists; vm_compute; reflexivity).
  destruct Hcreated as [order Hcreated].
  destruct (one_address_for_both_roles incomplete_request sample_world
              (post_orders incomplete_request sample_world).2
              (created order) order incomplete_address)
    as [_ Hinc].
  - reflexivity.
  - split; constructor.
  - exact (run_inl _ _ _ Hcreated).
  - reflexivity.
  - reflexivity.
  - reflexivity.
  - reflexivity.
  - split; [by vm_compute|].
    destruct Hinc as (_ & _ & Hlen); [|exact Hlen].
    intros (_ & _ & _ & _ & [x Hx]). discriminate.
Defined.

(** * The other handlers of the order router *)

(** ** Admin status changes *)

Definition validStatuses : list string :=
  ["pending"; "processing"; "shipped"; "delivered"; "cancelled"].

(** The name a status is stored under. *)
Definition status_name (s : order_status) : string :=
  match s with
  | pending => "pending"
  | processing => "processing"
  | shipped => "shipped"
  | delivered => "delivered"
  | cancelled => "cancelled"
  end.

Definition status_of_name (name : string) : option order_status :=
  List.find (λ s, String.eqb (status_name s) name)
    [pending; processing; shipped; delivered; cancelled].

(** [validStatuses.includes(status)], and the status the UPDATE then stores. *)
Definition valid_status (status : js string) : option order_status :=
  match status with
  | val name => if bool_decide (name ∈ validStatuses) then status_of_name name else None
  | _ => None
  end.

(** [UPDATE orders SET status = ?, updated_at = CURRENT_TIMESTAMP WHERE
    order_id = ?]; [affectedRows] counts the rows the WHERE clause matches
    (the timestamp changes each of them). *)
Definition update_status (s : order_status) (id : Z) (d : database) : nat * database :=
  (length (List.filter (λ o, order_id o =? id) (orders d)),
   {| users := users d;
      addresses := addresses d;
      orders := List.map (λ o, if order_id o =? id then set_status s o else o) (orders d);
      order_items := order_items d;
      product_variants := product_variants d;
      next_address_id := next_address_id d;
      next_order_id := next_order_id d;
      next_order_item_id := next_order_item_id d |}).

(** The handler of [router.put('/:id/status')]; [status] is
    [req.body.status], and a value that is no string is none of the five
    names, as [undefined] is. *)
Definition put_orders_status (id : Z) (status : js string) : world → response * world :=
  λ w,
    match valid_status status with
    | None => (bad_request "Invalid status", w)
    | Some s =>
        match pool_write (update_status s id) w with
        | (inl affectedRows, w1) =>
            match affectedRows with
            | O => (not_found "Order not found", w1)
            | S _ => (ok ("Order status updated to " +:+ status_name s), w1)
            end
        | (inr err, w1) => (server_error "Failed to update order status" err, w1)
        end
    end.

(** The handler of the admin [router.patch('/:id/cancel')]. *)
Definition admin_cancel_order (id : Z) : world → response * world :=
  λ w,
    match pool_write (update_status cancelled id) w with
    | (inl affectedRows, w1) =>
        match affectedRows with
        | O => (not_found "Order not found", w1)
        | S _ => (ok "Order cancelled successfully", w1)
        end
    | (inr err, w1) => (server_error "Failed to cancel order" err, w1)
    end.

(** ** The admin middlewares: [authenticate] and [authorizeAdmin] *)

(** What the two middlewares read of a request: the [authorization] header
    and the [auth_token] cookie. *)
Record credentials := {
  authorization : js string;
  auth_token : js string
}.

(** The decoded token, [req.user]; only [role] is read. *)
Record jwt_payload := { role : js string }.

(** A middleware answers, or calls [next()]. *)
Inductive checked (A : Type) : Type :=
  | Stop (status : Z) (msg : string)
  | Next (a : A).
Arguments Stop {A} status msg.
Arguments Next {A} a.

Definition truthy_string (v : js string) : bool :=
  match v with
  | val s => negb (String.eqb s "")
  | _ => false
  end.

(** The characters before the first space. *)
Fixpoint until_space (s : string) : string :=
  match s with
  | EmptyString => EmptyString
  | String c s' => if Ascii.eqb c " " then EmptyString else String c (until_space s')
  end.

(** [authHeader?.startsWith('Bearer ') ? authHeader.split(' ')[1] :
    tokenFromCookie], with [authHeader] the header when it is truthy.  For a
    string that starts with ["Bearer "], element 1 of [split(' ')] is what
    stands between the first space and the next. *)
Definition token_of (c : credentials) : js string :=
  match authorization c with
  | val header =>
      if truthy_string (val header) && String.prefix "Bearer " header
      then val (until_space (string_skip 7 header))
      else auth_token c
  | _ => auth_token c
  end.

Section admin_middlewares.
(** [jwt.verify(token, process.env.JWT_SECRET)]: the decoded payload, or
    [None] when it throws. *)
Variable jwt_verify : string → option jwt_payload.

Definition authenticate (c : credentials) : checked jwt_payload :=
  match token_of c with
  | val token =>
      if truthy_string (val token) then
        match jwt_verify token with
        | Some decoded => Next decoded
        | None => Stop 401 "Invalid token"
        end
      else Stop 401 "Unauthorized: No token provided"
  | _ => Stop 401 "Unauthorized: No token provided"
  end.

Definition authorizeAdmin (user : jwt_payload) : checked () :=
  match role user with
  | val r => if String.eqb r "admin" then Next () else Stop 403 "Forbidden: Admins only"
  | _ => Stop 403 "Forbidden: Admins only"
  end.

(** A route [authenticate, authorizeAdmin, handler]. *)
Definition admin_route {A} (c : credentials) (handler : world → A * world)
  : world → checked A * world :=
  λ w,
    match authenticate c with
    | Stop status msg => (Stop status msg, w)
    | Next user =>
        match authorizeAdmin user with
        | Stop status msg => (Stop status msg, w)
        | Next _ => let '(res, w1) := handler w in (Next res, w1)
        end
    end.
End admin_middlewares.

(** ** Reading orders back *)

(** The responses of the GET handlers: [message] and [error] only on
    failure, [data] only on success. *)
Record reply (D : Type) : Type := {
  reply_status : Z;
  reply_success : bool;
  reply_message : option string;
  reply_error : option string;
  reply_data : option D
}.
Arguments reply_status {D} _.
Arguments reply_success {D} _.
Arguments reply_message {D} _.
Arguments reply_error {D} _.
Arguments reply_data {D} _.

Definition reply_ok {D} (d : D) : reply D :=
  {| reply_status := 200; reply_success := true; reply_message := None;
     reply_error := None; reply_data := Some d |}.

Definition reply_not_found {D} (msg : string) : reply D :=
  {| reply_status := 404; reply_success := false; reply_message := Some msg;
     reply_error := None; reply_data := None |}.

Definition reply_failed {D} (msg : string) (e : exn) : reply D :=
  {| reply_status := 500; reply_success := false; reply_message := Some msg;
     reply_error := Some (err_message e); reply_data := None |}.

Fixpoint map_M {A B} (f : A → M B) (l : list A) : M (list B) :=
  match l with
  | [] => mret []
  | x :: l' => y ← f x; ys ← map_M f l'; mret (y :: ys)
  end.

Section user_views.
(** [ORDER BY o.created_at DESC]: [created_at] is not a column of the
    model, so the order of the result is left to this function. *)
Variable by_created_desc : list order_row → list order_row.
(** The two user-facing item queries join [variants] and read
    [products.name] and [products.image_url], where order creation and the
    admin queries name [product_variants] and [products.base_name].  Whether
    the schema has what they name is not in the source: [Some m] when the
    store rejects them, with message [m]. *)
Variable item_view_error : option string.

(** [SELECT ... FROM order_items oi LEFT JOIN variants v ... LEFT JOIN
    products p ... WHERE oi.order_id = ?], on the pool.  The joins are on
    primary keys, one row for each line item, and the result is kept on the
    five columns of [order_items]; the columns the joins add
    ([product_name], [image_url], [size], [color]) are not in the model, and
    they are not those of the re-read in order creation, which takes
    [product_name] from [products.base_name] through [product_variants] and
    has no [image_url]. *)
Definition select_items_view (orderId : Z) : M (list order_item_row) :=
  match item_view_error with
  | None => pool_read (select_order_items orderId)
  | Some m => _ ← round_trip; throw (Error m)
  end.

Definition join_addresses (d : database) (o : order_row)
  : order_row * option address_row * option address_row :=
  (o, join_address (shipping_address_id o) d, join_address (billing_address_id o) d).

(** [SELECT ... FROM orders o LEFT JOIN addresses sa ... LEFT JOIN addresses
    ba ... WHERE o.user_id = ? ORDER BY o.created_at DESC] *)
Definition select_user_orders (uid : Z) (d : database)
  : list (order_row * option address_row * option address_row) :=
  join_addresses d
    <$> by_created_desc (List.filter (λ o, order_user_id o =? uid) (orders d)).

(** [SELECT ... WHERE o.order_id = ? AND o.user_id = ?] *)
Definition select_user_order (id uid : Z) (d : database)
  : list (order_row * option address_row * option address_row) :=
  join_addresses d
    <$> List.filter (λ o, (order_id o =? id) && (order_user_id o =? uid)) (orders d).

(** [{ ...order, items: items || [] }] *)
Definition with_items (row : order_row * option address_row * option address_row)
  : M order_view :=
  items ← select_items_view (order_id row.1.1);
  mret {| view_order := row.1.1; view_shipping := row.1.2; view_billing := row.2;
          view_items := items |}.

(** [router.get('/')], the handler behind [verifyClerkAuth].  The item
    queries of [Promise.all] are taken one after the other. *)
Definition list_orders (clerkId : string) : M (reply (list order_view)) :=
  user ← getUserByClerkId clerkId;
  match user with
  | None => mret (reply_not_found "User not found")
  | Some user =>
      orders ← pool_read (select_user_orders (user_id user));
      ordersWithItems ← map_M with_items orders;
      mret (reply_ok ordersWithItems)
  end.

Definition get_orders (clerkId : string) : world → reply (list order_view) * world :=
  λ w,
    match list_orders clerkId w with
    | (inl res, w1) => (res, w1)
    | (inr err, w1) => (reply_failed "Failed to fetch orders" err, w1)
    end.

(** [router.get('/:id')] *)
Definition find_order (clerkId : string) (id : Z) : M (reply order_view) :=
  user ← getUserByClerkId clerkId;
  match user with
  | None => mret (reply_not_found "User not found")
  | Some user =>
      orders ← pool_read (select_user_order id (user_id user));
      match orders with
      | [] => mret (reply_not_found "Order not found or access denied")
      | (o, sa, ba) :: _ =>
          items ← select_items_view id;
          mret (reply_ok {| view_order := o; view_shipping := sa; view_billing := ba;
                            view_items := items |})
      end
  end.

Definition get_order (clerkId : string) (id : Z) : world → reply order_view * world :=
  λ w,
    match find_order clerkId id w with
    | (inl res, w1) => (res, w1)
    | (inr err, w1) => (reply_failed "Failed to fetch order" err, w1)
    end.
End user_views.

(** ** The route table *)

Inductive verb := GET | POST | PUT | PATCH | DELETE.

(** A segment of a route path: a literal or a named parameter. *)
Inductive piece := Lit (s : string) | Param.

Inductive guard := ClerkAuth | AdminAuth | NoAuth.

Inductive handler_name :=
  | ListOrders | GetOrder | CreateOrder | CancelOrder
  | AdminListOrders | AdminUpdateStatus | AdminCancelOrder | Health.

Record route := {
  route_verb : verb;
  route_path : list piece;
  route_guard : guard;
  route_handler : handler_name
}.

Global Instance verb_eq_dec : EqDecision verb.
Proof. solve_decision. Defined.
Global Instance handler_name_eq_dec : EqDecision handler_name.
Proof. solve_decision. Defined.

(** The routes in the order the router registers them. *)
Definition order_routes : list route :=
  [ {| route_verb := GET; route_path := []; route_guard := ClerkAuth;
       route_handler := ListOrders |};
    {| route_verb := GET; route_path := [Param]; route_guard := ClerkAuth;
       route_handler := GetOrder |};
    {| route_verb := POST; route_path := []; route_guard := ClerkAuth;
       route_handler := CreateOrder |};
    {| route_verb := PATCH; route_path := [Param; Lit "cancel"]; route_guard := ClerkAuth;
       route_handler := CancelOrder |};
    {| route_verb := GET; route_path := []; route_guard := AdminAuth;
       route_handler := AdminListOrders |};
    {| route_verb := PUT; route_path := [Param; Lit "status"]; route_guard := AdminAuth;
       route_handler := AdminUpdateStatus |};
    {| route_verb := PATCH; route_path := [Param; Lit "cancel"]; route_guard := AdminAuth;
       route_handler := AdminCancelOrder |};
    {| route_verb := GET; route_path := [Lit "health"]; route_guard := NoAuth;
       route_handler := Health |} ].

Definition lower_ascii (c : ascii) : ascii :=
  let n := nat_of_ascii c in
  if ((65 <=? n) && (n <=? 90))%nat then ascii_of_nat (n + 32) else c.

Fixpoint lower (s : string) : string :=
  match s with
  | EmptyString => EmptyString
  | String c s' => String (lower_ascii c) (lower s')
  end.

Fixpoint has_slash (s : string) : bool :=
  match s with
  | EmptyString => false
  | String c s' => Ascii.eqb c "/" || has_slash s'
  end.

(** A request path below the mount point is given by its segments as they
    stand in the URL, [/s1/.../sn] with or without a closing slash: a
    segment holds no slash and is not yet decoded.  A literal matches
    without regard to case; a parameter matches any segment that is not
    empty. *)
Definition piece_matches (p : piece) (segment : string) : bool :=
  match p with
  | Lit s => String.eqb (lower s) (lower segment)
  | Param => negb (String.eqb segment "") && negb (has_slash segment)
  end.

Fixpoint path_matches (ps : list piece) (segments : list string) : bool :=
  match ps, segments with
  | [], [] => true
  | p :: ps', s :: segments' => piece_matches p s && path_matches ps' segments'
  | _, _ => false
  end.

(** What the router does with a request: a route serves it, or a parameter
    of a route whose path matched did not decode and the error leaves the
    router without any route of it running, or no route matches. *)
Inductive dispatched :=
  | Served (r : route)
  | DecodeError
  | NoRoute.

Section routing.
(** [decodeURIComponent]; [None] when it throws. *)
Variable decodeURIComponent : string → option string.

(** The parameters of a route whose path matches are decoded one by one. *)
Fixpoint params_decode (ps : list piece) (segments : list string) : bool :=
  match ps, segments with
  | Param :: ps', s :: segments' =>
      bool_decide (is_Some (decodeURIComponent s)) && params_decode ps' segments'
  | Lit _ :: ps', _ :: segments' => params_decode ps' segments'
  | _, _ => true
  end.

(** The routes are tried in the order of their registration.  A route whose
    path matches has its parameters decoded before its verb is looked at; a
    parameter that does not decode leaves an error pending, with which no
    later route matches.  The first route whose path and verb match serves
    the request: its middleware answers or hands over to its handler, and no
    handler calls [next()], so a later route is never tried. *)
Fixpoint route_scan (v : verb) (segments : list string) (routes : list route)
  : dispatched :=
  match routes with
  | [] => NoRoute
  | r :: rest =>
      if path_matches (route_path r) segments then
        if params_decode (route_path r) segments then
          if bool_decide (route_verb r = v) then Served r
          else route_scan v segments rest
        else DecodeError
      else route_scan v segments rest
  end.

Definition dispatch (v : verb) (segments : list string) : dispatched :=
  route_scan v segments order_routes.
End routing.

(** * Status changes by an administrator *)

Lemma valid_status_name s : valid_status (val (status_name s)) = Some s.
Proof. by destruct s. Qed.

Lemma valid_status_Some status s :
  valid_status status = Some s → status = val (status_name s).
Proof.
  destruct status as [| |name]; [discriminate..|]. unfold valid_status.
  destruct (bool_decide (name ∈ validStatuses)) eqn:E; [|discriminate].
  apply bool_decide_eq_true in E. unfold validStatuses in E.
  repeat (apply elem_of_cons in E as [->|E]; [by intros [= <-]|]).
  by apply elem_of_nil in E.
Qed.

Lemma valid_status_None status :
  valid_status status = None ↔ ∀ s, status ≠ val (status_name s).
Proof.
  split.
  - intros H s ->. by rewrite valid_status_name in H.
  - intros H. destruct (valid_status status) as [s|] eqn:E; [|done].
    by apply valid_status_Some, H in E.
Qed.

(** What the UPDATE of the two admin handlers makes of one row. *)
Definition status_set (s : order_status) (id : Z) (o : order_row) : order_row :=
  if order_id o =? id then set_status s o else o.

Lemma update_status_orders s id d :
  orders (update_status s id d).2 = status_set s id <$> orders d.
Proof. reflexivity. Qed.

Lemma update_status_none s id d :
  (update_status s id d).1 = 0%nat ↔ ∀ o, o ∈ orders d → order_id o ≠ id.
Proof.
  cbn [update_status fst]. rewrite length_zero_iff_nil. split.
  - intros H o Ho Hid.
    assert (Hin : In o (List.filter (λ o, order_id o =? id) (orders d))).
    { apply filter_In. split; [by apply list_elem_of_In|]. by apply Z.eqb_eq. }
    rewrite H in Hin. destruct Hin.
  - intros H. destruct (List.filter _ _) as [|o os] eqn:E; [done|].
    assert (Hin : In o (List.filter (λ o, order_id o =? id) (orders d)))
      by (rewrite E; left; reflexivity).
    apply filter_In in Hin as [Hin Hid]. apply Z.eqb_eq in Hid.
    apply list_elem_of_In in Hin. by destruct (H o Hin).
Qed.

Lemma update_status_untouched s id d :
  (∀ o, o ∈ orders d → order_id o ≠ id) → (update_status s id d).2 = d.
Proof.
  intros H. destruct d as [us ads os ois pv na no noi]. cbn in *.
  f_equal. induction os as [|o os IH]; [done|]. cbn.
  rewrite IH by (intros o' Ho'; apply H; by right).
  assert (Hne : order_id o ≠ id) by (apply H; left).
  apply Z.eqb_neq in Hne. by rewrite Hne.
Qed.

Lemma set_committed_same (w : world) : set_committed (committed w) w = sys w.
Proof. by destruct w as [[]]. Qed.

Lemma put_orders_status_inv (id : Z) (st : js string) (w w' : world) res :
  put_orders_status id st w = (res, w') →
  txn w' = txn w
  ∧ ( (res = bad_request "Invalid status" ∧ w' = w
       ∧ ∀ s, st ≠ val (status_name s))
    ∨ (res = not_found "Order not found" ∧ sys w' = sys w
       ∧ ∀ o, o ∈ orders (committed w) → order_id o ≠ id)
    ∨ (∃ s o, st = val (status_name s)
         ∧ res = ok ("Order status updated to " +:+ status_name s)
         ∧ o ∈ orders (committed w) ∧ order_id o = id
         ∧ committed w' = (update_status s id (committed w)).2
         ∧ ∀ o', o' ∈ orders (committed w') → order_id o' = id → status o' = s)
    ∨ (∃ e, res = server_error "Failed to update order status" e
         ∧ sys w' = sys w) ).
Proof.
  unfold put_orders_status. intros H.
  destruct (valid_status st) as [s|] eqn:Ev.
  - apply valid_status_Some in Ev as ->.
    destruct (pool_write _ w) as [[n|e] w1] eqn:E.
    + apply pool_write_inl in E as [Hn Hs].
      destruct n as [|n]; injection H as <- <-.
      * symmetry in Hn. pose proof (proj1 (update_status_none _ _ _) Hn) as Hnone.
        rewrite (update_status_untouched _ _ _ Hnone), set_committed_same in Hs.
        split; [by rewrite Hs|]. right. left. done.
      * split; [by rewrite Hs|]. right. right. left.
        destruct (List.filter (λ o, order_id o =? id) (orders (committed w)))
          as [|o os] eqn:Ef; [cbn in Hn; rewrite Ef in Hn; discriminate|].
        assert (Hin : In o (List.filter (λ o, order_id o =? id) (orders (committed w))))
          by (rewrite Ef; left; reflexivity).
        apply filter_In in Hin as [Hin Hid]. apply Z.eqb_eq in Hid.
        apply list_elem_of_In in Hin.
        exists s, o. repeat split; try done; [by rewrite Hs|].
        intros o' Ho' Hid'. rewrite Hs in Ho'. cbn [committed set_committed] in Ho'.
        rewrite update_status_orders in Ho'.
        apply list_elem_of_fmap in Ho' as (o0 & -> & _). unfold status_set in *.
        destruct (order_id o0 =? id) eqn:E0; [done|].
        apply Z.eqb_neq in E0. done.
    + apply pool_write_inr in E. injection H as <- <-.
      split; [by rewrite E|]. right. right. right. by exists e.
  - injection H as <- <-. split; [done|]. left. repeat split; try done. by apply valid_status_None.
Qed.

(** X11: every outcome of a status change.  The answer is 400 exactly when
    the status is none of the five names, and then the store is not reached;
    it is 404 only when no order has the id, and nothing is changed; it is
    200 only when an order has the id, and then every order with that id has
    the new status, whatever its status was; a failed round trip is answered
    500 and changes nothing.  The open transaction of another connection is
    never touched. *)
Theorem put_orders_status_outcomes (id : Z) (st : js string) (w w' : world) res :
  put_orders_status id st w = (res, w') →
  txn w' = txn w
  ∧ status_code res ∈ [400; 404; 200; 500]
  ∧ (status_code res = 400 ↔ ∀ s, st ≠ val (status_name s))
  ∧ (status_code res = 400 → w' = w)
  ∧ (status_code res = 404 →
     sys w' = sys w ∧ ∀ o, o ∈ orders (committed w) → order_id o ≠ id)
  ∧ (status_code res = 200 →
     ∃ s o, st = val (status_name s)
       ∧ o ∈ orders (committed w) ∧ order_id o = id
       ∧ committed w' = (update_status s id (committed w)).2
       ∧ ∀ o', o' ∈ orders (committed w') → order_id o' = id → status o' = s)
  ∧ (status_code res = 500 → sys w' = sys w).
Proof.
  intros H.
  destruct (put_orders_status_inv _ _ _ _ _ H)
    as [Ht [(-> & -> & Hno)|[(-> & Hs & Hno)
                            |[(s & o & -> & -> & Ho & Hid & Hc & Hall)|(e & -> & Hs)]]]].
  - split; [done|]. split; [left|]. split; [done|]. repeat split; try discriminate; done.
  - split; [done|]. split; [right; left|].
    split; [split; [discriminate|]; intros Hinv; exfalso|];
      [|repeat split; try discriminate; done].
    destruct (valid_status st) as [s|] eqn:Ev.
    + apply valid_status_Some in Ev. by destruct (Hinv s).
    + unfold put_orders_status in H. rewrite Ev in H. discriminate.
  - split; [done|]. split; [do 2 right; left|].
    split; [split; [discriminate|]; intros Hinv; by destruct (Hinv s)|].
    repeat split; try discriminate. intros _. by exists s, o.
  - split; [done|]. split; [do 3 right; left|].
    split; [split; [discriminate|]; intros Hinv; exfalso|];
      [|repeat split; try discriminate; done].
    destruct (valid_status st) as [s|] eqn:Ev.
    + apply valid_status_Some in Ev. by destruct (Hinv s).
    + unfold put_orders_status in H. rewrite Ev in H. discriminate.
Qed.

Lemma put_orders_status_outcomes_witness :
  status_code (put_orders_status 1 (val "refunded") exhausted_world).1 = 400
  ∧ (put_orders_status 1 (val "refunded") exhausted_world).2 = exhausted_world.
Proof.
  destruct (put_orders_status_outcomes 1 (val "refunded") exhausted_world
              (put_orders_status 1 (val "refunded") exhausted_world).2
              (put_orders_status 1 (val "refunded") exhausted_world).1)
    as (_ & _ & H400 & Hsame & _).
  - apply surjective_pairing.
  - assert (Hcode : status_code (put_orders_status 1 (val "refunded") exhausted_world).1
                    = 400).
    { apply H400. intros s. destruct s; discriminate. }
    split; [exact Hcode | exact (Hsame Hcode)].
Defined.

Lemma put_orders_status_ok (id : Z) s (w : world) o :
  fault w = [] → o ∈ orders (committed w) → order_id o = id →
  put_orders_status id (val (status_name s)) w
  = (ok ("Order status updated to " +:+ status_name s),
     {| sys := set_committed (update_status s id (committed w)).2 w; fault := [] |}).
Proof.
  intros Hf Ho Hid. unfold put_orders_status.
  rewrite valid_status_name, (pool_write_ok _ _ Hf), Hf.
  destruct ((update_status s id (committed w)).1) as [|n] eqn:E; [|done].
  pose proof (proj1 (update_status_none _ _ _) E) as Hnone. by destruct (Hnone o Ho).
Qed.

(** X12: no transition is refused.  When the round trip does not fail, an
    order that exists is given any of the five statuses, from any status:
    a delivered or cancelled order can be made pending again.  Only the
    orders with that id change, and only in their status. *)
Theorem put_orders_status_any_transition (id : Z) s (w : world) o :
  fault w = [] → o ∈ orders (committed w) → order_id o = id →
  ∃ w' : world,
    put_orders_status id (val (status_name s)) w
    = (ok ("Order status updated to " +:+ status_name s), w')
    ∧ set_status s o ∈ orders (committed w')
    ∧ orders (committed w') = status_set s id <$> orders (committed w)
    ∧ order_items (committed w') = order_items (committed w)
    ∧ product_variants (committed w') = product_variants (committed w)
    ∧ addresses (committed w') = addresses (committed w)
    ∧ users (committed w') = users (committed w).
Proof.
  intros Hf Ho Hid. eexists. split; [by apply (put_orders_status_ok id s w o)|].
  cbn [sys committed set_committed]. rewrite update_status_orders.
  repeat split; try reflexivity.
  apply list_elem_of_fmap. exists o. split; [|done].
  unfold status_set. apply Z.eqb_eq in Hid. by rewrite Hid.
Qed.

Lemma put_orders_status_any_transition_witness :
  set_status pending
    {| order_id := 1; order_user_id := 1; total_amount := Some 500; status := shipped;
       shipping_address_id := 7; billing_address_id := 7;
       tracking_number := "TRK112345" |}
  ∈ orders (committed (put_orders_status 1 (val "pending") exhausted_world).2).
Proof.
  destruct (put_orders_status_any_transition 1 pending exhausted_world
              {| order_id := 1; order_user_id := 1; total_amount := Some 500;
                 status := shipped; shipping_address_id := 7; billing_address_id := 7;
                 tracking_number := "TRK112345" |})
    as (w' & Hrun & Hin & _).
  - reflexivity.
  - left.
  - reflexivity.
  - cbn [status_name] in Hrun. rewrite Hrun. exact Hin.
Defined.

(** X13: the admin cancellation is the status change to ["cancelled"] under
    another message: the two leave the same world and answer with the same
    status code. *)
Theorem admin_cancel_is_status_change (id : Z) (w : world) :
  (admin_cancel_order id w).2 = (put_orders_status id (val "cancelled") w).2
  ∧ status_code (admin_cancel_order id w).1
    = status_code (put_orders_status id (val "cancelled") w).1
  ∧ success (admin_cancel_order id w).1
    = success (put_orders_status id (val "cancelled") w).1
  ∧ error (admin_cancel_order id w).1
    = error (put_orders_status id (val "cancelled") w).1.
Proof.
  unfold admin_cancel_order, put_orders_status.
  change (valid_status (val "cancelled")) with (Some cancelled).
  cbv beta iota.
  destruct (pool_write (update_status cancelled id) w) as [[[|n]|e] w1]; done.
Qed.

(** X14: the status an administrator sets decides whether the customer can
    still cancel.  After a successful change to a status other than pending
    and processing, no self-service cancellation of that order succeeds and
    none changes the store; after a change to pending or processing, the
    owner's cancellation succeeds when no round trip fails. *)
Theorem status_decides_cancellation (id : Z) s clerkId (w w' w'' : world) res res' :
  put_orders_status id (val (status_name s)) w = (res, w') →
  status_code res = 200 →
  patch_orders_cancel clerkId id w' = (res', w'') →
  (is_cancellable s = false → status_code res' ≠ 200 ∧ committed w'' = committed w')
  ∧ (is_cancellable s = true → fault w' = [] →
     ∀ user o,
       head (select_users_by_clerk_id clerkId (committed w)) = Some user →
       o ∈ orders (committed w) → order_id o = id → order_user_id o = user_id user →
       status_code res' = 200).
Proof.
  intros H1 H200 H2.
  destruct (put_orders_status_inv _ _ _ _ _ H1)
    as [_ [(-> & _)|[(-> & _)|[(s' & o & Es & -> & Ho & Hid & Hc & Hall)|(e & -> & _)]]]];
    try discriminate.
  assert (s' = s) as ->.
  { injection Es as Es. destruct s, s'; (done || discriminate). }
  split.
  - intros Hnc.
    assert (Hne : status_code res' ≠ 200).
    { intros H200'. destruct (cancellation_outcomes _ _ _ _ _ H2) as [Hdone _].
      destruct (Hdone H200') as (user & o2 & _ & Ho2 & (Hid2 & _ & Hst) & _).
      rewrite (Hall o2 Ho2 Hid2) in Hst. destruct s; destruct Hst; discriminate. }
    split; [done|]. by destruct (cancellation_outcomes _ _ _ _ _ H2) as [_ ->].
  - intros Hcan Hf user o1 Hu Ho1 Hid1 Huid1.
    assert (Hu' : head (select_users_by_clerk_id clerkId (committed w')) = Some user)
      by (by rewrite Hc).
    assert (Ho' : set_status s o1 ∈ orders (committed w')).
    { rewrite Hc, update_status_orders. apply list_elem_of_fmap. exists o1.
      split; [|done]. unfold status_set. apply Z.eqb_eq in Hid1. by rewrite Hid1. }
    destruct (cancel_order_ok clerkId id w' user (set_status s o1) Hf Hu' Ho')
      as (w3 & Hrun).
    { repeat split; try done. destruct s; (by left) || (by right) || discriminate. }
    unfold patch_orders_cancel in H2. rewrite Hrun in H2. by injection H2 as <- _.
Qed.

Lemma status_decides_cancellation_witness :
  status_code
    (patch_orders_cancel "clerk_u1" 2
       (put_orders_status 2 (val "delivered") exhausted_world).2).1 ≠ 200
  ∧ status_code
      (patch_orders_cancel "clerk_u1" 1
         (put_orders_status 1 (val "processing") exhausted_world).2).1 = 200.
Proof.
  split.
  - destruct (status_decides_cancellation 2 delivered "clerk_u1" exhausted_world
                (put_orders_status 2 (val "delivered") exhausted_world).2
                (patch_orders_cancel "clerk_u1" 2
                   (put_orders_status 2 (val "delivered") exhausted_world).2).2
                (put_orders_status 2 (val "delivered") exhausted_world).1
                (patch_orders_cancel "clerk_u1" 2
                   (put_orders_status 2 (val "delivered") exhausted_world).2).1)
      as [Hno _].
    + apply surjective_pairing.
    + reflexivity.
    + apply surjective_pairing.
    + apply Hno. reflexivity.
  - destruct (status_decides_cancellation 1 processing "clerk_u1" exhausted_world
                (put_orders_status 1 (val "processing") exhausted_world).2
                (patch_orders_cancel "clerk_u1" 1
                   (put_orders_status 1 (val "processing") exhausted_world).2).2
                (put_orders_status 1 (val "processing") exhausted_world).1
                (patch_orders_cancel "clerk_u1" 1
                   (put_orders_status 1 (val "processing") exhausted_world).2).1)
      as [_ Hyes].
    + apply surjective_pairing.
    + reflexivity.
    + apply surjective_pairing.
    + apply (Hyes eq_refl eq_refl {| user_id := 1; clerk_id := "clerk_u1" |}
               {| order_id := 1; order_user_id := 1; total_amount := Some 500;
                  status := shipped; shipping_address_id := 7; billing_address_id := 7;
                  tracking_number := "TRK112345" |}).
      * reflexivity.
      * left.
      * reflexivity.
      * reflexivity.
Defined.

(** ** What status changes keep *)

(** The four invariants that order creation keeps, together. *)
Definition consistent (d : database) : Prop :=
  store_keys_ok d ∧ tracking_unique d ∧ orders_have_items d ∧ references_resolve d.

(** [d'] differs from [d] at most in the status of orders. *)
Definition status_only (d d' : database) : Prop :=
  users d' = users d ∧ addresses d' = addresses d
  ∧ order_items d' = order_items d ∧ product_variants d' = product_variants d
  ∧ next_address_id d' = next_address_id d ∧ next_order_id d' = next_order_id d
  ∧ next_order_item_id d' = next_order_item_id d
  ∧ ∃ f, orders d' = f <$> orders d ∧ ∀ o, f o = o ∨ ∃ s, f o = set_status s o.

Lemma status_only_refl d : status_only d d.
Proof.
  repeat split; try done. exists id. split; [by rewrite list_fmap_id | by left].
Qed.

Lemma status_only_update_status s id d : status_only d (update_status s id d).2.
Proof.
  repeat split; try done. exists (status_set s id). split; [done|].
  intros o. unfold status_set. destruct (_ =? _); [right; by exists s | by left].
Qed.

Lemma status_only_update_cancelled id uid d : status_only d (update_cancelled id uid d).2.
Proof.
  repeat split; try done. exists (cancelled_for uid id). split; [done|].
  intros o. unfold cancelled_for. destruct (_ && _); [right; by exists cancelled | by left].
Qed.

Lemma status_only_consistent d d' : status_only d d' → consistent d → consistent d'.
Proof.
  intros (Hu & Ha & Hi & _ & Hna & Hno & Hnoi & f & Ho & Hf)
    ((Hak & (Hok1 & Hok2) & Hnd & Hndi & Hlt) & Htr & Hhave & Href).
  assert (Hproj : ∀ {B} (g : order_row → B),
            (∀ s o, g (set_status s o) = g o) → g <$> orders d' = g <$> orders d).
  { intros B g Hg. rewrite Ho, <- list_fmap_compose. apply list_fmap_ext.
    intros i o _. cbn. destruct (Hf o) as [->|(s & ->)]; [done | apply Hg]. }
  assert (Hall : ∀ (P : order_row → Prop),
            (∀ s o, P o → P (set_status s o)) →
            Forall P (orders d) → Forall P (orders d')).
  { intros P HP HF. rewrite Ho. apply Forall_fmap. eapply Forall_impl; [exact HF|].
    intros o Hp. cbn. destruct (Hf o) as [->|(s & ->)]; [done | by apply HP]. }
  repeat split.
  - unfold address_keys_ok in *. rewrite Ha. apply Hak.
  - rewrite Ha, Hna. apply Hak.
  - rewrite Hno. apply (Hall (λ o, order_id o < next_order_id d)); [done|exact Hok1].
  - by rewrite Hi, Hno.
  - by rewrite (Hproj _ order_id).
  - by rewrite Hi.
  - by rewrite Hi, Hnoi.
  - unfold tracking_unique in *. by rewrite (Hproj _ tracking_number).
  - unfold orders_have_items in *. rewrite Hi.
    apply (Hall (λ o, ∃ r, r ∈ order_items d ∧ item_order_id r = order_id o));
      [done|exact Hhave].
  - unfold references_resolve in *.
    assert (Hown : ∀ uid id, owned_address d uid id → owned_address d' uid id).
    { intros uid id (a & Hin & ? & ?). exists a. by rewrite Ha. }
    apply (Hall (λ o, (∃ u, u ∈ users d' ∧ user_id u = order_user_id o)
                      ∧ owned_address d' (order_user_id o) (shipping_address_id o)
                      ∧ owned_address d' (order_user_id o) (billing_address_id o)));
      [done|].
    eapply Forall_impl; [exact Href|].
    intros o ((u & Hin & Hid) & Hs & Hb). cbn. rewrite Hu. split; [by exists u|].
    split; by apply Hown.
Qed.

Lemma put_orders_status_status_only (id : Z) (st : js string) (w w' : world) res :
  put_orders_status id st w = (res, w') → status_only (committed w) (committed w').
Proof.
  intros H.
  destruct (put_orders_status_inv _ _ _ _ _ H)
    as [_ [(_ & -> & _)|[(_ & -> & _)|[(s & o & _ & _ & _ & _ & -> & _)|(e & _ & ->)]]]];
    try apply status_only_refl.
  apply status_only_update_status.
Qed.

Lemma admin_cancel_order_status_only (id : Z) (w w' : world) res :
  admin_cancel_order id w = (res, w') → status_only (committed w) (committed w').
Proof.
  unfold admin_cancel_order. intros H.
  destruct (pool_write _ w) as [[n|e] w1] eqn:E.
  - apply pool_write_inl in E as [_ Hs].
    assert (w' = w1) as -> by (by destruct n; injection H as _ <-).
    rewrite Hs. apply status_only_update_status.
  - apply pool_write_inr in E. injection H as _ <-. rewrite E. apply status_only_refl.
Qed.

Lemma patch_orders_cancel_status_only clerkId (id : Z) (w w' : world) res :
  patch_orders_cancel clerkId id w = (res, w') → status_only (committed w) (committed w').
Proof.
  intros H. destruct (cancellation_outcomes _ _ _ _ _ H) as [Hdone Hnot].
  destruct (decide (status_code res = 200)) as [H200|H200].
  - destruct (Hdone H200) as (user & o & _ & _ & _ & ->).
    apply status_only_update_cancelled.
  - rewrite (Hnot H200). apply status_only_refl.
Qed.

(** X15: the three handlers that change a status keep the store consistent in
    every outcome (keys, unique tracking numbers, orders with items,
    references that resolve), and none of them touches an order item or
    the stock: cancelling an order does not put its quantities back. *)
Theorem status_changes_keep_consistency (w w' : world) res :
  (∃ id st, put_orders_status id st w = (res, w'))
  ∨ (∃ id, admin_cancel_order id w = (res, w'))
  ∨ (∃ clerkId id, patch_orders_cancel clerkId id w = (res, w')) →
  consistent (committed w) →
  consistent (committed w')
  ∧ order_items (committed w') = order_items (committed w)
  ∧ product_variants (committed w') = product_variants (committed w).
Proof.
  intros H Hc.
  assert (Hso : status_only (committed w) (committed w')).
  { destruct H as [(id & st & H)|[(id & H)|(clerkId & id & H)]].
    - by eapply put_orders_status_status_only.
    - by eapply admin_cancel_order_status_only.
    - by eapply patch_orders_cancel_status_only. }
  split; [by eapply status_only_consistent|].
  destruct Hso as (_ & _ & Hi & Hp & _). done.
Qed.

(** The store after [sample_request] was placed in [sample_world]. *)
Definition placed_database : database :=
  {| users := [ {| user_id := 1; clerk_id := "clerk_u1" |} ];
     addresses :=
       [ {| address_id := 1; address_user_id := 1;
            address_street := Some "1 Main St"; address_city := Some "Springfield";
            address_state := Some "IL"; address_country := Some "US";
            address_postal_code := Some "62701";
            is_shipping := true; is_billing := false |} ];
     orders :=
       [ {| order_id := 1; order_user_id := 1; total_amount := Some 2000;
            status := pending; shipping_address_id := 1; billing_address_id := 1;
            tracking_number := "TRK112345" |} ];
     order_items :=
       [ {| order_item_id := 1; item_order_id := 1; item_variant_id := Some 5;
            item_quantity := 2; item_unit_price := Some 1000 |} ];
     product_variants := {[ 5 := 8 ]};
     next_address_id := 2;
     next_order_id := 2;
     next_order_item_id := 2 |}.

Definition placed_world : world :=
  {| sys := set_committed placed_database sample_world; fault := [] |}.

Lemma placed_database_placed :
  committed (post_orders sample_request sample_world).2 = placed_database.
Proof. by vm_compute. Qed.

Lemma placed_database_consistent : consistent placed_database.
Proof.
  repeat split; cbn.
  - apply NoDup_singleton.
  - repeat constructor.
  - repeat constructor.
  - repeat constructor.
  - apply NoDup_singleton.
  - apply NoDup_singleton.
  - repeat constructor.
  - apply NoDup_singleton.
  - constructor; [|constructor]. eexists. split; [left|reflexivity].
  - constructor; [|constructor]. split; [|split].
    + eexists. split; [left|reflexivity].
    + eexists. split; [left|]. done.
    + eexists. split; [left|]. done.
Qed.

Lemma status_changes_keep_consistency_witness :
  status_code (patch_orders_cancel "clerk_u1" 1 placed_world).1 = 200
  ∧ consistent (committed (patch_orders_cancel "clerk_u1" 1 placed_world).2)
  ∧ product_variants (committed (patch_orders_cancel "clerk_u1" 1 placed_world).2)
    = {[ 5 := 8 ]}.
Proof.
  split; [reflexivity|].
  destruct (status_changes_keep_consistency placed_world
              (patch_orders_cancel "clerk_u1" 1 placed_world).2
              (patch_orders_cancel "clerk_u1" 1 placed_world).1)
    as (Hc & _ & Hp).
  - right. right. exists "clerk_u1", 1. apply surjective_pairing.
  - exact placed_database_consistent.
  - split; [exact Hc | exact Hp].
Defined.

(** * Who passes the admin middlewares *)

(** A header value as a request delivers it: the blanks around it, spaces
    and tabs, are taken off before the application sees it. *)
Definition is_blank (c : ascii) : bool := Ascii.eqb c " " || Ascii.eqb c "009".

Fixpoint last_char (s : string) : option ascii :=
  match s with
  | EmptyString => None
  | String c EmptyString => Some c
  | String _ s' => last_char s'
  end.

Definition header_value (h : string) : Prop :=
  match h with
  | EmptyString => True
  | String c _ => is_blank c = false
  end
  ∧ match last_char h with
    | Some c => is_blank c = false
    | None => True
    end.

Lemma token_of_bearer (h : string) (cookie : js string) :
  String.prefix "Bearer " h = true →
  token_of {| authorization := val h; auth_token := cookie |}
  = val (until_space (string_skip 7 h)).
Proof.
  intros Hp. unfold token_of. cbn [authorization auth_token truthy_string].
  rewrite Hp. destruct h as [|c h]; [discriminate|]. reflexivity.
Qed.

Lemma token_of_cookie (h cookie : js string) :
  (∀ s, h = val s → String.prefix "Bearer " s = false) →
  token_of {| authorization := h; auth_token := cookie |} = cookie.
Proof.
  intros Hp. unfold token_of. cbn [authorization auth_token].
  destruct h as [| |s]; [done..|]. rewrite (Hp s eq_refl). by rewrite andb_false_r.
Qed.

Lemma prefix_String a s1 b s2 :
  String.prefix (String a s1) (String b s2) = true → a = b ∧ String.prefix s1 s2 = true.
Proof. cbn [String.prefix]. by destruct (ascii_dec a b). Qed.

Section admin_middlewares_facts.
Variable jwt_verify : string → option jwt_payload.

(** The credentials of an administrator: the token they carry is not empty
    and verifies to a payload whose role is ["admin"]. *)
Definition admin_credentials (c : credentials) : Prop :=
  ∃ token payload,
    token_of c = val token ∧ token ≠ ""
    ∧ jwt_verify token = Some payload ∧ role payload = val "admin".

(** X16: the handler of an admin route runs exactly for the credentials of
    an administrator, and then the route is the handler.  Every other
    request is answered 401 or 403 by the two middlewares and leaves the
    world as it was: no round trip to the store is made. *)
Theorem admin_route_guarded {A} (c : credentials) (handler : world → A * world) (w : world) :
  match admin_route jwt_verify c handler w with
  | (Next res, w') => admin_credentials c ∧ handler w = (res, w')
  | (Stop st msg, w') =>
      ¬ admin_credentials c ∧ w' = w
      ∧ (st, msg) ∈ [ (401, "Unauthorized: No token provided");
                      (401, "Invalid token");
                      (403, "Forbidden: Admins only") ]
  end.
Proof.
  unfold admin_route, authenticate, authorizeAdmin, admin_credentials.
  destruct (token_of c) as [| |token] eqn:Et.
  - split; [by intros (? & ? & ? & _)|]. split; [done|]. left.
  - split; [by intros (? & ? & ? & _)|]. split; [done|]. left.
  - cbn [truthy_string]. destruct (String.eqb token "") eqn:Ee; cbn [negb].
    { apply String.eqb_eq in Ee as ->.
      split; [by intros (? & ? & [= <-] & ? & _)|]. split; [done|]. left. }
    apply String.eqb_neq in Ee.
    destruct (jwt_verify token) as [payload|] eqn:Ev.
    + destruct (role payload) as [| |r] eqn:Er.
      * split; [|split; [done|right; right; left]].
        intros (? & ? & [= <-] & _ & Hv & Hr). congruence.
      * split; [|split; [done|right; right; left]].
        intros (? & ? & [= <-] & _ & Hv & Hr). congruence.
      * destruct (String.eqb r "admin") eqn:Ea.
        -- apply String.eqb_eq in Ea as ->.
           destruct (handler w) as [res w1]. split; [|done].
           by exists token, payload.
        -- apply String.eqb_neq in Ea.
           split; [|split; [done|right; right; left]].
           intros (? & ? & [= <-] & _ & Hv & Hr). congruence.
    + split; [|split; [done|right; left]].
      intros (? & ? & [= <-] & _ & Hv & _). congruence.
Qed.

(** X17: a header that starts with ["Bearer "] decides alone.  The header
    is one as a request delivers it, without blanks around it.  When it
    starts with ["Bearer "] the cookie is never read: a header with a second
    space after ["Bearer "] is answered 401 whatever token the cookie holds,
    and every other such header carries a token that is not empty, whose
    verification is the answer.  Any other header, the bare word ["Bearer"]
    included, leaves the decision to the cookie. *)
Theorem bearer_header_shadows_cookie (h : string) (cookie cookie' : js string) :
  header_value h →
  (String.prefix "Bearer " h = true →
     authenticate jwt_verify {| authorization := val h; auth_token := cookie |}
     = authenticate jwt_verify {| authorization := val h; auth_token := cookie' |})
  ∧ (String.prefix "Bearer  " h = true →
     authenticate jwt_verify {| authorization := val h; auth_token := cookie |}
     = Stop 401 "Unauthorized: No token provided")
  ∧ (String.prefix "Bearer " h = true → String.prefix "Bearer  " h = false →
     ∃ token,
       token ≠ "" ∧ token = until_space (string_skip 7 h)
       ∧ authenticate jwt_verify {| authorization := val h; auth_token := cookie |}
         = match jwt_verify token with
           | Some decoded => Next decoded
           | None => Stop 401 "Invalid token"
           end)
  ∧ (String.prefix "Bearer " h = false →
     authenticate jwt_verify {| authorization := val h; auth_token := cookie |}
     = authenticate jwt_verify {| authorization := undefined; auth_token := cookie |}).
Proof.
  intros [_ Hlast]. split; [|split; [|split]].
  - intros Hp. unfold authenticate. by rewrite !token_of_bearer.
  - intros Hp.
    assert (Hp' : String.prefix "Bearer " h = true ∧ until_space (string_skip 7 h) = "").
    { do 8 (destruct h as [|? h]; [discriminate|];
            apply prefix_String in Hp as [<- Hp]).
      done. }
    destruct Hp' as [Hp' Hu]. unfold authenticate. by rewrite token_of_bearer, Hu.
  - intros Hp Hp2. exists (until_space (string_skip 7 h)).
    assert (Hne : until_space (string_skip 7 h) ≠ "").
    { pose proof Hp as Hp7.
      do 7 (destruct h as [|? h]; [discriminate|];
            apply prefix_String in Hp7 as [<- Hp7]).
      destruct h as [|c h]; [vm_compute in Hlast; discriminate|].
      cbn [string_skip until_space].
      destruct (Ascii.eqb_spec c " ") as [->|Hc]; [|done].
      clear -Hp2. destruct h; vm_compute in Hp2; discriminate. }
    split; [done|]. split; [done|].
    unfold authenticate. rewrite token_of_bearer by done.
    cbn [truthy_string]. apply String.eqb_neq in Hne. by rewrite Hne.
  - intros Hp. unfold authenticate. rewrite !token_of_cookie; [done|done|].
    by intros s [= <-].
Qed.
End admin_middlewares_facts.

(** A verifier that accepts the token ["good"] as an administrator's. *)
Definition sample_jwt_verify (token : string) : option jwt_payload :=
  if String.eqb token "good" then Some {| role := val "admin" |} else None.

Lemma bearer_header_shadows_cookie_witness :
  authenticate sample_jwt_verify
    {| authorization := val "Bearer  good"; auth_token := val "good" |}
  = Stop 401 "Unauthorized: No token provided"
  ∧ authenticate sample_jwt_verify
      {| authorization := val "Bearer bad"; auth_token := val "good" |}
    = Stop 401 "Invalid token"
  ∧ authenticate sample_jwt_verify
      {| authorization := val "Bearer"; auth_token := val "good" |}
    = Next {| role := val "admin" |}.
Proof.
  split; [|split].
  - destruct (bearer_header_shadows_cookie sample_jwt_verify "Bearer  good"
                (val "good") undefined) as (_ & Hnone & _).
    + split; reflexivity.
    + apply Hnone. reflexivity.
  - destruct (bearer_header_shadows_cookie sample_jwt_verify "Bearer bad"
                (val "good") undefined) as (_ & _ & Htoken & _).
    + split; reflexivity.
    + destruct (Htoken eq_refl eq_refl) as (token & _ & -> & ->). reflexivity.
  - destruct (bearer_header_shadows_cookie sample_jwt_verify "Bearer"
                (val "good") undefined) as (_ & _ & _ & Hcookie).
    + split; reflexivity.
    + rewrite Hcookie; reflexivity.
Defined.

(** * What the reads answer *)

(** [m] leaves the system as it is, whether it returns or throws. *)
Definition reads_only {A} (m : M A) : Prop :=
  ∀ (w : world) r (w' : world), m w = (r, w') → sys w' = sys w.

Lemma reads_only_ret {A} (a : A) : reads_only (mret a).
Proof. by intros w r w' [= <- <-]. Qed.

Lemma reads_only_throw {A} (e : exn) : reads_only (throw (A := A) e).
Proof. by intros w r w' [= <- <-]. Qed.

Lemma reads_only_bind {A B} (m : M A) (f : A → M B) :
  reads_only m → (∀ a, reads_only (f a)) → reads_only (m ≫= f).
Proof.
  intros Hm Hf w r w'. rewrite bind_run.
  destruct (m w) as [[a|e] w1] eqn:E.
  - intros H. apply Hf in H. apply Hm in E. congruence.
  - intros [= <- <-]. by apply Hm in E.
Qed.

Lemma reads_only_pool_read {A} (q : database → A) : reads_only (pool_read q).
Proof. intros w r w'. apply pool_read_sys. Qed.

Lemma reads_only_getUserByClerkId clerkId : reads_only (getUserByClerkId clerkId).
Proof. intros w r w'. apply getUserByClerkId_sys. Qed.

Lemma reads_only_map_M {A B} (f : A → M B) l :
  (∀ x, reads_only (f x)) → reads_only (map_M f l).
Proof.
  intros Hf. induction l as [|x l IH]; cbn [map_M]; [apply reads_only_ret|].
  apply reads_only_bind; [apply Hf | intros y].
  apply reads_only_bind; [apply IH | intros ys; apply reads_only_ret].
Qed.

Lemma pool_read_same {A} (q q' : database → A) (w : world) :
  q (committed w) = q' (committed w) → pool_read q w = pool_read q' w.
Proof.
  intros H. unfold pool_read. rewrite !bind_run.
  destruct (round_trip w) as [[[]|e] w1] eqn:E; [|done].
  apply round_trip_sys in E. unfold gets. by rewrite E, H.
Qed.

Section user_views_facts.
Variable by_created_desc : list order_row → list order_row.
Variable item_view_error : option string.


Lemma reads_only_select_items_view orderId : reads_only (select_items_view item_view_error orderId).
Proof.
  unfold select_items_view. destruct item_view_error as [m|].
  - apply reads_only_bind; [intros w r w'; apply round_trip_sys|].
    intros _. apply reads_only_throw.
  - apply reads_only_pool_read.
Qed.

Lemma reads_only_with_items row : reads_only (with_items item_view_error row).
Proof.
  apply reads_only_bind; [apply reads_only_select_items_view|].
  intros items. apply reads_only_ret.
Qed.

Lemma reads_only_list_orders clerkId : reads_only (list_orders by_created_desc item_view_error clerkId).
Proof.
  apply reads_only_bind; [apply reads_only_getUserByClerkId|].
  intros [user|]; [|apply reads_only_ret].
  apply reads_only_bind; [apply reads_only_pool_read | intros orders].
  apply reads_only_bind; [|intros ?; apply reads_only_ret].
  apply reads_only_map_M, reads_only_with_items.
Qed.

Lemma reads_only_find_order clerkId id : reads_only (find_order item_view_error clerkId id).
Proof.
  apply reads_only_bind; [apply reads_only_getUserByClerkId|].
  intros [user|]; [|apply reads_only_ret].
  apply reads_only_bind; [apply reads_only_pool_read | intros orders].
  destruct orders as [|[[o sa] ba] rest]; [apply reads_only_ret|].
  apply reads_only_bind; [apply reads_only_select_items_view|].
  intros items. apply reads_only_ret.
Qed.

(** X18: the two GET handlers only read.  Whatever they answer, and whichever
    round trip fails, the store, an open transaction, the random source and
    the clock are what they were. *)
Theorem get_handlers_read_only clerkId (id : Z) (w : world) :
  sys (get_orders by_created_desc item_view_error clerkId w).2 = sys w
  ∧ sys (get_order item_view_error clerkId id w).2 = sys w.
Proof.
  split.
  - unfold get_orders.
    destruct (list_orders by_created_desc item_view_error clerkId w) as [[res|e] w1] eqn:E;
      by apply reads_only_list_orders in E.
  - unfold get_order.
    destruct (find_order item_view_error clerkId id w) as [[res|e] w1] eqn:E;
      by apply reads_only_find_order in E.
Qed.

Lemma select_user_order_nil id uid d :
  select_user_order id uid d = []
  ↔ ∀ o, o ∈ orders d → order_id o = id → order_user_id o ≠ uid.
Proof.
  unfold select_user_order. split.
  - intros H o Ho Hid Huid. apply fmap_nil_inv in H.
    assert (Hin : In o (List.filter (λ o, (order_id o =? id) && (order_user_id o =? uid))
                          (orders d))).
    { apply filter_In. split; [by apply list_elem_of_In|].
      apply andb_true_iff. by rewrite !Z.eqb_eq. }
    rewrite H in Hin. destruct Hin.
  - intros H. destruct (List.filter _ (orders d)) as [|o os] eqn:E; [done|].
    assert (Hin : In o (List.filter (λ o, (order_id o =? id) && (order_user_id o =? uid))
                          (orders d))) by (rewrite E; by left).
    apply filter_In in Hin as [Hin Hb]. apply andb_true_iff in Hb as [Hid Huid].
    apply Z.eqb_eq in Hid, Huid. apply list_elem_of_In in Hin.
    by destruct (H o Hin Hid Huid).
Qed.

Lemma find_order_same clerkId (id id' : Z) (w : world) :
  (∀ user, head (select_users_by_clerk_id clerkId (committed w)) = Some user →
     select_user_order id (user_id user) (committed w) = []
     ∧ select_user_order id' (user_id user) (committed w) = []) →
  find_order item_view_error clerkId id w = find_order item_view_error clerkId id' w.
Proof.
  intros H. unfold find_order. rewrite !bind_run.
  destruct (getUserByClerkId clerkId w) as [[user|e] w1] eqn:Eu; [|done].
  apply getUserByClerkId_inl in Eu as [-> Hs].
  destruct (head _) as [user|] eqn:Ehead; [|done].
  destruct (H user eq_refl) as [H1 H2]. rewrite !bind_run.
  assert (Hc : committed w1 = committed w) by (by rewrite Hs).
  rewrite (pool_read_same (select_user_order id (user_id user)) (λ _, []) w1)
    by (by rewrite Hc).
  rewrite (pool_read_same (select_user_order id' (user_id user)) (λ _, []) w1)
    by (by rewrite Hc).
  destruct (pool_read _ w1) as [[orders|e] w2] eqn:E; [|done].
  apply pool_read_inl in E as [-> _]. done.
Qed.

(** X19: an order of somebody else cannot be told from an order that does not
    exist.  The whole outcome of GET [/:id], response and world, is the same
    for an id whose orders all belong to other users and for an id that no
    order has, also when a round trip fails. *)
Theorem get_order_hides_foreign_orders clerkId (id id' : Z) (w : world) :
  (∀ user o, head (select_users_by_clerk_id clerkId (committed w)) = Some user →
     o ∈ orders (committed w) → order_id o = id → order_user_id o ≠ user_id user) →
  (∀ o, o ∈ orders (committed w) → order_id o ≠ id') →
  get_order item_view_error clerkId id w = get_order item_view_error clerkId id' w.
Proof.
  intros Hforeign Hmissing. unfold get_order.
  rewrite (find_order_same clerkId id id' w); [done|].
  intros user Hu. split; apply select_user_order_nil.
  - intros o. by apply Hforeign.
  - intros o Ho Hid. by destruct (Hmissing o Ho).
Qed.
End user_views_facts.

(** ** What the listings hold *)

(** The view of a joined order row over the store [d]. *)
Definition view_of (d : database)
    (row : order_row * option address_row * option address_row) : order_view :=
  {| view_order := row.1.1; view_shipping := row.1.2; view_billing := row.2;
     view_items := select_order_items (order_id row.1.1) d |}.

Lemma select_items_view_ok orderId (w : world) :
  fault w = [] →
  select_items_view None orderId w = (inl (select_order_items orderId (committed w)), w).
Proof. intros Hf. unfold select_items_view. by apply pool_read_ok. Qed.

Lemma select_items_view_rejected m orderId (w : world) :
  fault w = [] → select_items_view (Some m) orderId w = (inr (Error m), w).
Proof.
  intros Hf. unfold select_items_view.
  by rewrite (bind_step _ _ _ _ _ (round_trip_no_fault _ Hf)).
Qed.

Lemma select_items_view_inl orderId (w : world) items (w' : world) :
  select_items_view None orderId w = (inl items, w') →
  items = select_order_items orderId (committed w) ∧ sys w' = sys w.
Proof. unfold select_items_view. apply pool_read_inl. Qed.

Lemma with_items_ok row (w : world) :
  fault w = [] → with_items None row w = (inl (view_of (committed w) row), w).
Proof.
  intros Hf. unfold with_items.
  by rewrite (bind_step _ _ _ _ _ (select_items_view_ok _ _ Hf)).
Qed.

Lemma map_M_with_items_ok rows (w : world) :
  fault w = [] →
  map_M (with_items None) rows w = (inl (view_of (committed w) <$> rows), w).
Proof.
  intros Hf. induction rows as [|row rows IH]; [done|]. cbn [map_M].
  rewrite (bind_step _ _ _ _ _ (with_items_ok _ _ Hf)).
  by rewrite (bind_step _ _ _ _ _ IH).
Qed.

Lemma map_M_with_items_inl rows (w : world) views (w' : world) :
  map_M (with_items None) rows w = (inl views, w') →
  views = view_of (committed w) <$> rows.
Proof.
  revert w views w'. induction rows as [|row rows IH]; intros w views w' H.
  - by injection H as <- _.
  - cbn [map_M] in H. apply bind_inl in H as (v & w1 & Ev & H).
    apply bind_inl in H as (vs & w2 & Evs & H). injection H as <- _.
    unfold with_items in Ev. apply bind_inl in Ev as (items & w0 & Ei & Ev).
    apply select_items_view_inl in Ei as [-> Hs0]. injection Ev as <- <-.
    apply IH in Evs as ->. rewrite Hs0. reflexivity.
Qed.

Lemma elem_of_filter_own uid (l : list order_row) o :
  o ∈ List.filter (λ o, order_user_id o =? uid) l ↔ o ∈ l ∧ order_user_id o = uid.
Proof. by rewrite !list_elem_of_In, filter_In, Z.eqb_eq. Qed.

Section listing.
Variable by_created_desc : list order_row → list order_row.
(** Sorting keeps the rows. *)
Hypothesis by_created_desc_perm : ∀ l, by_created_desc l ≡ₚ l.

(** [views] is the listing of the orders of [user] in [d]: one view for each
    of them and for no other order, each with the addresses its order
    refers to and with the items of that order alone. *)
Definition listing_of (d : database) (user : user_row) (views : list order_view) : Prop :=
  view_order <$> views
  = by_created_desc (List.filter (λ o, order_user_id o =? user_id user) (orders d))
  ∧ (∀ o, o ∈ view_order <$> views ↔ o ∈ orders d ∧ order_user_id o = user_id user)
  ∧ Forall
      (λ v, view_shipping v = join_address (shipping_address_id (view_order v)) d
            ∧ view_billing v = join_address (billing_address_id (view_order v)) d
            ∧ ∀ r, r ∈ view_items v ↔ r ∈ order_items d ∧ item_order_id r = order_id (view_order v))
      views.

Lemma listing_of_select (d : database) (user : user_row) :
  listing_of d user (view_of d <$> select_user_orders by_created_desc (user_id user) d).
Proof.
  unfold select_user_orders.
  assert (Hv : view_order <$> (view_of d <$> (join_addresses d <$>
                 by_created_desc
                   (List.filter (λ o, order_user_id o =? user_id user) (orders d))))
               = by_created_desc
                   (List.filter (λ o, order_user_id o =? user_id user) (orders d))).
  { rewrite <- !list_fmap_compose. etrans; [|apply list_fmap_id].
    by apply list_fmap_ext. }
  split; [exact Hv|]. split.
  - intros o. rewrite Hv, by_created_desc_perm. apply elem_of_filter_own.
  - rewrite <- list_fmap_compose. apply Forall_fmap, Forall_forall. intros o _. cbn.
    split; [done|]. split; [done|]. intros r. unfold select_order_items.
    by rewrite !list_elem_of_In, filter_In, Z.eqb_eq.
Qed.

(** X20: what GET [/] lists.  For a known user and round trips that do not
    fail, the answer is 200 with the listing of that user's orders: every
    order of the user and no order of anyone else, each with its own items
    only.  The world is left as it was. *)
Theorem get_orders_lists_own_orders clerkId (w : world) user :
  fault w = [] →
  head (select_users_by_clerk_id clerkId (committed w)) = Some user →
  ∃ views,
    get_orders by_created_desc None clerkId w = (reply_ok views, w)
    ∧ listing_of (committed w) user views.
Proof.
  intros Hf Hu. eexists. split; [|apply listing_of_select].
  unfold get_orders, list_orders.
  rewrite (bind_step _ _ _ _ _ (getUserByClerkId_ok _ _ Hf)), Hu.
  rewrite (bind_step _ _ _ _ _ (pool_read_ok _ _ Hf)).
  rewrite (bind_step _ _ _ _ _ (map_M_with_items_ok _ _ Hf)).
  reflexivity.
Qed.

(** X21: a listing is never partial.  Whatever round trip fails, a response of
    GET [/] that carries data carries the whole listing of the user's
    orders; a failure in any of the item queries gives no data at all. *)
Theorem get_orders_never_partial clerkId (w w' : world) res views :
  get_orders by_created_desc None clerkId w = (res, w') →
  reply_data res = Some views →
  ∃ user,
    head (select_users_by_clerk_id clerkId (committed w)) = Some user
    ∧ res = reply_ok views
    ∧ listing_of (committed w) user views.
Proof.
  unfold get_orders. intros H Hdata.
  destruct (list_orders by_created_desc None clerkId w) as [[res0|e] w1] eqn:E;
    injection H as <- <-; [|discriminate].
  unfold list_orders in E.
  apply bind_inl in E as (user & wu & Eu & E).
  apply getUserByClerkId_inl in Eu as [-> Hsu].
  destruct (head _) as [user|]; [|injection E as <- _; discriminate].
  apply bind_inl in E as (rows & wr & Er & E).
  apply pool_read_inl in Er as [-> Hsr].
  apply bind_inl in E as (vs & wv & Ev & E).
  apply map_M_with_items_inl in Ev as ->. injection E as <- _.
  injection Hdata as <-. exists user. split; [done|].
  rewrite Hsr, Hsu. split; [done|]. apply listing_of_select.
Qed.
End listing.

(** The placed store with a second user who has no orders. *)
Definition shared_database : database :=
  {| users := users placed_database ++ [ {| user_id := 2; clerk_id := "clerk_u2" |} ];
     addresses := addresses placed_database;
     orders := orders placed_database;
     order_items := order_items placed_database;
     product_variants := product_variants placed_database;
     next_address_id := next_address_id placed_database;
     next_order_id := next_order_id placed_database;
     next_order_item_id := next_order_item_id placed_database |}.

Definition shared_world : world :=
  {| sys := set_committed shared_database sample_world; fault := [] |}.

Lemma get_order_hides_foreign_orders_witness :
  get_order None "clerk_u2" 1 shared_world = get_order None "clerk_u2" 9 shared_world
  ∧ reply_status (get_order None "clerk_u2" 1 shared_world).1 = 404
  ∧ reply_status (get_order None "clerk_u1" 1 shared_world).1 = 200.
Proof.
  split; [|split; reflexivity].
  apply (get_order_hides_foreign_orders None "clerk_u2" 1 9 shared_world).
  - intros user o [= <-] Ho _. apply list_elem_of_singleton in Ho as ->. discriminate.
  - intros o Ho. apply list_elem_of_singleton in Ho as ->. discriminate.
Defined.

Lemma get_orders_lists_own_orders_witness :
  ∃ views,
    get_orders reverse None "clerk_u1" placed_world = (reply_ok views, placed_world)
    ∧ listing_of reverse placed_database {| user_id := 1; clerk_id := "clerk_u1" |} views.
Proof.
  apply (get_orders_lists_own_orders reverse reverse_Permutation "clerk_u1" placed_world
           {| user_id := 1; clerk_id := "clerk_u1" |}); reflexivity.
Defined.

Lemma get_orders_never_partial_witness :
  ∃ user,
    head (select_users_by_clerk_id "clerk_u1" placed_database) = Some user
    ∧ (get_orders reverse None "clerk_u1" placed_world).1
      = reply_ok [view_of placed_database
                    (join_addresses placed_database
                       (new_order_row 1 (val 2000) 1 1 "TRK112345" 1))]
    ∧ listing_of reverse placed_database user
        [view_of placed_database
           (join_addresses placed_database
              (new_order_row 1 (val 2000) 1 1 "TRK112345" 1))].
Proof.
  apply (get_orders_never_partial reverse reverse_Permutation "clerk_u1" placed_world
           (get_orders reverse None "clerk_u1" placed_world).2).
  - apply surjective_pairing.
  - reflexivity.
Defined.

(** ** Reading back what was created *)

Lemma select_user_order_select_order id uid d :
  (∀ o, o ∈ orders d → order_id o = id → order_user_id o = uid) →
  select_user_order id uid d = select_order id d.
Proof.
  intros H. unfold select_user_order, select_order, join_addresses.
  change (@fmap list _ _ _) with (@List.map (order_row)
    (order_row * option address_row * option address_row)).
  f_equal. apply filter_ext_in. intros o Ho. apply list_elem_of_In in Ho.
  destruct (order_id o =? id) eqn:E; [|done]. apply Z.eqb_eq in E.
  cbn. apply Z.eqb_eq. by apply H.
Qed.

(** The columns of [orders], of a joined address and of [order_items] that
    both the re-read of order creation and GET [/:id] select. *)
Definition order_columns (o : order_row)
  : Z * Z * option Z * order_status * string :=
  (order_id o, order_user_id o, total_amount o, status o, tracking_number o).

Definition address_columns (a : option address_row)
  : option string * option string * option string * option string * option string :=
  (a ≫= address_street, a ≫= address_city, a ≫= address_state, a ≫= address_country,
   a ≫= address_postal_code).

Definition item_columns (r : order_item_row) : Z * Z * option Z * Z * option Z :=
  (order_item_id r, item_order_id r, item_variant_id r, item_quantity r,
   item_unit_price r).

(** X22: the order a 201 response reports is the order GET [/:id] then gives
    its owner.  When order ids below the counter are the only ones in use,
    the reads that follow do not fail and the item query is accepted, asking
    for the reported id answers 200 with the same order: the same id, user,
    total, status and tracking number, the same shipping and billing
    address components, and the same line items on their id, order id,
    variant id, quantity and unit price.  The product columns are left out
    of the comparison: the two item queries take them from different
    tables. *)
Theorem get_order_after_create (req : request) (w w' : world) res order :
  txn w = None → order_keys_ok (committed w) →
  post_orders req w = (inl res, w') →
  status_code res = 201 → data res = Some order →
  fault w' = [] →
  ∃ found,
    get_order None (clerk_user_id req) (order_id (view_order order)) w'
    = (reply_ok found, w')
    ∧ order_columns (view_order found) = order_columns (view_order order)
    ∧ address_columns (view_shipping found) = address_columns (view_shipping order)
    ∧ address_columns (view_billing found) = address_columns (view_billing order)
    ∧ item_columns <$> view_items found = item_columns <$> view_items order.
Proof.
  intros Ht [Hkeys _] Hpost H201 Hdata Hf.
  destruct (post_orders_created _ _ _ _ Ht Hpost H201)
    as (its & sa & ba & user & w0 & w1 & wc & orderId & order1
        & _ & _ & _ & _ & Hu & H0 & Hsteps & Hc & Hread & ->).
  injection Hdata as <-.
  pose proof (read_order_sys _ _ _ _ Hread) as Hs'.
  apply read_order_inl in Hread as [Hitems [rest Hsel]].
  destruct (create_order_full _ _ _ _ _ _ _ _ Hsteps)
    as (sid & bid & t & wA & wB & _ & _ & _ & Hid & Husers & _ & _ & Horders & _).
  assert (Hcur0 : current w0 = committed w) by (by rewrite H0).
  assert (Hcurc : current wc = current w1) by (by rewrite Hc).
  assert (Hcom : committed w' = current w1) by (by rewrite Hs', Hc).
  rewrite Hcur0 in Hid, Husers, Horders. rewrite Hcurc in Hitems, Hsel.
  assert (Hown : ∀ o, o ∈ orders (current w1) → order_id o = orderId →
                      order_user_id o = user_id user).
  { intros o Ho Hido. rewrite Horders in Ho. apply elem_of_app in Ho as [Ho|Ho].
    - rewrite Forall_forall in Hkeys. apply Hkeys in Ho. lia.
    - by apply list_elem_of_singleton in Ho as ->. }
  assert (Hidv : order_id (view_order order1) = orderId).
  { assert (Hin : In (view_order order1, view_shipping order1, view_billing order1)
                    (select_order orderId (current w1))) by (rewrite Hsel; by left).
    unfold select_order in Hin. apply in_map_iff in Hin as (o & [= <- _ _] & Hin).
    by apply filter_In in Hin as [_ E%Z.eqb_eq]. }
  unfold get_order, find_order.
  rewrite (bind_step _ _ _ _ _ (getUserByClerkId_ok _ _ Hf)).
  rewrite Hcom. unfold select_users_by_clerk_id at 1. rewrite Husers.
  fold (select_users_by_clerk_id (clerk_user_id req) (committed w)). rewrite Hu.
  rewrite (bind_step _ _ _ _ _ (pool_read_ok _ _ Hf)).
  rewrite Hcom, Hidv, (select_user_order_select_order _ _ _ Hown), Hsel.
  rewrite (bind_step _ _ _ _ _ (select_items_view_ok _ _ Hf)).
  rewrite Hcom, <- Hitems. eexists. split; [reflexivity|]. done.
Qed.

Lemma get_order_after_create_witness :
  ∃ found,
    (get_order None "clerk_u1" 1 (post_orders sample_request sample_world).2).1
    = reply_ok found
    ∧ order_columns (view_order found) = (1, 1, Some 2000, pending, "TRK112345")
    ∧ item_columns <$> view_items found = [(1, 1, Some 5, 2, Some 1000)].
Proof.
  destruct (get_order_after_create sample_request sample_world
              (post_orders sample_request sample_world).2
              (created sample_order) sample_order)
    as (found & Hrun & Horder & _ & _ & Hitems).
  - reflexivity.
  - split; constructor.
  - exact (run_inl _ _ _ sample_request_created).
  - reflexivity.
  - reflexivity.
  - reflexivity.
  - exists found. split; [exact (f_equal fst Hrun)|]. split; [exact Horder | exact Hitems].
Defined.

(** ** When the store rejects the item query *)

Lemma map_M_with_items_rejected m row rows (w : world) :
  fault w = [] →
  map_M (with_items (Some m)) (row :: rows) w = (inr (Error m), w).
Proof.
  intros Hf. cbn [map_M]. unfold with_items at 1.
  apply bind_throw, bind_throw. by apply select_items_view_rejected.
Qed.

(** X23: if the store rejects the item query of the two user-facing reads
    (they name a table [variants] and a column [products.name] that no other
    query of the router uses), a user who has an order can read none of
    them: GET [/:id] of an own order and GET [/] answer 500 with the
    message of the store.  Only a user without orders still gets a 200, with
    an empty list. *)
Theorem rejected_item_query_fails_reads (by_created_desc : list order_row → list order_row)
    m clerkId (w : world) user :
  (∀ l, by_created_desc l ≡ₚ l) →
  fault w = [] →
  head (select_users_by_clerk_id clerkId (committed w)) = Some user →
  (∀ o, o ∈ orders (committed w) → order_user_id o = user_id user →
     get_order (Some m) clerkId (order_id o) w
     = (reply_failed "Failed to fetch order" (Error m), w)
     ∧ get_orders by_created_desc (Some m) clerkId w
       = (reply_failed "Failed to fetch orders" (Error m), w))
  ∧ ((∀ o, o ∈ orders (committed w) → order_user_id o ≠ user_id user) →
     get_orders by_created_desc (Some m) clerkId w = (reply_ok [], w)).
Proof.
  intros Hperm Hf Hu. split.
  - intros o Ho Huid. split.
    + unfold get_order, find_order.
      rewrite (bind_step _ _ _ _ _ (getUserByClerkId_ok _ _ Hf)), Hu.
      rewrite (bind_step _ _ _ _ _ (pool_read_ok _ _ Hf)).
      destruct (select_user_order (order_id o) (user_id user) (committed w))
        as [|[[o1 sa] ba] rest] eqn:E.
      { pose proof (proj1 (select_user_order_nil _ _ _) E o Ho eq_refl). done. }
      by rewrite (bind_throw _ _ _ _ _ (select_items_view_rejected m _ _ Hf)).
    + unfold get_orders, list_orders.
      rewrite (bind_step _ _ _ _ _ (getUserByClerkId_ok _ _ Hf)), Hu.
      rewrite (bind_step _ _ _ _ _ (pool_read_ok _ _ Hf)).
      destruct (select_user_orders by_created_desc (user_id user) (committed w))
        as [|row rows] eqn:E.
      { unfold select_user_orders in E. apply fmap_nil_inv in E.
        assert (Hin : o ∈ by_created_desc
                        (List.filter (λ o, order_user_id o =? user_id user)
                           (orders (committed w))))
          by (rewrite Hperm; by apply elem_of_filter_own).
        rewrite E in Hin. by apply elem_of_nil in Hin. }
      by rewrite (bind_throw _ _ _ _ _ (map_M_with_items_rejected m _ _ _ Hf)).
  - intros Hnone. unfold get_orders, list_orders.
    rewrite (bind_step _ _ _ _ _ (getUserByClerkId_ok _ _ Hf)), Hu.
    rewrite (bind_step _ _ _ _ _ (pool_read_ok _ _ Hf)).
    assert (E : select_user_orders by_created_desc (user_id user) (committed w) = []).
    { unfold select_user_orders.
      destruct (by_created_desc _) as [|o os] eqn:E; [done|].
      assert (Hin : o ∈ by_created_desc
                      (List.filter (λ o, order_user_id o =? user_id user)
                         (orders (committed w)))) by (rewrite E; left).
      rewrite Hperm in Hin. apply elem_of_filter_own in Hin as [Hin Huid].
      by destruct (Hnone o Hin). }
    rewrite E. reflexivity.
Qed.

Lemma rejected_item_query_fails_reads_witness :
  reply_status (get_orders reverse (Some "Table 'variants' doesn't exist")
                  "clerk_u1" shared_world).1 = 500
  ∧ get_orders reverse (Some "Table 'variants' doesn't exist") "clerk_u2" shared_world
    = (reply_ok [], shared_world).
Proof.
  split.
  - destruct (rejected_item_query_fails_reads reverse "Table 'variants' doesn't exist"
                "clerk_u1" shared_world {| user_id := 1; clerk_id := "clerk_u1" |}
                reverse_Permutation eq_refl eq_refl) as [Hfail _].
    destruct (Hfail (new_order_row 1 (val 2000) 1 1 "TRK112345" 1)) as [_ Hall].
    + left.
    + reflexivity.
    + rewrite Hall. reflexivity.
  - destruct (rejected_item_query_fails_reads reverse "Table 'variants' doesn't exist"
                "clerk_u2" shared_world {| user_id := 2; clerk_id := "clerk_u2" |}
                reverse_Permutation eq_refl eq_refl) as [_ Hempty].
    apply Hempty. intros o Ho. apply list_elem_of_singleton in Ho as ->. discriminate.
Defined.

(** * Which route serves a request *)

Lemma lower_ascii_slash c : Ascii.eqb (lower_ascii c) "/" = Ascii.eqb c "/".
Proof. by destruct c as [[] [] [] [] [] [] [] []]. Qed.

Lemma has_slash_lower s : has_slash (lower s) = has_slash s.
Proof.
  induction s as [|c s IH]; [done|]. cbn [lower has_slash].
  by rewrite lower_ascii_slash, IH.
Qed.

(** A segment that matches a literal would match a parameter too. *)
Lemma lit_is_param l s :
  l ≠ "" → has_slash l = false →
  piece_matches (Lit l) s = true → piece_matches Param s = true.
Proof.
  intros Hl Hslash H. cbn [piece_matches] in *. apply String.eqb_eq in H.
  apply andb_true_iff. split; apply negb_true_iff.
  - apply String.eqb_neq. intros ->. destruct l; [done | discriminate].
  - by rewrite <- has_slash_lower, <- H, has_slash_lower.
Qed.

Section routing_facts.
Variable decodeURIComponent : string → option string.

(** X24: three registered routes never serve a request.  The admin listing
    and the admin cancellation have the verb and path of a user route
    registered before them, and [/health] is a one-segment GET like [/:id]:
    whatever the verb and the path, and whatever decodes, dispatch never
    selects them. *)
Theorem shadowed_routes_unreachable (h : handler_name) :
  h ∈ [AdminListOrders; AdminCancelOrder; Health] →
  (∃ r, r ∈ order_routes ∧ route_handler r = h)
  ∧ ∀ v segments r,
      dispatch decodeURIComponent v segments = Served r → route_handler r ≠ h.
Proof.
  intros Hh. split.
  - apply elem_of_cons in Hh as [->|Hh]; [|apply elem_of_cons in Hh as [->|Hh]];
      [| |apply list_elem_of_singleton in Hh as ->].
    + exists {| route_verb := GET; route_path := []; route_guard := AdminAuth;
                route_handler := AdminListOrders |}.
      split; [|done]. do 4 right. left.
    + exists {| route_verb := PATCH; route_path := [Param; Lit "cancel"];
                route_guard := AdminAuth; route_handler := AdminCancelOrder |}.
      split; [|done]. do 6 right. left.
    + exists {| route_verb := GET; route_path := [Lit "health"]; route_guard := NoAuth;
                route_handler := Health |}.
      split; [|done]. do 7 right. left.
  - intros v segments r Hd Hr.
    assert (Hnot : route_handler r ≠ AdminListOrders
                   ∧ route_handler r ≠ AdminCancelOrder ∧ route_handler r ≠ Health).
    { clear Hh Hr. unfold dispatch, order_routes in Hd.
      destruct v, segments as [|s [|s' [|s'' rest]]];
        cbn [route_scan route_path route_verb path_matches params_decode
             bool_decide decide_rel verb_eq_dec andb] in Hd;
        repeat match type of Hd with
               | context [piece_matches ?p ?x] => destruct (piece_matches p x) eqn:?
               | context [bool_decide ?P] => destruct (bool_decide P) eqn:?
               | _ => progress cbn [andb route_scan route_path route_verb path_matches
                                    params_decode decide_rel verb_eq_dec] in Hd
               end;
        try discriminate;
        try (injection Hd as <-; cbn [route_handler]; repeat split; discriminate).
      all: match goal with
           | H : piece_matches (Lit ?l) ?x = true, H' : piece_matches Param ?x = false |- _ =>
               rewrite (lit_is_param l x) in H'; [discriminate | discriminate | reflexivity | exact H]
           end. }
    destruct Hnot as (N1 & N2 & N3).
    apply elem_of_cons in Hh as [->|Hh]; [done|].
    apply elem_of_cons in Hh as [->|Hh]; [done|].
    apply list_elem_of_singleton in Hh as ->. done.
Qed.

(** X25: every GET of one segment is an order lookup behind the Clerk
    check, [/health] in any letter case included: when the segment decodes,
    the request is served by GET [/:id], so the health check answers only to
    a request that carries a Clerk token, and then as the lookup of an
    order.  When the segment does not decode, as [%] alone, the request
    reaches no middleware and no handler of the router. *)
Theorem one_segment_get_is_order_lookup (s : string) :
  s ≠ "" → has_slash s = false →
  match decodeURIComponent s with
  | Some _ =>
      ∃ r, dispatch decodeURIComponent GET [s] = Served r
           ∧ route_handler r = GetOrder ∧ route_guard r = ClerkAuth
  | None => dispatch decodeURIComponent GET [s] = DecodeError
  end.
Proof.
  intros Hs Hslash. apply String.eqb_neq in Hs.
  unfold dispatch, order_routes.
  cbn [route_scan route_path route_verb path_matches params_decode piece_matches].
  rewrite Hs, Hslash. cbn [negb andb].
  destruct (decodeURIComponent s) as [decoded|].
  - rewrite bool_decide_eq_true_2 by eauto. cbn.
    eexists. split; [reflexivity|]. done.
  - rewrite bool_decide_eq_false_2 by (by intros [? ?]). reflexivity.
Qed.
End routing_facts.

(** [decodeURIComponent] where it changes nothing, on the strings without a
    percent sign; here every other string is refused. *)
Definition decode_plain (s : string) : option string :=
  if (fix has_percent (s : string) : bool :=
        match s with
        | EmptyString => false
        | String c s' => Ascii.eqb c "%" || has_percent s'
        end) s
  then None else Some s.

Lemma shadowed_routes_unreachable_witness :
  (∃ r, r ∈ order_routes ∧ route_handler r = Health)
  ∧ ∃ r, dispatch decode_plain GET ["Health"] = Served r ∧ route_handler r = GetOrder.
Proof.
  destruct (shadowed_routes_unreachable decode_plain Health) as [Hregistered Hnever];
    [do 2 right; left|].
  split; [exact Hregistered|].
  destruct (dispatch decode_plain GET ["Health"]) as [r| |] eqn:E; [|discriminate..].
  pose proof (Hnever _ _ _ E) as Hr. exists r. split; [reflexivity|].
  vm_compute in E. by injection E as <-.
Defined.

Lemma one_segment_get_is_order_lookup_witness :
  (∃ r, dispatch decode_plain GET ["health"] = Served r
        ∧ route_handler r = GetOrder ∧ route_guard r = ClerkAuth)
  ∧ dispatch decode_plain GET ["%"] = DecodeError.
Proof.
  split.
  - apply (one_segment_get_is_order_lookup decode_plain "health"); [discriminate | reflexivity].
  - apply (one_segment_get_is_order_lookup decode_plain "%"); [discriminate | reflexivity].
Defined.
